(** * Pintos synchronisation primitives (threads/synch.c)

    A shallow embedding of [src/threads/synch.c]: counting semaphores,
    locks with nested priority donation, and Mesa-style condition
    variables.

    Kernel memory is a record of typed heaps: pointers to [struct thread],
    [struct lock], [struct semaphore] and [struct condition] become
    handles, and each heap is a total function from handles to objects.
    A handle always names an object, so the assertions [sema != NULL],
    [lock != NULL] and [cond != NULL] hold of every argument; a pointer
    field that can be null is an [option].  A region of code that runs
    between two points where the processor can be handed to another
    thread (the interrupts-off bracket
    [intr_disable () ... intr_set_level (old_level)]) is one state
    transformer; a function that can give up the processor returns a
    resumption, whose continuation is run on the state found when the
    thread is scheduled again. *)

From Stdlib Require Import ZArith String Sorted.
From stdpp Require Import base tactics decidable option functions list.

Local Open Scope Z_scope.

(** ** Handles *)

Definition tid := nat.      (* struct thread *    *)
Definition lock_id := nat.  (* struct lock *      *)
Definition cond_id := nat.  (* struct condition * *)

Definition waiter_id := nat. (* struct semaphore_elem * *)

(** A [struct semaphore *] points to a free-standing semaphore, to the
    [semaphore] member of a lock, or to the [semaphore] member of a
    [struct semaphore_elem], the local variable [waiter] of a call of
    [cond_wait]. *)
Inductive sema_ref : Type :=
| SemaAt (n : nat)
| LockSema (l : lock_id)
| WaiterSema (w : waiter_id).

#[global] Instance sema_ref_eq_dec : EqDecision sema_ref.
Proof. solve_decision. Defined.

(** ** Objects *)

(** enum thread_status of threads/thread.h. *)
Inductive thread_status : Type :=
| THREAD_RUNNING
| THREAD_READY
| THREAD_BLOCKED
| THREAD_DYING.

#[global] Instance thread_status_eq_dec : EqDecision thread_status.
Proof. solve_decision. Defined.

(** The members of [struct thread] that synch.c reads or writes.  The
    member [elem] is the thread's membership in the ready list or in one
    semaphore's waiter list. *)
Record thread : Type := mkThread {
  status : thread_status;
  priority : Z;
  original_priority : Z;               (* -1: no donation in effect *)
  wait_semaphore : option sema_ref;    (* NULL or the semaphore waited on *)
  wait_lock : option lock_id;          (* NULL or the lock last waited for *)
  locks : list lock_id                 (* struct list locks *)
}.

(** struct semaphore: [unsigned value] and [struct list waiters]. *)
Record semaphore : Type := mkSema {
  value : Z;
  waiters : list tid
}.

(** The kernel state seen by synch.c.  [holder l] is [l->holder];
    [semas (LockSema l)] is [l->semaphore]; [waiter_priority w] is the
    member [priority] of the [struct semaphore_elem] [w] and
    [semas (WaiterSema w)] its member [semaphore]; [cond_waiters c] is
    [c->waiters], a list of such elements.  Every call of [cond_wait]
    has a [struct semaphore_elem] of its own on the stack of the caller:
    [next_waiter] is the handle that the next call takes.

    [tail_priority l] is a word of memory that belongs to none of these
    objects: the [int] that lies where a [struct thread] laid around the
    tail sentinel of [l->semaphore.waiters] would have its member
    [priority].  [max_waiter_priority] reads it for a lock without
    waiters.  Which word that is depends on the declarations of
    [struct thread] and [struct lock] in threads/thread.h and
    threads/synch.h, which are not among the sources, so the state
    carries its value. *)
Record state : Type := mkState {
  threads : tid -> thread;
  semas : sema_ref -> semaphore;
  holder : lock_id -> option tid;
  waiter_priority : waiter_id -> Z;
  cond_waiters : cond_id -> list waiter_id;
  next_waiter : waiter_id;
  ready_list : list tid;
  current : tid;
  in_intr : bool;
  tail_priority : lock_id -> Z
}.

(** [unsigned] is 32 bits wide. *)
Definition UINT_MODULUS : Z := 2 ^ 32.
Definition UINT_MAX : Z := UINT_MODULUS - 1.

(** ** Field updates *)

Definition set_status (s : thread_status) (t : thread) : thread :=
  mkThread s (priority t) (original_priority t) (wait_semaphore t) (wait_lock t) (locks t).
Definition set_priority (p : Z) (t : thread) : thread :=
  mkThread (status t) p (original_priority t) (wait_semaphore t) (wait_lock t) (locks t).
Definition set_original_priority (p : Z) (t : thread) : thread :=
  mkThread (status t) (priority t) p (wait_semaphore t) (wait_lock t) (locks t).
Definition set_wait_semaphore (s : option sema_ref) (t : thread) : thread :=
  mkThread (status t) (priority t) (original_priority t) s (wait_lock t) (locks t).
Definition set_wait_lock (l : option lock_id) (t : thread) : thread :=
  mkThread (status t) (priority t) (original_priority t) (wait_semaphore t) l (locks t).
Definition set_locks (ls : list lock_id) (t : thread) : thread :=
  mkThread (status t) (priority t) (original_priority t) (wait_semaphore t) (wait_lock t) ls.

Definition set_value (v : Z) (s : semaphore) : semaphore := mkSema v (waiters s).
Definition set_waiters (ws : list tid) (s : semaphore) : semaphore := mkSema (value s) ws.

Definition with_threads (f : tid -> thread) (st : state) : state :=
  mkState f (semas st) (holder st) (waiter_priority st) (cond_waiters st)
          (next_waiter st) (ready_list st) (current st) (in_intr st) (tail_priority st).
Definition with_semas (f : sema_ref -> semaphore) (st : state) : state :=
  mkState (threads st) f (holder st) (waiter_priority st) (cond_waiters st)
          (next_waiter st) (ready_list st) (current st) (in_intr st) (tail_priority st).
Definition with_holder (f : lock_id -> option tid) (st : state) : state :=
  mkState (threads st) (semas st) f (waiter_priority st) (cond_waiters st)
          (next_waiter st) (ready_list st) (current st) (in_intr st) (tail_priority st).
Definition with_waiter_priority (f : waiter_id -> Z) (st : state) : state :=
  mkState (threads st) (semas st) (holder st) f (cond_waiters st)
          (next_waiter st) (ready_list st) (current st) (in_intr st) (tail_priority st).
Definition with_cond_waiters (f : cond_id -> list waiter_id) (st : state) : state :=
  mkState (threads st) (semas st) (holder st) (waiter_priority st) f
          (next_waiter st) (ready_list st) (current st) (in_intr st) (tail_priority st).
Definition with_next_waiter (w : waiter_id) (st : state) : state :=
  mkState (threads st) (semas st) (holder st) (waiter_priority st) (cond_waiters st)
          w (ready_list st) (current st) (in_intr st) (tail_priority st).
Definition with_ready_list (l : list tid) (st : state) : state :=
  mkState (threads st) (semas st) (holder st) (waiter_priority st) (cond_waiters st)
          (next_waiter st) l (current st) (in_intr st) (tail_priority st).
Definition with_current (t : tid) (st : state) : state :=
  mkState (threads st) (semas st) (holder st) (waiter_priority st) (cond_waiters st)
          (next_waiter st) (ready_list st) t (in_intr st) (tail_priority st).
Definition with_tail_priority (f : lock_id -> Z) (st : state) : state :=
  mkState (threads st) (semas st) (holder st) (waiter_priority st) (cond_waiters st)
          (next_waiter st) (ready_list st) (current st) (in_intr st) f.

(** [t->field = ...] and [sema->field = ...]. *)
Definition upd_thread (t : tid) (f : thread -> thread) (st : state) : state :=
  with_threads (<[t := f (threads st t)]> (threads st)) st.
Definition upd_sema (s : sema_ref) (f : semaphore -> semaphore) (st : state) : state :=
  with_semas (<[s := f (semas st s)]> (semas st)) st.

(** [lock->holder = ...] and [list_init]/relinking of [cond->waiters]. *)
Definition with_holder_at (l : lock_id) (h : option tid) (st : state) : state :=
  with_holder (<[l := h]> (holder st)) st.
Definition with_cond_waiters_at (c : cond_id) (ws : list waiter_id) (st : state) : state :=
  with_cond_waiters (<[c := ws]> (cond_waiters st)) st.

(** ** lib/kernel/list.c *)

(** Modelled from the spec: the list library of lib/kernel/list.c is not
    among the sources.  A [struct list] is the sequence of its elements;
    [list_insert_ordered] puts the element in front of the first element
    it is [less] than, which is what keeps a wait list "ordered by
    priority, descending; FIFO among equal priority" under a strict
    comparison. *)
Fixpoint list_insert_ordered {A} (less : A -> A -> bool) (x : A) (l : list A) : list A :=
  match l with
  | [] => [x]
  | e :: r => if less x e then x :: e :: r else e :: list_insert_ordered less x r
  end.

(** The strict comparison "[a] has a larger key than [b]". *)
Definition higher {A} (key : A -> Z) (a b : A) : bool := key b <? key a.

(** Modelled from the spec: [list_max] of lib/kernel/list.c, the first
    element that no later element is greater than ([None] stands for
    [list_end] on an empty list). *)
Fixpoint list_max_from {A} (less : A -> A -> bool) (max : A) (l : list A) : A :=
  match l with
  | [] => max
  | e :: r => list_max_from less (if less max e then e else max) r
  end.
Definition list_max {A} (less : A -> A -> bool) (l : list A) : option A :=
  match l with
  | [] => None
  | m :: r => Some (list_max_from less m r)
  end.

(** Modelled from the spec: [list_remove (&t->elem)] unlinks a thread from
    the list its [elem] is linked in, the ready list or one waiter list;
    [list_remove_thread t] is the state once [t] is unlinked. *)
Definition remove_thread (t : tid) (l : list tid) : list tid :=
  filter (fun x => x <> t) l.

Definition list_remove_thread (t : tid) (st : state) : state :=
  with_ready_list (remove_thread t (ready_list st))
    (with_semas (fun s => set_waiters (remove_thread t (waiters (semas st s))) (semas st s)) st).

(** The [elem] of thread [t] is linked in a list: [t] is in the ready
    list, or it records the semaphore it is queued on ([sema_down] links
    the thread into the waiter list and records the semaphore in
    [wait_semaphore]; [sema_up] clears the record when it unlinks the
    thread).  In a well-formed state the thread that runs is in
    neither. *)
Definition linked (t : tid) (st : state) : bool :=
  bool_decide (t ∈ ready_list st) ||
  match wait_semaphore (threads st t) with Some _ => true | None => false end.

(** Modelled from the spec: [list_remove (&lock->elem)] unlinks a lock
    from the [locks] list it is linked in. *)
Definition list_remove_lock (l : lock_id) (st : state) : state :=
  with_threads (fun t => set_locks (filter (fun x => x <> l) (locks (threads st t))) (threads st t)) st.

(** ** Code that can give up the processor *)

(** The result of running kernel code from a state: it returns, it gives
    up the processor ([Susp st k]: [st] is the state left behind and [k]
    the rest of the code, run on the state found when the thread is
    scheduled again), it halts the kernel, it calls a library function
    outside of what the library defines ([Undefined]: what happens then
    is not determined by the state, and the model does not follow the
    code any further), or the model ran out of fuel for a [while]
    loop. *)
Inductive run (A : Type) : Type :=
| Done (a : A) (st : state)
| Susp (st : state) (k : state -> run A)
| Panic (msg : string)
| Undefined (msg : string)
| OutOfFuel.
Arguments Done {A} a st.
Arguments Susp {A} st k.
Arguments Panic {A} msg.
Arguments Undefined {A} msg.
Arguments OutOfFuel {A}.

Definition M (A : Type) : Type := state -> run A.

Fixpoint run_bind {A B} (r : run A) (f : A -> M B) : run B :=
  match r with
  | Done a st => f a st
  | Susp st k => Susp st (fun st' => run_bind (k st') f)
  | Panic msg => Panic msg
  | Undefined msg => Undefined msg
  | OutOfFuel => OutOfFuel
  end.

Definition ret {A} (a : A) : M A := fun st => Done a st.
Definition bind {A B} (m : M A) (f : A -> M B) : M B := fun st => run_bind (m st) f.
Definition gets {A} (f : state -> A) : M A := fun st => Done (f st) st.
Definition modify (f : state -> state) : M unit := fun st => Done tt (f st).

#[global] Instance M_ret : MRet M := @ret.
#[global] Instance M_bind : MBind M := fun A B f m => bind m f.

(** The state left behind at the first point where the code can be
    observed: its return or its first suspension. *)
Definition state_of {A} (r : run A) : option state :=
  match r with
  | Done _ st => Some st
  | Susp st _ => Some st
  | _ => None
  end.

Definition is_panic {A} (r : run A) : bool :=
  match r with Panic _ => true | _ => false end.

Definition is_susp {A} (r : run A) : bool :=
  match r with Susp _ _ => true | _ => false end.

(** Modelled from the spec: the [ASSERT] macro of lib/debug.h is not among
    the sources; a violated precondition "is fatal and must halt execution
    immediately with a diagnostic identifying the violated precondition".
    The diagnostic is the text of the condition. *)
Definition ASSERT (c : bool) (msg : string) : M unit :=
  fun st => if c then Done tt st else Panic msg.

(** Modelled from the spec: [list_remove (&t->elem)].  The list library
    unlinks an element through the [prev] and [next] pointers stored in
    it.  An element that is in no list has the pointers it was left with,
    null or the neighbours it had in the list it was last taken from, and
    what the call does with them (it fails an assertion, or it relinks
    those neighbours) is not determined by the lists of the state: the
    result is [Undefined]. *)
Definition list_remove_elem (t : tid) : M unit :=
  fun st =>
    if linked t st then Done tt (list_remove_thread t st)
    else Undefined "list_remove (&t->elem): the element is in no list".

(** ** threads/thread.c and threads/interrupt.c *)

(** Modelled from the spec: [current_entity()], the identity of the
    calling execution context. *)
Definition thread_current : M tid := gets current.

(** Modelled from the spec: [in_restricted_context()]. *)
Definition intr_context : M bool := gets in_intr.

(** Modelled from the spec: [priority_higher] of threads/thread.c, the
    comparison that keeps a list of threads "ordered by the entity's
    current priority, descending; FIFO among equal priority": the thread
    of [a] has a strictly higher priority than that of [b]. *)
Definition priority_higher (st : state) (a b : tid) : bool :=
  priority (threads st b) <? priority (threads st a).

(** Modelled from the spec: [suspend_current()], "deschedule the calling
    entity; returns only after it is later marked runnable". *)
Definition thread_block : M unit :=
  fun st => Susp (upd_thread (current st) (set_status THREAD_BLOCKED) st) (fun st' => Done tt st').

(** Modelled from the spec: [make_runnable(entity)], "mark a blocked
    entity eligible to run again"; the ready list is kept in priority
    order. *)
Definition thread_unblock (t : tid) : M unit :=
  modify (fun st =>
    upd_thread t (set_status THREAD_READY)
      (with_ready_list (list_insert_ordered (priority_higher st) t (ready_list st)) st)).

(** Modelled from the spec: yielding puts the caller back among the ready
    threads and gives up the processor. *)
Definition thread_yield : M unit :=
  fun st =>
    Susp (upd_thread (current st) (set_status THREAD_READY)
            (with_ready_list (list_insert_ordered (priority_higher st) (current st) (ready_list st)) st))
         (fun st' => Done tt st').

(** Modelled from the spec: [maybe_preempt()], "cooperative check: if a
    higher-priority entity is now runnable, yield". *)
Definition outranked (st : state) : bool :=
  existsb (fun t => priority_higher st t (current st)) (ready_list st).
Definition priority_yield : M unit :=
  fun st => if outranked st then thread_yield st else Done tt st.

(** Modelled from the spec: the dispatcher, which is out of the scope of
    synch.c: once the running thread has given up the processor, the
    thread at the front of the ready list runs. *)
Definition schedule (st : state) : option state :=
  match ready_list st with
  | [] => None
  | t :: rest =>
      Some (with_current t (upd_thread t (set_status THREAD_RUNNING) (with_ready_list rest st)))
  end.

(** ** Semaphores *)

(** sema_init; [v] is the [unsigned] argument. *)
Definition sema_init (sema : sema_ref) (v : Z) : M unit :=
  modify (upd_sema sema (fun _ => mkSema v [])).

(** The body of the [while (sema->value == 0)] loop of [sema_down]. *)
Definition sema_down_wait (sema : sema_ref) : M unit :=
  cur ← thread_current;
  modify (fun st => upd_sema sema (set_waiters
            (list_insert_ordered (priority_higher st) cur (waiters (semas st sema)))) st) ;;
  cur ← thread_current;
  modify (upd_thread cur (set_wait_semaphore (Some sema))) ;;
  thread_block.

Fixpoint sema_down_loop (fuel : nat) (sema : sema_ref) : M unit :=
  fun st =>
    if value (semas st sema) =? 0 then
      match fuel with
      | O => OutOfFuel
      | S fuel' => (sema_down_wait sema ;; sema_down_loop fuel' sema) st
      end
    else Done tt st.

(** sema_down; [fuel] bounds the number of times the caller goes to
    sleep in the loop. *)
Definition sema_down (fuel : nat) (sema : sema_ref) : M unit :=
  ic ← intr_context;
  ASSERT (negb ic) "!intr_context ()" ;;
  sema_down_loop fuel sema ;;
  modify (upd_sema sema (fun s => set_value (value s - 1) s)).

(** sema_try_down *)
Definition sema_try_down (sema : sema_ref) : M bool :=
  v ← gets (fun st => value (semas st sema));
  if 0 <? v then
    modify (upd_sema sema (fun s => set_value (value s - 1) s)) ;;
    ret true
  else ret false.

(** sema_up; [sema->value++] is an increment of an [unsigned]. *)
Definition sema_up (sema : sema_ref) : M unit :=
  ws ← gets (fun st => waiters (semas st sema));
  match ws with
  | t :: rest =>
      modify (upd_sema sema (set_waiters rest)) ;;
      modify (upd_thread t (set_wait_semaphore None)) ;;
      thread_unblock t
  | [] => ret tt
  end ;;
  modify (upd_sema sema (fun s => set_value ((value s + 1) mod UINT_MODULUS) s)) ;;
  priority_yield.


(** ** Locks and priority donation *)

(** lock_init *)
Definition lock_init (lock : lock_id) : M unit :=
  modify (with_holder_at lock None) ;;
  sema_init (LockSema lock) 1.

(** update_ready_list_when_thread_priority_changes *)
Definition update_ready_list_when_thread_priority_changes (t : tid) : M unit :=
  list_remove_elem t ;;
  modify (fun st => with_ready_list (list_insert_ordered (priority_higher st) t (ready_list st)) st) ;;
  priority_yield.

(** update_wait_list_when_thread_priority_changes; [wait_list] is
    [&sema->waiters]. *)
Definition update_wait_list_when_thread_priority_changes (t : tid) (wait_list : sema_ref) : M unit :=
  list_remove_elem t ;;
  modify (fun st => upd_sema wait_list (set_waiters
            (list_insert_ordered (priority_higher st) t (waiters (semas st wait_list)))) st).

(** donate_nested; [l] may be a null pointer, and [fuel] bounds the
    number of nested calls. *)
Fixpoint donate_nested (fuel : nat) (a : tid) (l : option lock_id) (num_donated_threads : Z) : M unit :=
  match fuel with
  | O => fun _ => OutOfFuel
  | S fuel' =>
    if num_donated_threads =? 8 then ret tt
    else
      match l with
      | None => fun _ => Panic "donate_nested: l->holder with l == NULL"
      | Some l =>
        lock_holder ← gets (fun st => holder st l);
        match lock_holder with
        | None => ret tt
        | Some lock_holder =>
          lower ← gets (fun st => priority (threads st lock_holder) <? priority (threads st a));
          if lower : bool then
            modify (fun st =>
              if original_priority (threads st lock_holder) =? -1
              then upd_thread lock_holder (set_original_priority (priority (threads st lock_holder))) st
              else st) ;;
            modify (fun st => upd_thread lock_holder (set_priority (priority (threads st a))) st) ;;
            hs ← gets (fun st => status (threads st lock_holder));
            match hs with
            | THREAD_RUNNING => update_ready_list_when_thread_priority_changes lock_holder
            | _ =>
              ws ← gets (fun st => wait_semaphore (threads st lock_holder));
              match ws with
              | Some s => update_wait_list_when_thread_priority_changes lock_holder s
              | None => ret tt
              end ;;
              wl ← gets (fun st => wait_lock (threads st lock_holder));
              donate_nested fuel' lock_holder wl (num_donated_threads + 1)
            end
          else ret tt
        end
      end
  end.

(** max_waiter_priority.  The C function copies [l->semaphore.waiters]
    into the local [struct list waiters] and asks [list_empty] and
    [list_front] of the copy.  [list_empty] compares the [next] pointer
    of the head sentinel with the address of the tail sentinel of the
    list it is given: the head of the copy points to the first waiter
    or, when there is none, to the tail sentinel of the list in the lock,
    never to the tail sentinel of the copy.  So the test never finds the
    copy empty and [return -1] is not reached.  With a waiter,
    [list_front] is the first waiter.  Without one it is the tail
    sentinel of the list in the lock, and the function returns the [int]
    that lies where a [struct thread] around that sentinel would have its
    [priority]: [tail_priority st l]. *)
Definition max_waiter_priority (st : state) (l : lock_id) : Z :=
  match waiters (semas st (LockSema l)) with
  | t :: _ => priority (threads st t)
  | [] => tail_priority st l
  end.

(** lock_priority_lower *)
Definition lock_priority_lower (st : state) (a b : lock_id) : bool :=
  max_waiter_priority st a <? max_waiter_priority st b.

(** lock_held_by_current_thread *)
Definition lock_held_by_current_thread (lock : lock_id) : M bool :=
  h ← gets (fun st => holder st lock);
  cur ← thread_current;
  ret (bool_decide (h = Some cur)).

(** lock_acquire *)
Definition lock_acquire (fuel : nat) (lock : lock_id) : M unit :=
  ic ← intr_context;
  ASSERT (negb ic) "!intr_context ()" ;;
  held ← lock_held_by_current_thread lock;
  ASSERT (negb held) "!lock_held_by_current_thread (lock)" ;;
  cur ← thread_current;
  donate_nested 9 cur (Some lock) 0 ;;
  cur ← thread_current;
  modify (upd_thread cur (set_wait_lock (Some lock))) ;;
  sema_down fuel (LockSema lock) ;;
  cur ← thread_current;
  modify (with_holder_at lock (Some cur)) ;;
  cur ← thread_current;
  modify (fun st => upd_thread cur (set_locks (locks (threads st cur) ++ [lock])) st).

(** lock_try_acquire *)
Definition lock_try_acquire (lock : lock_id) : M bool :=
  held ← lock_held_by_current_thread lock;
  ASSERT (negb held) "!lock_held_by_current_thread (lock)" ;;
  success ← sema_try_down (LockSema lock);
  (if success : bool then
     cur ← thread_current;
     modify (with_holder_at lock (Some cur)) ;;
     cur ← thread_current;
     modify (fun st => upd_thread cur (set_locks (locks (threads st cur) ++ [lock])) st)
   else ret tt) ;;
  ret success.

(** update_thread_priority *)
Definition update_thread_priority : M unit :=
  t ← thread_current;
  orig ← gets (fun st => original_priority (threads st t));
  if orig =? -1 then ret tt
  else
    held ← gets (fun st => locks (threads st t));
    new_priority ←
      match held with
      | [] =>
          new_priority ← gets (fun st => original_priority (threads st t));
          modify (upd_thread t (set_original_priority (-1))) ;;
          ret new_priority
      | _ =>
          max_lock_elem ← gets (fun st => list_max (lock_priority_lower st) (locks (threads st t)));
          match max_lock_elem with
          | None => fun _ => Panic "update_thread_priority: list_max of an empty list"
          | Some max_lock =>
              max_priority_for_a_lock ← gets (fun st => max_waiter_priority st max_lock);
              orig ← gets (fun st => original_priority (threads st t));
              if orig <? max_priority_for_a_lock then ret max_priority_for_a_lock
              else
                new_priority ← gets (fun st => original_priority (threads st t));
                modify (upd_thread t (set_original_priority (-1))) ;;
                ret new_priority
          end
      end;
    cur ← thread_current;
    modify (upd_thread cur (set_priority new_priority)).

(** lock_release *)
Definition lock_release (lock : lock_id) : M unit :=
  held ← lock_held_by_current_thread lock;
  ASSERT held "lock_held_by_current_thread (lock)" ;;
  modify (list_remove_lock lock) ;;
  modify (with_holder_at lock None) ;;
  update_thread_priority ;;
  sema_up (LockSema lock).

(** ** Condition variables *)

(** cond_priority_higher: compares the [priority] members of two
    [struct semaphore_elem]. *)
Definition cond_priority_higher (st : state) (a b : waiter_id) : bool :=
  waiter_priority st b <? waiter_priority st a.

(** cond_init *)
Definition cond_init (cond : cond_id) : M unit :=
  modify (with_cond_waiters_at cond []).

(** cond_wait; [waiter] is the local [struct semaphore_elem], a new
    object for this call. *)
Definition cond_wait (fuel : nat) (cond : cond_id) (lock : lock_id) : M unit :=
  waiter ← gets next_waiter;
  modify (with_next_waiter (S waiter)) ;;
  ic ← intr_context;
  ASSERT (negb ic) "!intr_context ()" ;;
  held ← lock_held_by_current_thread lock;
  ASSERT held "lock_held_by_current_thread (lock)" ;;
  sema_init (WaiterSema waiter) 0 ;;
  cur ← thread_current;
  modify (fun st => with_waiter_priority (<[waiter := priority (threads st cur)]> (waiter_priority st)) st) ;;
  modify (fun st => with_cond_waiters_at cond
            (list_insert_ordered (cond_priority_higher st) waiter (cond_waiters st cond)) st) ;;
  lock_release lock ;;
  sema_down fuel (WaiterSema waiter) ;;
  lock_acquire fuel lock.

(** cond_signal *)
Definition cond_signal (cond : cond_id) (lock : lock_id) : M unit :=
  ic ← intr_context;
  ASSERT (negb ic) "!intr_context ()" ;;
  held ← lock_held_by_current_thread lock;
  ASSERT held "lock_held_by_current_thread (lock)" ;;
  ws ← gets (fun st => cond_waiters st cond);
  match ws with
  | w :: rest =>
      modify (with_cond_waiters_at cond rest) ;;
      sema_up (WaiterSema w)
  | [] => ret tt
  end.

(** cond_broadcast; [fuel] bounds the number of passes of the loop. *)
Fixpoint cond_broadcast (fuel : nat) (cond : cond_id) (lock : lock_id) : M unit :=
  ws ← gets (fun st => cond_waiters st cond);
  match ws with
  | [] => ret tt
  | _ :: _ =>
      match fuel with
      | O => fun _ => OutOfFuel
      | S fuel' => cond_signal cond lock ;; cond_broadcast fuel' cond lock
      end
  end.


(** ** Orderings and invariants *)

(** A list is in descending order of a key, equal keys allowed. *)
Definition descending {A} (key : A -> Z) (l : list A) : Prop :=
  StronglySorted (fun a b => key b <= key a) l.

Definition prio (st : state) (t : tid) : Z := priority (threads st t).

(** [x] was put behind every element whose key is at least its own and in
    front of every element with a smaller key: the position of a new
    arrival under "descending, FIFO among equal priority". *)
Definition inserted_fifo {A} (key : A -> Z) (x : A) (old new : list A) : Prop :=
  exists front back,
    old = front ++ back /\ new = front ++ x :: back /\
    Forall (fun e => key x <= key e) front /\
    Forall (fun e => key e < key x) back.

(** The well-formedness of a kernel state that the operations of synch.c
    keep: every waiter list is in priority order and without repetition;
    a thread in a waiter list records that semaphore in [wait_semaphore];
    a thread that records a semaphore is blocked; only the current thread
    runs; the ready list holds ready threads, once each; priorities are
    not negative ([PRI_MIN] is 0, and -1 in [original_priority] stands
    for "none"); [value] is an [unsigned]; the waiter list of every
    condition is in descending order of the recorded priorities, and its
    elements belong to calls of [cond_wait] that have been made. *)
Record Inv (st : state) : Prop := mkInv {
  inv_sorted : forall s, descending (prio st) (waiters (semas st s));
  inv_nodup : forall s, NoDup (waiters (semas st s));
  inv_waits : forall s t, t ∈ waiters (semas st s) -> wait_semaphore (threads st t) = Some s;
  inv_blocked : forall t s, wait_semaphore (threads st t) = Some s -> status (threads st t) = THREAD_BLOCKED;
  inv_running : forall t, status (threads st t) = THREAD_RUNNING -> t = current st;
  inv_ready : forall t, t ∈ ready_list st -> status (threads st t) = THREAD_READY;
  inv_ready_nodup : NoDup (ready_list st);
  inv_prio : forall t, 0 <= priority (threads st t) /\ -1 <= original_priority (threads st t);
  inv_value : forall s, 0 <= value (semas st s) < UINT_MODULUS;
  inv_cond_sorted : forall c, descending (waiter_priority st) (cond_waiters st c);
  inv_cond_fresh : forall c w, w ∈ cond_waiters st c -> (w < next_waiter st)%nat
}.

(** Thread [me] has the processor. *)
Definition running (me : tid) (st : state) : Prop :=
  current st = me /\ status (threads st me) = THREAD_RUNNING.

(** [preserves I R Q r]: code [r] leaves a state that satisfies [I] at
    every point where it gives up the processor, provided it is resumed
    in states that satisfy [R], and establishes [Q] when it returns.  A
    panic halts the kernel and leaves no state, and nothing is said of a
    run once it is [Undefined]. *)
Inductive preserves {A} (I R : state -> Prop) (Q : A -> state -> Prop) : run A -> Prop :=
| preserves_Done a st : Q a st -> preserves I R Q (Done a st)
| preserves_Susp st k :
    I st ->
    (forall st', R st' -> preserves I R Q (k st')) ->
    preserves I R Q (Susp st k)
| preserves_Panic msg : preserves I R Q (Panic msg)
| preserves_Undefined msg : preserves I R Q (Undefined msg)
| preserves_OutOfFuel : preserves I R Q OutOfFuel.

(** [safe me r]: code [r] of thread [me] leaves a well-formed state
    whenever it gives up the processor, whatever well-formed state it is
    resumed in, and returns in a well-formed state in which it still has
    the processor. *)
Definition safe {A} (me : tid) (r : run A) : Prop :=
  preserves Inv (fun st => Inv st /\ running me st) (fun _ st => Inv st /\ running me st) r.

(** The relation between a semaphore's counter and its waiter list that
    the data model asks for: no entity waits while a permit is there. *)
Definition no_waiter_while_permit (s : sema_ref) (st : state) : Prop :=
  0 < value (semas st s) -> waiters (semas st s) = [].

(** [returns R r st]: code [r] returns in state [st] when every
    suspension [Susp s k] is resumed in some state related to [s] by
    [R]. *)
Inductive returns {A} (R : state -> state -> Prop) : run A -> A -> state -> Prop :=
| returns_Done a st : returns R (Done a st) a st
| returns_Susp s k s' a st :
    R s s' -> returns R (k s') a st -> returns R (Susp s k) a st.

(** The two assignments of a donation step of [donate_nested]: the
    holder [h] records its priority in [original_priority] if none is
    recorded ([donated_base]), then takes the priority of the donor [a]. *)
Definition donated_base (h : tid) (st : state) : state :=
  if original_priority (threads st h) =? -1
  then upd_thread h (set_original_priority (priority (threads st h))) st
  else st.
Definition donated (h a : tid) (st : state) : state :=
  upd_thread h (set_priority (priority (threads (donated_base h st) a))) (donated_base h st).

(** The state after [update_wait_list_when_thread_priority_changes (h,
    &s->waiters)], and the state in which
    [update_ready_list_when_thread_priority_changes (h)] makes its
    preemption check. *)
Definition requeued (h : tid) (s : sema_ref) (st : state) : state :=
  upd_sema s (set_waiters
    (list_insert_ordered (priority_higher (list_remove_thread h st)) h
       (waiters (semas (list_remove_thread h st) s))))
    (list_remove_thread h st).
Definition reinserted_ready (h : tid) (st : state) : state :=
  with_ready_list
    (list_insert_ordered (priority_higher (list_remove_thread h st)) h
       (ready_list (list_remove_thread h st)))
    (list_remove_thread h st).

(** The state in which [donate_nested] goes on along [wait_lock] after a
    donation to a holder that does not run. *)
Definition requeued_if_waiting (h : tid) (st : state) : state :=
  match wait_semaphore (threads st h) with
  | Some s => requeued h s st
  | None => st
  end.

(** ** The kernel as a transition system *)

(** The public operations of synch.h. *)
Inductive call : Type :=
| Call_sema_init (s : sema_ref) (v : Z)
| Call_sema_down (fuel : nat) (s : sema_ref)
| Call_sema_try_down (s : sema_ref)
| Call_sema_up (s : sema_ref)
| Call_lock_init (l : lock_id)
| Call_lock_acquire (fuel : nat) (l : lock_id)
| Call_lock_try_acquire (l : lock_id)
| Call_lock_release (l : lock_id)
| Call_cond_init (c : cond_id)
| Call_cond_wait (fuel : nat) (c : cond_id) (l : lock_id)
| Call_cond_signal (c : cond_id) (l : lock_id)
| Call_cond_broadcast (fuel : nat) (c : cond_id) (l : lock_id).

Definition exec_call (c : call) : M unit :=
  match c with
  | Call_sema_init s v => sema_init s v
  | Call_sema_down fuel s => sema_down fuel s
  | Call_sema_try_down s => sema_try_down s ;; ret tt
  | Call_sema_up s => sema_up s
  | Call_lock_init l => lock_init l
  | Call_lock_acquire fuel l => lock_acquire fuel l
  | Call_lock_try_acquire l => lock_try_acquire l ;; ret tt
  | Call_lock_release l => lock_release l
  | Call_cond_init c => cond_init c
  | Call_cond_wait fuel c l => cond_wait fuel c l
  | Call_cond_signal c l => cond_signal c l
  | Call_cond_broadcast fuel c l => cond_broadcast fuel c l
  end.

(** The argument of [sema_init] is an [unsigned]. *)
Definition call_ok (c : call) : Prop :=
  match c with
  | Call_sema_init _ v => 0 <= v < UINT_MODULUS
  | _ => True
  end.

(** A configuration: the kernel state and, for every thread that gave up
    the processor inside an operation, the rest of that operation. *)
Record config : Type := mkConfig {
  cfg_state : state;
  cfg_pending : tid -> option (state -> run unit)
}.

Definition settle (me : tid) (pend : tid -> option (state -> run unit)) (r : run unit)
  : option config :=
  match r with
  | Done _ st => Some (mkConfig st (<[me := None]> pend))
  | Susp st k => Some (mkConfig st (<[me := Some k]> pend))
  | Panic _ => None
  | Undefined _ => None
  | OutOfFuel => None
  end.

(** The running thread calls an operation or goes on with the one it was
    suspended in; when no thread runs, the dispatcher picks the next.
    The words behind the tail sentinels are not objects of the state:
    they can hold another value each time they are read. *)
Inductive sys_step : config -> config -> Prop :=
| step_call c op c' :
    status (threads (cfg_state c) (current (cfg_state c))) = THREAD_RUNNING ->
    cfg_pending c (current (cfg_state c)) = None ->
    call_ok op ->
    settle (current (cfg_state c)) (cfg_pending c) (exec_call op (cfg_state c)) = Some c' ->
    sys_step c c'
| step_resume c k c' :
    status (threads (cfg_state c) (current (cfg_state c))) = THREAD_RUNNING ->
    cfg_pending c (current (cfg_state c)) = Some k ->
    settle (current (cfg_state c)) (cfg_pending c) (k (cfg_state c)) = Some c' ->
    sys_step c c'
| step_schedule c st' :
    status (threads (cfg_state c) (current (cfg_state c))) <> THREAD_RUNNING ->
    schedule (cfg_state c) = Some st' ->
    sys_step c (mkConfig st' (cfg_pending c))
| step_memory c g :
    sys_step c (mkConfig (with_tail_priority g (cfg_state c)) (cfg_pending c)).

(** The configurations the kernel can get to from a well-formed state in
    which no operation is under way. *)
Inductive reachable : config -> Prop :=
| reach_boot st : Inv st -> reachable (mkConfig st (fun _ => None))
| reach_step c c' : reachable c -> sys_step c c' -> reachable c'.


(** ** Example states *)

(** Three threads: thread 0 runs at priority 31 ([PRI_DEFAULT]), thread 1
    (priority 40) and thread 2 (priority 20) are ready; no semaphore has
    a waiter or a permit, no lock has a holder. *)
Definition boot_thread (t : tid) : thread :=
  match t with
  | 0%nat => mkThread THREAD_RUNNING 31 (-1) None None []
  | 1%nat => mkThread THREAD_READY 40 (-1) None None []
  | 2%nat => mkThread THREAD_READY 20 (-1) None None []
  | _ => mkThread THREAD_DYING 0 (-1) None None []
  end.

Definition boot_state : state :=
  mkState boot_thread (fun _ => mkSema 0 []) (fun _ => None) (fun _ => 0) (fun _ => [])
          0%nat [1%nat; 2%nat] 0%nat false (fun _ => 0).

(** Lock 0 is held by the running thread. *)
Definition held_state : state :=
  upd_thread 0%nat (set_locks [0%nat]) (with_holder_at 0%nat (Some 0%nat) boot_state).


(** The state left behind by a run ([boot_state] if it left none). *)
Definition left_by {A} (r : run A) : state := default boot_state (state_of r).
Definition dispatched (st : state) : state := default st (schedule st).

(** Semaphore [SemaAt 0] is initialised to 0 by thread 0, which then
    downs it and blocks; thread 1 is dispatched, downs it and blocks;
    thread 2 is dispatched. *)
Definition two_waiters_state : state :=
  dispatched (left_by (sema_down 1 (SemaAt 0)
    (dispatched (left_by (sema_down 1 (SemaAt 0)
       (left_by (sema_init (SemaAt 0) 0 boot_state))))))).

(** A semaphore that holds [UINT_MAX] permits. *)
Definition full_state : state := left_by (sema_init (SemaAt 0) UINT_MAX boot_state).

(** ** Example configurations *)

(** What is kept about a configuration: its state is well-formed and every
    suspended operation keeps it so when it goes on. *)
Definition cfg_inv (c : config) : Prop :=
  Inv (cfg_state c) /\
  forall t k, cfg_pending c t = Some k ->
    forall st', Inv st' -> running t st' -> safe t (k st').

Definition boot_config : config := mkConfig boot_state (fun _ => None).

Definition after_call (op : call) (c : config) : config :=
  default c (settle (current (cfg_state c)) (cfg_pending c) (exec_call op (cfg_state c))).

Definition after_resume (c : config) : config :=
  match cfg_pending c (current (cfg_state c)) with
  | Some k => default c (settle (current (cfg_state c)) (cfg_pending c) (k (cfg_state c)))
  | None => c
  end.

Definition after_schedule (c : config) : config :=
  mkConfig (dispatched (cfg_state c)) (cfg_pending c).

(** Thread 0 initialises [SemaAt 0] to 0 and downs it; thread 1 is
    dispatched and downs it; thread 2 is dispatched. *)
Definition two_waiters_config : config :=
  after_schedule (after_call (Call_sema_down 1 (SemaAt 0))
    (after_schedule (after_call (Call_sema_down 1 (SemaAt 0))
       (after_call (Call_sema_init (SemaAt 0) 0) boot_config)))).

(** ... and thread 2 ups the semaphore. *)
Definition one_up_config : config :=
  after_call (Call_sema_up (SemaAt 0)) two_waiters_config.

(** Thread 0 initialises lock 0 and [SemaAt 0], acquires the lock and
    blocks on the semaphore; thread 1 (priority 40) is dispatched.  The
    holder of lock 0 is now a blocked thread of priority 31. *)
Definition donation_config : config :=
  after_schedule (after_call (Call_sema_down 1 (SemaAt 0))
    (after_call (Call_lock_acquire 1 0%nat)
       (after_call (Call_sema_init (SemaAt 0) 0)
          (after_call (Call_lock_init 0%nat) boot_config)))).
Definition donation_state : state := cfg_state donation_config.

(** [halts r]: the run [r] comes to an end (it returns, suspends for the
    last time, panics or leaves the model as [Undefined]) without running
    out of fuel, whatever states it is resumed in. *)
Inductive halts {A} : run A -> Prop :=
| halts_Done a st : halts (Done a st)
| halts_Susp st k : (forall st', halts (k st')) -> halts (Susp st k)
| halts_Panic msg : halts (Panic msg)
| halts_Undefined msg : halts (Undefined msg).

(** A cycle of waiting: thread 1 holds lock 0 and waits for lock 1,
    thread 2 holds lock 1 and waits for lock 0; thread 0 (priority 31)
    runs, threads 1 and 2 have priorities 10 and 20. *)
Definition cyclic_thread (t : tid) : thread :=
  match t with
  | 0%nat => mkThread THREAD_RUNNING 31 (-1) None None []
  | 1%nat => mkThread THREAD_BLOCKED 10 (-1) (Some (LockSema 1%nat)) (Some 1%nat) [0%nat]
  | 2%nat => mkThread THREAD_BLOCKED 20 (-1) (Some (LockSema 0%nat)) (Some 0%nat) [1%nat]
  | _ => mkThread THREAD_DYING 0 (-1) None None []
  end.
Definition cyclic_state : state :=
  mkState cyclic_thread
    (fun s => match s with
              | LockSema 0%nat => mkSema 0 [2%nat]
              | LockSema 1%nat => mkSema 0 [1%nat]
              | _ => mkSema 0 []
              end)
    (fun l => match l with 0%nat => Some 1%nat | 1%nat => Some 2%nat | _ => None end)
    (fun _ => 0) (fun _ => []) 0%nat [] 0%nat false (fun _ => 0).

(** A chain of waiting longer than the bound: for every [t >= 1], thread
    [t] (priority 5) holds lock [t - 1] and waits for lock [t]; thread 0
    (priority 60) runs. *)
Definition long_chain_state : state :=
  mkState
    (fun t => match t with
              | 0%nat => mkThread THREAD_RUNNING 60 (-1) None None []
              | S t' => mkThread THREAD_BLOCKED 5 (-1) (Some (LockSema t)) (Some t) [t']
              end)
    (fun s => match s with
              | LockSema (S l) => mkSema 0 [S l]
              | _ => mkSema 0 []
              end)
    (fun l => Some (S l))
    (fun _ => 0) (fun _ => []) 0%nat [] 0%nat false (fun _ => 0).

(** Threads 0 and 1 block on [SemaAt 0]; thread 2 acquires lock 0, ups
    the semaphore and yields to thread 1, which finishes its down and
    ups the semaphore for thread 0.  Thread 1 (priority 40) runs, the
    ready list is [0; 2], and the holder of lock 0 is the ready thread 2
    (priority 20). *)
Definition ready_holder_config : config :=
  after_call (Call_sema_up (SemaAt 0))
    (after_resume (after_schedule
       (after_call (Call_sema_up (SemaAt 0))
          (after_call (Call_lock_acquire 1 0%nat)
             (after_call (Call_lock_init 0%nat) two_waiters_config))))).
Definition ready_holder_state : state := cfg_state ready_holder_config.

(** [m] is the highest priority among the threads [ws]. *)
Definition highest_priority_in (st : state) (ws : list tid) (m : Z) : Prop :=
  (exists w, w ∈ ws /\ prio st w = m) /\ forall w, w ∈ ws -> prio st w <= m.

(** The threads blocked on the locks [ls]. *)
Definition lock_waiters (st : state) (ls : list lock_id) : list tid :=
  ls ≫= (fun l => waiters (semas st (LockSema l))).

(** The caller's priority is put back to the recorded one, which is
    cleared ([update_thread_priority]). *)
Definition restored (t : tid) (st : state) : state :=
  upd_thread t (set_priority (original_priority (threads st t)))
    (upd_thread t (set_original_priority (-1)) st).

(** Thread 2 (priority 20) holds locks 0 and 1; thread 0 (priority 31) is
    blocked on lock 1 and thread 1 (priority 40) on lock 0, so thread 2
    runs at the donated priority 40 with 20 recorded as its own.  The
    steps: threads 0 and 1 block on [SemaAt 0] and [SemaAt 1]; thread 2
    acquires both locks, wakes thread 0, which blocks on lock 1, then
    wakes thread 1, which blocks on lock 0. *)
Definition two_locks_config : config :=
  after_resume (after_schedule (after_call (Call_lock_acquire 1 0%nat)
    (after_resume (after_schedule (after_call (Call_sema_up (SemaAt 1))
      (after_resume (after_schedule (after_call (Call_lock_acquire 1 1%nat)
        (after_resume (after_schedule (after_call (Call_sema_up (SemaAt 0))
          (after_call (Call_lock_acquire 1 1%nat)
            (after_call (Call_lock_acquire 1 0%nat)
              (after_schedule (after_call (Call_sema_down 1 (SemaAt 1))
                (after_schedule (after_call (Call_sema_down 1 (SemaAt 0))
                  (after_call (Call_lock_init 1%nat)
                    (after_call (Call_lock_init 0%nat) boot_config))))))))))))))))))).
Definition two_locks_state : state := cfg_state two_locks_config.

(** How thread [me] finds the state when it is resumed after the
    suspension that left [s]: it is the current thread again and its
    [wait_lock] is as it left it (synch.c writes [wait_lock] of the
    current thread only). *)
Definition resumed_untouched (me : tid) (s s' : state) : Prop :=
  current s' = me /\ wait_lock (threads s' me) = wait_lock (threads s me).

(** Thread [me] has the processor and its [wait_lock] is [w]. *)
Definition waits_for (me : tid) (w : option lock_id) (s : state) : Prop :=
  current s = me /\ wait_lock (threads s me) = w.

(** Another thread has the processor and the [wait_lock] of [me] is [w]. *)
Definition others_run (me : tid) (w : option lock_id) (s : state) : Prop :=
  current s <> me /\ wait_lock (threads s me) = w.

(** [keeps_wait_lock me w r]: code [r], run by a thread other than [me],
    leaves the [wait_lock] of [me] at [w] wherever it suspends or
    returns. *)
Definition keeps_wait_lock {A} (me : tid) (w : option lock_id) (r : run A) : Prop :=
  preserves (fun s => wait_lock (threads s me) = w) (others_run me w)
    (fun _ => others_run me w) r.

(** Lock 0 is initialised and free. *)
Definition free_lock_state : state := cfg_state (after_call (Call_lock_init 0%nat) boot_config).

(** In [two_locks_state] thread 2 releases lock 0 and yields to thread 1,
    which comes back from [lock_acquire (&lock0)]. *)
Definition acquired_config : config :=
  after_resume (after_schedule (after_call (Call_lock_release 0%nat) two_locks_config)).
Definition acquired_state : state := cfg_state acquired_config.

(** [completes R Q r]: the run [r] returns, with [Q], when every
    suspension is resumed in a state related by [R] to the one it left:
    it neither panics nor runs out of fuel. *)
Inductive completes {A} (R : state -> state -> Prop) (Q : A -> state -> Prop) : run A -> Prop :=
| completes_Done a st : Q a st -> completes R Q (Done a st)
| completes_Susp s k :
    (forall s', R s s' -> completes R Q (k s')) -> completes R Q (Susp s k).

(** How a thread that broadcasts on [c] under [l] finds the state when it
    is resumed: nobody has changed the waiter list of [c] (that takes
    [l]), it still holds [l], and it is not in an interrupt handler. *)
Definition cond_resumed (c : cond_id) (l : lock_id) (s s' : state) : Prop :=
  cond_waiters s' c = cond_waiters s c /\
  holder s' l = Some (current s') /\
  in_intr s' = false.

(** Threads 0 and 1 wait on condition 0 under lock 0 (snapshots 31 and
    40); thread 2 holds the lock. *)
Definition cond_config : config :=
  after_call (Call_lock_acquire 1 0%nat)
    (after_schedule (after_resume (after_schedule
      (after_call (Call_cond_wait 1 0%nat 0%nat)
        (after_call (Call_lock_acquire 1 0%nat)
          (after_schedule
            (after_call (Call_cond_wait 1 0%nat 0%nat)
              (after_call (Call_lock_acquire 1 0%nat)
                (after_call (Call_lock_init 0%nat) boot_config))))))))).
Definition cond_state : state := cfg_state cond_config.

(** ** Locks as binary semaphores *)

(** What the lock operations keep of a lock [l]: the counter of its
    semaphore is 0 or 1, and while the lock has a holder the counter is 0
    and the lock is in the holder's list [locks]. *)
Definition LockInv (l : lock_id) (st : state) : Prop :=
  0 <= value (semas st (LockSema l)) <= 1 /\
  forall t, holder st l = Some t ->
    value (semas st (LockSema l)) = 0 /\ l ∈ locks (threads st t).

(** The calls that leave the semaphore inside lock [l] to the lock
    operations: no [sema_init] and no [sema_up] on [&l->semaphore]. *)
Definition respects_lock (l : lock_id) (c : call) : Prop :=
  match c with
  | Call_sema_init s _ => s <> LockSema l
  | Call_sema_up s => s <> LockSema l
  | _ => True
  end.

(** [keeps_lock l r]: code [r] leaves lock [l] in order wherever it
    gives up the processor or returns, when it is resumed in states in
    which the lock is in order. *)
Definition keeps_lock {A} (l : lock_id) (r : run A) : Prop :=
  preserves (LockInv l) (LockInv l) (fun _ => LockInv l) r.

(** ** The effect of a donation *)

(** What a run of [donate_nested] with donor priority [p] may have done
    to the state: it writes [priority] and [original_priority] only.  A
    thread is left with its priority and its record, or its priority is
    raised to [p] and, if no original priority was recorded, the one it
    had is. *)
Definition donation_effect (p : Z) (st st' : state) : Prop :=
  holder st' = holder st /\ current st' = current st /\ in_intr st' = in_intr st /\
  cond_waiters st' = cond_waiters st /\ waiter_priority st' = waiter_priority st /\
  next_waiter st' = next_waiter st /\
  (forall s, value (semas st' s) = value (semas st s)) /\
  forall u,
    locks (threads st' u) = locks (threads st u) /\
    wait_lock (threads st' u) = wait_lock (threads st u) /\
    wait_semaphore (threads st' u) = wait_semaphore (threads st u) /\
    (prio st' u = prio st u /\
     original_priority (threads st' u) = original_priority (threads st u) \/
     prio st u < prio st' u /\ prio st' u = p /\
     original_priority (threads st' u) =
       if original_priority (threads st u) =? -1 then prio st u
       else original_priority (threads st u)).

(** ** More example configurations *)

(** In [two_waiters_config] thread 2 (priority 20) initialises lock 0 and
    takes it with [lock_try_acquire], then ups [SemaAt 0] and yields to
    thread 1 (priority 40), which comes back from its [sema_down].  The
    holder of lock 0 is the ready thread 2, which never waited for a
    lock. *)
Definition try_holder_config : config :=
  after_resume (after_schedule
    (after_call (Call_sema_up (SemaAt 0))
       (after_call (Call_lock_try_acquire 0%nat)
          (after_call (Call_lock_init 0%nat) two_waiters_config)))).
Definition try_holder_state : state := cfg_state try_holder_config.

(** [boot_state] seen from an external interrupt handler. *)
Definition intr_state : state :=
  mkState boot_thread (fun _ => mkSema 0 []) (fun _ => None) (fun _ => 0) (fun _ => [])
          0%nat [1%nat; 2%nat] 0%nat true (fun _ => 0).

(** In [two_waiters_config] thread 2, the only thread that is not
    blocked, has initialised lock 0. *)
Definition lone_state : state :=
  cfg_state (after_call (Call_lock_init 0%nat) two_waiters_config).

(** ** Chains of waiting *)

(** [waiting_chain st l hs]: lock [l] is held by the first thread of
    [hs], which does not run and waits for a lock held by the second, and
    so on: [hs] are the holders that a donation towards [l] meets, in
    order, through [holder] and [wait_lock]. *)
Fixpoint waiting_chain (st : state) (l : lock_id) (hs : list tid) : Prop :=
  match hs with
  | [] => True
  | h :: rest =>
      holder st l = Some h /\ status (threads st h) <> THREAD_RUNNING /\
      match rest with
      | [] => True
      | _ :: _ => exists l', wait_lock (threads st h) = Some l' /\ waiting_chain st l' rest
      end
  end.

(** ** The helper of the semaphore self-test *)

(** The [for] loop of [sema_test_helper] with [n] passes to go.  The
    argument points to an array of two semaphores, [sema[0]] and
    [sema[1]]: [SemaAt sema] and [SemaAt (S sema)]. *)
Fixpoint sema_test_helper_loop (n : nat) (fuel : nat) (sema : nat) : M unit :=
  match n with
  | O => ret tt
  | S n' =>
      sema_down fuel (SemaAt sema) ;;
      sema_up (SemaAt (S sema)) ;;
      sema_test_helper_loop n' fuel sema
  end.

(** sema_test_helper; [fuel] is the fuel of each [sema_down]. *)
Definition sema_test_helper (fuel : nat) (sema : nat) : M unit :=
  sema_test_helper_loop 10 fuel sema.

(** In [lone_state] thread 2 has initialised [SemaAt 4] to 10 and
    [SemaAt 5] to 0. *)
Definition helper_state : state :=
  left_by (sema_init (SemaAt 5) 0 (left_by (sema_init (SemaAt 4) 10 lone_state))).

(** ** The record of a donation *)

(** A thread that has an [original_priority] recorded runs above it: the
    record is made when a donation raises the priority, and cleared when
    the priority is put back. *)
Definition DonationInv (st : state) : Prop :=
  forall t, original_priority (threads st t) <> -1 ->
    original_priority (threads st t) < priority (threads st t).

(** [keeps_donations r]: code [r] keeps [DonationInv] wherever it gives
    up the processor or returns, when it is resumed in states that
    satisfy it. *)
Definition keeps_donations {A} (r : run A) : Prop :=
  preserves DonationInv DonationInv (fun _ => DonationInv) r.

(** ** A broadcast among equals *)

(** Three threads of priority 31: thread 0 runs, threads 1 and 2 are
    ready. *)
Definition level_thread (t : tid) : thread :=
  match t with
  | 0%nat => mkThread THREAD_RUNNING 31 (-1) None None []
  | 1%nat => mkThread THREAD_READY 31 (-1) None None []
  | 2%nat => mkThread THREAD_READY 31 (-1) None None []
  | _ => mkThread THREAD_DYING 0 (-1) None None []
  end.

Definition level_state : state :=
  mkState level_thread (fun _ => mkSema 0 []) (fun _ => None) (fun _ => 0) (fun _ => [])
          0%nat [1%nat; 2%nat] 0%nat false (fun _ => 0).

(** Thread 0 initialises lock 0, takes it and waits on condition 0;
    thread 1 takes the lock and waits on the condition; thread 2 takes
    the lock. *)
Definition broadcast_config : config :=
  after_call (Call_lock_acquire 1 0%nat)
    (after_schedule
      (after_call (Call_cond_wait 1 0%nat 0%nat)
        (after_call (Call_lock_acquire 1 0%nat)
          (after_schedule
            (after_call (Call_cond_wait 1 0%nat 0%nat)
              (after_call (Call_lock_acquire 1 0%nat)
                (after_call (Call_lock_init 0%nat)
                   (mkConfig level_state (fun _ => None))))))))).
Definition broadcast_state : state := cfg_state broadcast_config.

(** ** A holder queued behind a waiter of higher priority *)

(** Four threads: thread 0 (priority 31) runs, threads 1 (priority 40),
    2 (priority 20) and 3 (priority 10) are ready. *)
Definition four_thread (t : tid) : thread :=
  match t with
  | 0%nat => mkThread THREAD_RUNNING 31 (-1) None None []
  | 1%nat => mkThread THREAD_READY 40 (-1) None None []
  | 2%nat => mkThread THREAD_READY 20 (-1) None None []
  | 3%nat => mkThread THREAD_READY 10 (-1) None None []
  | _ => mkThread THREAD_DYING 0 (-1) None None []
  end.

Definition four_state : state :=
  mkState four_thread (fun _ => mkSema 0 []) (fun _ => None) (fun _ => 0) (fun _ => [])
          0%nat [1%nat; 2%nat; 3%nat] 0%nat false (fun _ => 0).

(** Thread 0 initialises lock 0, [SemaAt 0] and [SemaAt 1] and blocks on
    [SemaAt 0]; thread 1 blocks on [SemaAt 1]; thread 2 acquires lock 0
    and blocks on [SemaAt 0], behind thread 0; thread 3 ups [SemaAt 1]
    and yields to thread 1, which comes back from its [sema_down].  The
    waiter list of [SemaAt 0] is [0; 2] (priorities 31 and 20), thread 2
    holds lock 0, and thread 1 (priority 40) runs. *)
Definition queued_holder_config : config :=
  after_resume (after_schedule
    (after_call (Call_sema_up (SemaAt 1))
      (after_schedule
        (after_call (Call_sema_down 1 (SemaAt 0))
          (after_call (Call_lock_acquire 1 0%nat)
            (after_schedule
              (after_call (Call_sema_down 1 (SemaAt 1))
                (after_schedule
                  (after_call (Call_sema_down 1 (SemaAt 0))
                    (after_call (Call_sema_init (SemaAt 1) 0)
                      (after_call (Call_sema_init (SemaAt 0) 0)
                        (after_call (Call_lock_init 0%nat)
                           (mkConfig four_state (fun _ => None)))))))))))))).
Definition queued_holder_state : state := cfg_state queued_holder_config.

(** A state as an external interrupt handler finds it. *)
Definition with_in_intr (b : bool) (st : state) : state :=
  mkState (threads st) (semas st) (holder st) (waiter_priority st) (cond_waiters st)
          (next_waiter st) (ready_list st) (current st) b (tail_priority st).

(** ** The word behind the tail sentinel *)

(** With the declarations of the stock headers ([priority] lies three
    words in front of [elem] in [struct thread], the tail sentinel three
    words behind [value] in [struct semaphore]) the word behind the tail
    sentinel of [l->semaphore.waiters] is [l->semaphore.value]. *)
Definition stock_layout (st : state) : state :=
  with_tail_priority (fun l => value (semas st (LockSema l))) st.

Definition after_memory (c : config) : config :=
  mkConfig (stock_layout (cfg_state c)) (cfg_pending c).

(** Two threads: thread 0 (priority 0, [PRI_MIN]) runs, thread 1
    (priority 5) is ready. *)
Definition low_thread (t : tid) : thread :=
  match t with
  | 0%nat => mkThread THREAD_RUNNING 0 (-1) None None []
  | 1%nat => mkThread THREAD_READY 5 (-1) None None []
  | _ => mkThread THREAD_DYING 0 (-1) None None []
  end.

Definition low_state : state :=
  mkState low_thread (fun _ => mkSema 0 []) (fun _ => None) (fun _ => 0) (fun _ => [])
          0%nat [1%nat] 0%nat false (fun _ => 0).

(** Thread 0 initialises and acquires locks 0 and 1, then ups the
    semaphore of lock 1, which it holds, and yields to thread 1; thread 1
    asks for lock 0, donates its priority 5 to thread 0 and blocks;
    thread 0 goes on.  It holds both locks, runs at priority 5 with 0
    recorded as its own, thread 1 waits for lock 0, nobody waits for
    lock 1, and the counter of lock 1 is 1.  The words behind the tail
    sentinels are the counters. *)
Definition stray_permit_config : config :=
  after_memory
    (after_resume (after_schedule
      (after_call (Call_lock_acquire 1 0%nat)
        (after_schedule
          (after_call (Call_sema_up (LockSema 1%nat))
            (after_call (Call_lock_acquire 1 1%nat)
              (after_call (Call_lock_acquire 1 0%nat)
                (after_call (Call_lock_init 1%nat)
                  (after_call (Call_lock_init 0%nat)
                     (mkConfig low_state (fun _ => None))))))))))).
Definition stray_permit_state : state := cfg_state stray_permit_config.

(** [m] is the largest of the values that [max_waiter_priority] gives for
    the locks [ls]. *)
Definition largest_read (st : state) (ls : list lock_id) (m : Z) : Prop :=
  (exists l, l ∈ ls /\ max_waiter_priority st l = m) /\
  forall l, l ∈ ls -> max_waiter_priority st l <= m.


(** * Properties *)

(** ** Ordered insertion *)

Section insertion.
Context {A : Type}.

Lemma elem_of_list_insert_ordered (less : A -> A -> bool) x y l :
  y ∈ list_insert_ordered less x l <-> y = x \/ y ∈ l.
Proof.
  induction l as [|e r IH]; simpl.
  - rewrite list_elem_of_singleton, elem_of_nil. tauto.
  - destruct (less x e).
    + rewrite !elem_of_cons. tauto.
    + rewrite !elem_of_cons, IH. tauto.
Qed.

Lemma NoDup_list_insert_ordered (less : A -> A -> bool) x l :
  x ∉ l -> NoDup l -> NoDup (list_insert_ordered less x l).
Proof.
  induction l as [|e r IH]; simpl; intros Hx Hnd.
  - apply NoDup_singleton.
  - destruct (less x e).
    + by apply NoDup_cons_2.
    + apply not_elem_of_cons in Hx as [Hne Hx].
      apply NoDup_cons in Hnd as [He Hnd].
      apply NoDup_cons. split; [|by apply IH].
      rewrite elem_of_list_insert_ordered. intros [->|?]; done.
Qed.

End insertion.

Section ordered_lists.
Context {A : Type} (key : A -> Z).

Lemma descending_cons x l :
  descending key (x :: l) <-> descending key l /\ Forall (fun e => key e <= key x) l.
Proof.
  split.
  - intros H. inversion H; subst. done.
  - intros [H1 H2]. by constructor.
Qed.

Lemma descending_tail x l : descending key (x :: l) -> descending key l.
Proof. rewrite descending_cons. tauto. Qed.

Lemma descending_head_max x l y :
  descending key (x :: l) -> y ∈ x :: l -> key y <= key x.
Proof.
  rewrite descending_cons. intros [_ H] [->|Hy]%elem_of_cons; [lia|].
  rewrite Forall_forall in H. by apply H.
Qed.

Lemma descending_insert x l :
  descending key l -> descending key (list_insert_ordered (higher key) x l).
Proof.
  induction l as [|e r IH]; simpl; intros H.
  - apply descending_cons. split; [constructor|constructor].
  - unfold higher at 1. destruct (Z.ltb_spec (key e) (key x)) as [Hlt|Hge].
    + apply descending_cons. split; [done|].
      apply descending_cons in H as [_ H].
      constructor; [lia|].
      eapply Forall_impl; [exact H|]. simpl. intros; lia.
    + apply descending_cons in H as [H1 H2].
      apply descending_cons. split; [by apply IH|].
      apply Forall_forall. intros y [->|Hy]%elem_of_list_insert_ordered; [done|].
      rewrite Forall_forall in H2. by apply H2.
Qed.

Lemma list_insert_ordered_fifo x l :
  descending key l -> inserted_fifo key x l (list_insert_ordered (higher key) x l).
Proof.
  induction l as [|e r IH]; simpl; intros H.
  - exists [], []. repeat split; constructor.
  - unfold higher at 1. destruct (Z.ltb_spec (key e) (key x)) as [Hlt|Hge].
    + exists [], (e :: r). repeat split; [constructor|].
      apply descending_cons in H as [_ H].
      constructor; [done|].
      eapply Forall_impl; [exact H|]. simpl. intros; lia.
    + apply descending_cons in H as [H1 H2].
      destruct (IH H1) as (front & back & -> & -> & Hf & Hb).
      exists (e :: front), back. repeat split; [|done].
      by constructor.
Qed.

Lemma descending_filter (P : A -> Prop) `{!forall x, Decision (P x)} l :
  descending key l -> descending key (filter P l).
Proof.
  induction l as [|e r IH]; [done|].
  rewrite descending_cons. intros [H1 H2].
  rewrite filter_cons. destruct (decide (P e)); [|by apply IH].
  apply descending_cons. split; [by apply IH|].
  apply Forall_forall. intros x [_ Hx]%list_elem_of_filter.
  rewrite Forall_forall in H2. by apply H2.
Qed.

Lemma descending_ext (key' : A -> Z) l :
  (forall x, x ∈ l -> key' x = key x) -> descending key l -> descending key' l.
Proof.
  induction l as [|e r IH]; intros Hk H; [constructor|].
  apply descending_cons in H as [H1 H2].
  constructor.
  - apply IH; [|done]. intros x Hx. apply Hk. by right.
  - apply Forall_forall. intros x Hx.
    rewrite Forall_forall in H2.
    rewrite (Hk x) by (by right). rewrite (Hk e) by (by left). by apply H2.
Qed.
End ordered_lists.

(** ** Running the monad *)

Lemma bind_unfold {A B} (m : M A) (f : A -> M B) st : bind m f st = run_bind (m st) f.
Proof. reflexivity. Qed.

Ltac mstep :=
  unfold mbind, M_bind, mret, M_ret;
  cbn [bind ret gets modify ASSERT run_bind thread_current intr_context negb].

Tactic Notation "mstep" "in" hyp(H) :=
  unfold mbind, M_bind, mret, M_ret in H;
  cbn [bind ret gets modify ASSERT run_bind thread_current intr_context negb] in H.

(** ** Contract violations *)

(** C10: acquiring (or try-acquiring) a lock the caller already holds,
    and releasing a lock the caller does not hold, stop at the failed
    assertion: the result is a panic that carries the violated
    precondition, and no state is returned. *)
Theorem C10_lock_contract_violations_halt (st : state) (fuel : nat) (l : lock_id) :
  (holder st l = Some (current st) ->
     is_panic (lock_acquire fuel l st) = true /\
     (in_intr st = false ->
        lock_acquire fuel l st = Panic "!lock_held_by_current_thread (lock)") /\
     lock_try_acquire l st = Panic "!lock_held_by_current_thread (lock)") /\
  (holder st l <> Some (current st) ->
     lock_release l st = Panic "lock_held_by_current_thread (lock)").
Proof.
  split.
  - intros Hh. unfold lock_acquire, lock_try_acquire, lock_held_by_current_thread.
    mstep. destruct (in_intr st); mstep;
      rewrite Hh, bool_decide_eq_true_2 by done; mstep; (split; [done|split; [done|done]]).
  - intros Hh. unfold lock_release, lock_held_by_current_thread.
    mstep. rewrite bool_decide_eq_false_2 by done. by mstep.
Qed.

Lemma C10_lock_contract_violations_halt_witness :
  (holder held_state 0%nat = Some (current held_state) /\
   lock_acquire 1 0%nat held_state = Panic "!lock_held_by_current_thread (lock)" /\
   lock_try_acquire 0%nat held_state = Panic "!lock_held_by_current_thread (lock)") /\
  (holder boot_state 0%nat <> Some (current boot_state) /\
   lock_release 0%nat boot_state = Panic "lock_held_by_current_thread (lock)").
Proof.
  pose proof (C10_lock_contract_violations_halt held_state 1 0%nat) as [Hacq _].
  pose proof (C10_lock_contract_violations_halt boot_state 1 0%nat) as [_ Hrel].
  split.
  - split; [reflexivity|].
    destruct (Hacq eq_refl) as (_ & H1 & H2). split; [apply H1; reflexivity | exact H2].
  - assert (holder boot_state 0%nat <> Some (current boot_state)) as Hne by discriminate.
    split; [exact Hne | exact (Hrel Hne)].
Defined.

(** ** Field updates *)

Lemma threads_upd_thread t f st u :
  threads (upd_thread t f st) u = if decide (t = u) then f (threads st t) else threads st u.
Proof. unfold upd_thread. simpl. unfold insert, fn_insert. by destruct (decide (t = u)). Qed.

Lemma semas_upd_sema s f st s' :
  semas (upd_sema s f st) s' = if decide (s = s') then f (semas st s) else semas st s'.
Proof. unfold upd_sema. simpl. unfold insert, fn_insert. by destruct (decide (s = s')). Qed.

Lemma semas_upd_sema_eq s f st : semas (upd_sema s f st) s = f (semas st s).
Proof. rewrite semas_upd_sema. by rewrite decide_True. Qed.

Ltac st_simpl :=
  cbn [threads semas holder waiter_priority cond_waiters next_waiter ready_list current
       in_intr tail_priority upd_thread upd_sema with_threads with_semas with_holder
       with_waiter_priority with_cond_waiters with_next_waiter with_ready_list
       with_current with_tail_priority with_holder_at
       with_cond_waiters_at list_remove_thread list_remove_lock
       status priority original_priority wait_semaphore wait_lock locks
       set_status set_priority set_original_priority set_wait_semaphore
       set_wait_lock set_locks value waiters set_value set_waiters prio] in *.

(** ** Unlinking a thread *)

Lemma linked_waiting t s st : wait_semaphore (threads st t) = Some s -> linked t st = true.
Proof. unfold linked. intros ->. apply orb_true_r. Qed.

Lemma list_remove_elem_linked t st :
  linked t st = true -> list_remove_elem t st = Done tt (list_remove_thread t st).
Proof. unfold list_remove_elem. by intros ->. Qed.

Lemma list_remove_elem_waiting t s st :
  wait_semaphore (threads st t) = Some s ->
  list_remove_elem t st = Done tt (list_remove_thread t st).
Proof. intros H. by apply list_remove_elem_linked, (linked_waiting t s). Qed.

(** ** sema_up *)

(** C7 (amended): [sema_up] removes the head of a non-empty waiter list,
    which has the highest priority when the list is in priority order,
    clears its [wait_semaphore] and makes it ready; in all cases [value]
    becomes [value + 1] modulo 2^32, that is [value + 1] unless it was
    [UINT_MAX]; the last step is the preemption check, which gives up the
    processor when the thread just made ready outranks the caller. *)
Theorem C7_sema_up_effect (st : state) (s : sema_ref) :
  exists st',
    sema_up s st = priority_yield st' /\
    value (semas st' s) = (value (semas st s) + 1) mod UINT_MODULUS /\
    (0 <= value (semas st s) < UINT_MAX -> value (semas st' s) = value (semas st s) + 1) /\
    current st' = current st /\
    match waiters (semas st s) with
    | [] =>
        waiters (semas st' s) = [] /\ threads st' = threads st /\
        ready_list st' = ready_list st
    | t :: rest =>
        waiters (semas st' s) = rest /\
        wait_semaphore (threads st' t) = None /\
        status (threads st' t) = THREAD_READY /\
        t ∈ ready_list st' /\
        (descending (prio st) (t :: rest) ->
           forall u, u ∈ t :: rest -> prio st u <= prio st t) /\
        (prio st' (current st') < prio st' t ->
           exists st'' k, sema_up s st = Susp st'' k /\
             status (threads st'' (current st)) = THREAD_READY /\
             current st ∈ ready_list st'')
    end.
Proof.
  unfold sema_up. mstep.
  assert (forall v, 0 <= v < UINT_MAX -> (v + 1) mod UINT_MODULUS = v + 1) as Hsmall.
  { intros v Hv. apply Z.mod_small. unfold UINT_MAX in Hv. lia. }
  destruct (waiters (semas st s)) as [|t rest] eqn:Hws; unfold thread_unblock; mstep.
  - eexists. split; [reflexivity|].
    rewrite semas_upd_sema_eq. simpl. rewrite Hws.
    split; [done|]. split; [apply Hsmall|]. done.
  - eexists. split; [reflexivity|].
    st_simpl. rewrite !fn_lookup_insert. st_simpl.
    split; [done|]. split; [apply Hsmall|]. do 4 (split; [done|]).
    split; [|split].
    + rewrite elem_of_list_insert_ordered. by left.
    + intros Hd u Hu. by apply (descending_head_max (prio st) t rest).
    + intros Hout. unfold priority_yield.
      match goal with |- context [outranked ?x] => set (st1 := x) in * end.
      assert (outranked st1 = true) as ->.
      { unfold outranked. apply existsb_exists. exists t. split.
        - apply list_elem_of_In. subst st1. st_simpl.
          rewrite elem_of_list_insert_ordered. by left.
        - unfold priority_higher. apply Z.ltb_lt. exact Hout. }
      unfold thread_yield. do 2 eexists. split; [reflexivity|].
      subst st1. st_simpl. split.
      * by rewrite fn_lookup_insert.
      * rewrite elem_of_list_insert_ordered. by left.
Qed.

Lemma C7_sema_up_effect_witness :
  exists st',
    sema_up (SemaAt 0) two_waiters_state = priority_yield st' /\
    value (semas st' (SemaAt 0)) = 1 /\
    waiters (semas st' (SemaAt 0)) = [0%nat] /\
    status (threads st' 1%nat) = THREAD_READY /\
    (forall u, u ∈ [1%nat; 0%nat] -> prio two_waiters_state u <= prio two_waiters_state 1%nat) /\
    is_susp (sema_up (SemaAt 0) two_waiters_state) = true.
Proof.
  destruct (C7_sema_up_effect two_waiters_state (SemaAt 0))
    as (st' & Hup & _ & Hv & _ & Hw).
  change (waiters (semas two_waiters_state (SemaAt 0))) with [1%nat; 0%nat] in Hw.
  destruct Hw as (Hrest & _ & Hst & _ & Hmax & Hyield).
  exists st'. split; [exact Hup|].
  split; [rewrite Hv; [reflexivity|by vm_compute]|].
  split; [exact Hrest|]. split; [exact Hst|]. split.
  - apply Hmax. repeat constructor; vm_compute; discriminate.
  - reflexivity.
Defined.

(** The increment of [value] wraps around at [UINT_MAX]: after
    [sema_init (&s, UINT_MAX)], [sema_up (&s)] leaves [value] at 0. *)
Lemma C7_sema_up_wraps_at_uint_max :
  exists st',
    state_of (sema_up (SemaAt 0) full_state) = Some st' /\
    value (semas full_state (SemaAt 0)) = 4294967295 /\
    value (semas st' (SemaAt 0)) = 0 /\
    value (semas st' (SemaAt 0)) <> value (semas full_state (SemaAt 0)) + 1.
Proof.
  eexists. split; [reflexivity|]. vm_compute. repeat split; discriminate.
Qed.

(** ** Reasoning about suspensions *)

Section preserves_laws.
Context {A B : Type} (I R : state -> Prop).

Lemma preserves_bind (Q' : A -> state -> Prop) (Q : B -> state -> Prop) r (f : A -> M B) :
  preserves I R Q' r ->
  (forall a st, Q' a st -> preserves I R Q (f a st)) ->
  preserves I R Q (run_bind r f).
Proof.
  intros Hr Hf. induction Hr as [a st HQ|st k HI Hk IH|msg|msg|]; simpl.
  - by apply Hf.
  - apply preserves_Susp; [done|]. intros st' HR. by apply IH.
  - constructor.
  - constructor.
  - constructor.
Qed.

End preserves_laws.

(** ** Well-formedness is kept by the elementary updates *)

(** Only these parts of a state matter for well-formedness. *)
Lemma Inv_ext st st' :
  (forall t, status (threads st' t) = status (threads st t) /\
             priority (threads st' t) = priority (threads st t) /\
             original_priority (threads st' t) = original_priority (threads st t) /\
             wait_semaphore (threads st' t) = wait_semaphore (threads st t)) ->
  (forall s, semas st' s = semas st s) ->
  ready_list st' = ready_list st ->
  current st' = current st ->
  waiter_priority st' = waiter_priority st ->
  cond_waiters st' = cond_waiters st ->
  next_waiter st' = next_waiter st ->
  Inv st -> Inv st'.
Proof.
  intros Ht Hs Hr Hc Hwp Hcw Hnw [H1 H2 H3 H4 H5 H6 H7 H8 H9 H10 H11].
  constructor.
  - intros s. rewrite Hs. eapply descending_ext; [|apply H1].
    intros x _. unfold prio. apply Ht.
  - intros s. rewrite Hs. apply H2.
  - intros s t. rewrite Hs. destruct (Ht t) as (_ & _ & _ & ->). apply H3.
  - intros t s. destruct (Ht t) as (-> & _ & _ & ->). apply H4.
  - intros t. destruct (Ht t) as (-> & _). rewrite Hc. apply H5.
  - intros t. rewrite Hr. destruct (Ht t) as (-> & _). apply H6.
  - by rewrite Hr.
  - intros t. destruct (Ht t) as (_ & -> & -> & _). apply H8.
  - intros s. rewrite Hs. apply H9.
  - intros c. rewrite Hwp, Hcw. apply H10.
  - intros c w. rewrite Hcw, Hnw. apply H11.
Qed.

Lemma Inv_with_holder_at l h st : Inv st -> Inv (with_holder_at l h st).
Proof. by apply Inv_ext. Qed.

Lemma Inv_with_tail_priority g st : Inv st -> Inv (with_tail_priority g st).
Proof. by apply Inv_ext. Qed.

(** [cond_init]. *)
Lemma Inv_cond_init c st : Inv st -> Inv (with_cond_waiters_at c [] st).
Proof.
  intros [H1 H2 H3 H4 H5 H6 H7 H8 H9 H10 H11]. constructor; try done.
  - intros c'. st_simpl. unfold insert, fn_insert. case_decide; [constructor|apply H10].
  - intros c' w. st_simpl. unfold insert, fn_insert.
    case_decide; [by intros ?%elem_of_nil|apply H11].
Qed.

(** The head of a condition's waiter list has been taken off
    ([cond_signal]). *)
Lemma Inv_cond_pop c w rest st :
  Inv st -> cond_waiters st c = w :: rest -> Inv (with_cond_waiters_at c rest st).
Proof.
  intros [H1 H2 H3 H4 H5 H6 H7 H8 H9 H10 H11] Hl. constructor; try done.
  - intros c'. st_simpl. unfold insert, fn_insert. case_decide; subst; [|apply H10].
    specialize (H10 c'). rewrite Hl in H10. by eapply descending_tail.
  - intros c' u. st_simpl. unfold insert, fn_insert. case_decide; subst; [|apply H11].
    intros Hu. apply H11 with c'. rewrite Hl. by right.
Qed.


Lemma Inv_set_wait_lock t l st : Inv st -> Inv (upd_thread t (set_wait_lock l) st).
Proof.
  apply Inv_ext; try done.
  intros u. rewrite threads_upd_thread. by destruct (decide (t = u)) as [->|].
Qed.

Lemma Inv_set_locks t ls st : Inv st -> Inv (upd_thread t (set_locks ls) st).
Proof.
  apply Inv_ext; try done.
  intros u. rewrite threads_upd_thread. by destruct (decide (t = u)) as [->|].
Qed.

Lemma Inv_list_remove_lock l st : Inv st -> Inv (list_remove_lock l st).
Proof. by apply Inv_ext. Qed.

(** Writing the counter of a semaphore. *)
Lemma Inv_set_value s v st :
  0 <= v < UINT_MODULUS -> Inv st -> Inv (upd_sema s (set_value v) st).
Proof.
  intros Hv [H1 H2 H3 H4 H5 H6 H7 H8 H9 H10 H11].
  constructor; try done.
  - intros s'. rewrite semas_upd_sema. destruct (decide (s = s')) as [->|]; apply H1.
  - intros s'. rewrite semas_upd_sema. destruct (decide (s = s')) as [->|]; apply H2.
  - intros s' t. rewrite semas_upd_sema. destruct (decide (s = s')) as [->|]; apply H3.
  - intros s'. rewrite semas_upd_sema. destruct (decide (s = s')) as [->|]; [done|apply H9].
Qed.

(** [sema_init]. *)
Lemma Inv_sema_init s v st :
  0 <= v < UINT_MODULUS -> Inv st -> Inv (upd_sema s (fun _ => mkSema v []) st).
Proof.
  intros Hv [H1 H2 H3 H4 H5 H6 H7 H8 H9 H10 H11].
  constructor; try done.
  - intros s'. rewrite semas_upd_sema.
    destruct (decide (s = s')) as [->|]; [constructor|apply H1].
  - intros s'. rewrite semas_upd_sema.
    destruct (decide (s = s')) as [->|]; [constructor|apply H2].
  - intros s' t. rewrite semas_upd_sema.
    destruct (decide (s = s')) as [->|]; [by intros ?%elem_of_nil|apply H3].
  - intros s'. rewrite semas_upd_sema. destruct (decide (s = s')) as [->|]; [done|apply H9].
Qed.

(** A new waiter has been set up and inserted into a condition's waiter
    list ([cond_wait], up to [lock_release]). *)
Lemma Inv_cond_enqueue c p st :
  Inv st ->
  let w := next_waiter st in
  let st1 := with_waiter_priority (<[w := p]> (waiter_priority st))
               (upd_sema (WaiterSema w) (fun _ => mkSema 0 []) (with_next_waiter (S w) st)) in
  Inv (with_cond_waiters_at c
         (list_insert_ordered (cond_priority_higher st1) w (cond_waiters st1 c)) st1).
Proof.
  intros HI w st1.
  assert (Inv (upd_sema (WaiterSema w) (fun _ => mkSema 0 []) st)) as HI1.
  { apply Inv_sema_init; [by vm_compute|done]. }
  assert (forall c' u, u ∈ cond_waiters st c' -> u <> w) as Hfresh.
  { intros c' u Hu ->. apply (inv_cond_fresh _ HI) in Hu. unfold w in Hu. lia. }
  destruct HI1 as [H1 H2 H3 H4 H5 H6 H7 H8 H9 H10 H11]. constructor; try done.
  - intros c'. st_simpl.
    assert (forall c'', descending (<[w := p]> (waiter_priority st)) (cond_waiters st c''))
      as Hd.
    { intros c''. apply descending_ext with (key := waiter_priority st); [|apply H10].
      intros x Hx. apply fn_lookup_insert_ne. intros ->. by eapply Hfresh. }
    unfold insert at 1, fn_insert. case_decide; subst; [|apply Hd].
    apply (descending_insert (<[w := p]> (waiter_priority st))), Hd.
  - intros c' u. st_simpl. unfold insert at 1, fn_insert. case_decide; subst.
    + rewrite elem_of_list_insert_ordered.
      intros [->|Hu]; [|apply H11 in Hu]; unfold st1, w; st_simpl; lia.
    + intros Hu. apply H11 in Hu. unfold st1, w. st_simpl. lia.
Qed.

(** Writing [original_priority]. *)
Lemma Inv_set_original_priority t p st :
  -1 <= p -> Inv st -> Inv (upd_thread t (set_original_priority p) st).
Proof.
  intros Hp HI. pose proof (inv_prio _ HI) as H8.
  destruct HI as [H1 H2 H3 H4 H5 H6 H7 _ H9 H10 H11].
  constructor; try done.
  - intros s. eapply descending_ext; [|apply H1].
    intros x _. unfold prio. rewrite threads_upd_thread. by destruct (decide (t = x)) as [->|].
  - intros s u. rewrite threads_upd_thread. destruct (decide (t = u)) as [->|]; apply H3.
  - intros u s. rewrite threads_upd_thread. destruct (decide (t = u)) as [->|]; apply H4.
  - intros u. rewrite threads_upd_thread. destruct (decide (t = u)) as [->|]; apply H5.
  - intros u. rewrite threads_upd_thread. destruct (decide (t = u)) as [->|]; apply H6.
  - intros u. rewrite threads_upd_thread. destruct (decide (t = u)) as [->|]; [|apply H8].
    simpl. split; [apply H8|done].
Qed.

(** Writing the priority of a thread that is in no waiter list. *)
Lemma Inv_set_priority_unqueued t p st :
  0 <= p -> wait_semaphore (threads st t) = None ->
  Inv st -> Inv (upd_thread t (set_priority p) st).
Proof.
  intros Hp Hw HI. pose proof (inv_prio _ HI) as H8.
  destruct HI as [H1 H2 H3 H4 H5 H6 H7 _ H9 H10 H11].
  constructor; try done.
  - intros s. eapply descending_ext; [|apply H1].
    intros x Hx. unfold prio. rewrite threads_upd_thread.
    destruct (decide (t = x)) as [->|]; [|done].
    apply H3 in Hx. congruence.
  - intros s u. rewrite threads_upd_thread. destruct (decide (t = u)) as [->|]; apply H3.
  - intros u s. rewrite threads_upd_thread. destruct (decide (t = u)) as [->|]; apply H4.
  - intros u. rewrite threads_upd_thread. destruct (decide (t = u)) as [->|]; apply H5.
  - intros u. rewrite threads_upd_thread. destruct (decide (t = u)) as [->|]; apply H6.
  - intros u. rewrite threads_upd_thread. destruct (decide (t = u)) as [->|]; [|apply H8].
    simpl. split; [done|apply H8].
Qed.

Lemma running_unqueued st t :
  Inv st -> status (threads st t) = THREAD_RUNNING -> wait_semaphore (threads st t) = None.
Proof.
  intros HI Hr. destruct (wait_semaphore (threads st t)) as [s|] eqn:Hw; [|done].
  apply (inv_blocked _ HI) in Hw. congruence.
Qed.

Lemma ready_unqueued st t :
  Inv st -> status (threads st t) = THREAD_READY -> wait_semaphore (threads st t) = None.
Proof.
  intros HI Hr. destruct (wait_semaphore (threads st t)) as [s|] eqn:Hw; [|done].
  apply (inv_blocked _ HI) in Hw. congruence.
Qed.

Lemma waiter_blocked st s t :
  Inv st -> t ∈ waiters (semas st s) -> status (threads st t) = THREAD_BLOCKED.
Proof. intros HI Ht. eapply inv_blocked; [done|]. by eapply inv_waits. Qed.

Lemma unqueued_not_waiter st s t :
  Inv st -> wait_semaphore (threads st t) = None -> t ∉ waiters (semas st s).
Proof. intros HI Hw Ht. apply (inv_waits _ HI) in Ht. congruence. Qed.

Lemma priority_higher_higher st : priority_higher st = higher (prio st).
Proof. reflexivity. Qed.

Ltac fields :=
  intros; unfold prio; st_simpl; unfold insert, fn_insert;
  repeat (case_decide; subst; st_simpl; try done);
  try done; try congruence.

(** The caller has put itself into a waiter list and blocked
    ([sema_down], body of the loop). *)
Lemma Inv_sema_down_wait s st :
  Inv st -> status (threads st (current st)) = THREAD_RUNNING ->
  Inv (upd_thread (current st) (set_status THREAD_BLOCKED)
         (upd_thread (current st) (set_wait_semaphore (Some s))
            (upd_sema s (set_waiters
               (list_insert_ordered (priority_higher st) (current st) (waiters (semas st s)))) st))).
Proof.
  intros HI Hrun.
  pose proof (running_unqueued _ _ HI Hrun) as Hunq.
  pose proof (fun s => unqueued_not_waiter _ s _ HI Hunq) as Hnotin.
  destruct HI as [H1 H2 H3 H4 H5 H6 H7 H8 H9 H10 H11].
  set (cur := current st) in *.
  match goal with |- Inv ?x => set (st1 := x) end.
  assert (forall u, prio st1 u = prio st u) as Fp by (unfold st1; fields).
  assert (forall s', waiters (semas st1 s') =
            if decide (s = s')
            then list_insert_ordered (higher (prio st)) cur (waiters (semas st s))
            else waiters (semas st s')) as Fw by (unfold st1; fields).
  assert (forall u, wait_semaphore (threads st1 u) =
            if decide (cur = u) then Some s else wait_semaphore (threads st u)) as Fs
    by (unfold st1; fields).
  assert (forall u, status (threads st1 u) =
            if decide (cur = u) then THREAD_BLOCKED else status (threads st u)) as Ft
    by (unfold st1; fields).
  assert (forall u, priority (threads st1 u) = priority (threads st u) /\
            original_priority (threads st1 u) = original_priority (threads st u)) as Fo
    by (unfold st1; fields).
  assert (forall s', value (semas st1 s') = value (semas st s')) as Fv by (unfold st1; fields).
  constructor.
  - intros s'. apply descending_ext with (key := prio st); [by intros|].
    rewrite Fw. case_decide; subst; [|apply H1]. apply descending_insert, H1.
  - intros s'. rewrite Fw. case_decide; subst; [|apply H2].
    apply NoDup_list_insert_ordered; [apply Hnotin|apply H2].
  - intros s' t. rewrite Fw, Fs. case_decide; subst.
    + rewrite elem_of_list_insert_ordered. intros [->|Ht]; [by rewrite decide_True|].
      case_decide; [done|]. by apply H3.
    + intros Ht. case_decide; subst; [by apply Hnotin in Ht|]. by apply H3.
  - intros t s'. rewrite Fs, Ft. case_decide; [done|]. apply H4.
  - intros t. rewrite Ft. case_decide; [done|]. apply H5.
  - intros t Ht. rewrite Ft. pose proof (H6 t Ht). case_decide; subst; [congruence|done].
  - apply H7.
  - intros t. destruct (Fo t) as [-> ->]. apply H8.
  - intros s'. rewrite Fv. apply H9.
  - exact H10.
  - exact H11.
Qed.

(** The caller has put itself back into the ready list ([thread_yield]). *)
Lemma Inv_thread_yield st :
  Inv st -> status (threads st (current st)) = THREAD_RUNNING ->
  Inv (upd_thread (current st) (set_status THREAD_READY)
         (with_ready_list
            (list_insert_ordered (priority_higher st) (current st) (ready_list st)) st)).
Proof.
  intros HI Hrun.
  pose proof (running_unqueued _ _ HI Hrun) as Hunq.
  destruct HI as [H1 H2 H3 H4 H5 H6 H7 H8 H9 H10 H11].
  set (cur := current st) in *.
  match goal with |- Inv ?x => set (st1 := x) end.
  assert (forall u, prio st1 u = prio st u) as Fp by (unfold st1; fields).
  assert (forall s', semas st1 s' = semas st s') as Fw by (unfold st1; fields).
  assert (forall u, wait_semaphore (threads st1 u) = wait_semaphore (threads st u)) as Fs
    by (unfold st1; fields).
  assert (forall u, status (threads st1 u) =
            if decide (cur = u) then THREAD_READY else status (threads st u)) as Ft
    by (unfold st1; fields).
  assert (forall u, priority (threads st1 u) = priority (threads st u) /\
            original_priority (threads st1 u) = original_priority (threads st u)) as Fo
    by (unfold st1; fields).
  assert (ready_list st1 = list_insert_ordered (priority_higher st) cur (ready_list st)) as Fr
    by (unfold st1; fields).
  constructor.
  - intros s'. rewrite Fw. apply descending_ext with (key := prio st); [by intros|]. apply H1.
  - intros s'. rewrite Fw. apply H2.
  - intros s' t. rewrite Fw, Fs. apply H3.
  - intros t s'. rewrite Fs, Ft. intros Hw. case_decide; subst; [congruence|]. by eapply H4.
  - intros t. rewrite Ft. case_decide; [done|]. apply H5.
  - intros t. rewrite Fr, Ft, elem_of_list_insert_ordered.
    intros [->|Ht]; [by rewrite decide_True|]. case_decide; [done|]. by apply H6.
  - rewrite Fr. apply NoDup_list_insert_ordered; [|done].
    intros Hin. apply H6 in Hin. congruence.
  - intros t. destruct (Fo t) as [-> ->]. apply H8.
  - intros s'. rewrite Fw. apply H9.
  - exact H10.
  - exact H11.
Qed.

(** The head waiter has been taken off the list and made ready
    ([sema_up], before the increment). *)
Lemma Inv_sema_up_wake s t rest st :
  Inv st -> waiters (semas st s) = t :: rest ->
  Inv (upd_thread t (set_status THREAD_READY)
         (with_ready_list
            (list_insert_ordered
               (priority_higher
                  (upd_thread t (set_wait_semaphore None) (upd_sema s (set_waiters rest) st)))
               t (ready_list st))
            (upd_thread t (set_wait_semaphore None) (upd_sema s (set_waiters rest) st)))).
Proof.
  intros HI Hws.
  assert (t ∈ waiters (semas st s)) as Hin by (rewrite Hws; by left).
  pose proof (waiter_blocked _ _ _ HI Hin) as Hblocked.
  pose proof (inv_waits _ HI _ _ Hin) as Hwt.
  destruct HI as [H1 H2 H3 H4 H5 H6 H7 H8 H9 H10 H11].
  match goal with |- Inv ?x => set (st1 := x) end.
  assert (forall u, prio st1 u = prio st u) as Fp by (unfold st1; fields).
  assert (forall s', waiters (semas st1 s') =
            if decide (s = s') then rest else waiters (semas st s')) as Fw
    by (unfold st1; fields).
  assert (forall u, wait_semaphore (threads st1 u) =
            if decide (t = u) then None else wait_semaphore (threads st u)) as Fs
    by (unfold st1; fields).
  assert (forall u, status (threads st1 u) =
            if decide (t = u) then THREAD_READY else status (threads st u)) as Ft
    by (unfold st1; fields).
  assert (forall u, priority (threads st1 u) = priority (threads st u) /\
            original_priority (threads st1 u) = original_priority (threads st u)) as Fo
    by (unfold st1; fields).
  assert (forall s', value (semas st1 s') = value (semas st s')) as Fv by (unfold st1; fields).
  assert (exists less, ready_list st1 = list_insert_ordered less t (ready_list st)) as [less Fr]
    by (unfold st1; eexists; fields).
  pose proof (H2 s) as Hnd. rewrite Hws in Hnd. apply NoDup_cons in Hnd as [Hnotin Hnd].
  constructor.
  - intros s'. apply descending_ext with (key := prio st); [by intros|].
    rewrite Fw. case_decide; subst; [|apply H1].
    specialize (H1 s'). rewrite Hws in H1. by eapply descending_tail.
  - intros s'. rewrite Fw. case_decide; subst; [done|apply H2].
  - intros s' u. rewrite Fw, Fs. case_decide; subst.
    + intros Hu. case_decide; subst; [done|]. apply H3. rewrite Hws. by right.
    + intros Hu. case_decide; subst; [|by apply H3].
      apply H3 in Hu. congruence.
  - intros u s'. rewrite Fs, Ft. case_decide; [done|]. apply H4.
  - intros u. rewrite Ft. case_decide; [done|]. apply H5.
  - intros u. rewrite Fr, Ft, elem_of_list_insert_ordered.
    intros [->|Hu]; [by rewrite decide_True|]. case_decide; [done|]. by apply H6.
  - rewrite Fr. apply NoDup_list_insert_ordered; [|done].
    intros Hr. apply H6 in Hr. congruence.
  - intros u. destruct (Fo u) as [-> ->]. apply H8.
  - intros s'. rewrite Fv. apply H9.
  - exact H10.
  - exact H11.
Qed.

(** The dispatcher has handed the processor to the next ready thread. *)
Lemma Inv_schedule st st' :
  Inv st -> status (threads st (current st)) <> THREAD_RUNNING ->
  schedule st = Some st' -> Inv st' /\ running (current st') st'.
Proof.
  intros HI Hnr Hs. unfold schedule in Hs.
  destruct (ready_list st) as [|t rest] eqn:Hrl; [done|]. injection Hs as <-.
  assert (status (threads st t) = THREAD_READY) as Hready.
  { apply (inv_ready _ HI). rewrite Hrl. by left. }
  pose proof (ready_unqueued _ _ HI Hready) as Hunq.
  destruct HI as [H1 H2 H3 H4 H5 H6 H7 H8 H9 H10 H11].
  match goal with |- Inv ?x /\ _ => set (st1 := x) end.
  assert (forall u, prio st1 u = prio st u) as Fp by (unfold st1; fields).
  assert (forall s', semas st1 s' = semas st s') as Fw by (unfold st1; fields).
  assert (forall u, wait_semaphore (threads st1 u) = wait_semaphore (threads st u)) as Fs
    by (unfold st1; fields).
  assert (forall u, status (threads st1 u) =
            if decide (t = u) then THREAD_RUNNING else status (threads st u)) as Ft
    by (unfold st1; fields).
  assert (forall u, priority (threads st1 u) = priority (threads st u) /\
            original_priority (threads st1 u) = original_priority (threads st u)) as Fo
    by (unfold st1; fields).
  assert (ready_list st1 = rest) as Fr by (unfold st1; fields).
  assert (current st1 = t) as Fc by (unfold st1; fields).
  rewrite Hrl in H7. apply NoDup_cons in H7 as [Hnotin Hnd].
  split; [constructor|].
  - intros s'. rewrite Fw. apply descending_ext with (key := prio st); [by intros|]. apply H1.
  - intros s'. rewrite Fw. apply H2.
  - intros s' u. rewrite Fw, Fs. apply H3.
  - intros u s'. rewrite Fs, Ft. intros Hw.
    destruct (decide (t = u)) as [<-|Hne]; [congruence|]. by eapply H4.
  - intros u. rewrite Ft, Fc. case_decide; [done|]. intros Hu.
    pose proof (H5 u Hu) as Hc. rewrite Hc in Hu. done.
  - intros u. rewrite Fr, Ft. intros Hu.
    destruct (decide (t = u)) as [<-|Hne]; [done|].
    apply H6. rewrite Hrl. by right.
  - by rewrite Fr.
  - intros u. destruct (Fo u) as [-> ->]. apply H8.
  - intros s'. rewrite Fw. apply H9.
  - exact H10.
  - exact H11.
  - split; [done|]. rewrite Fc, Ft. by rewrite decide_True.
Qed.

(** A blocked thread has been given a new priority and put back into the
    waiter list it is in (donation to a blocked holder). *)
Lemma Inv_reinsert_waiter h s p st :
  Inv st -> wait_semaphore (threads st h) = Some s -> 0 <= p ->
  Inv (upd_sema s (set_waiters
         (list_insert_ordered
            (priority_higher (list_remove_thread h (upd_thread h (set_priority p) st))) h
            (waiters (semas (list_remove_thread h (upd_thread h (set_priority p) st)) s))))
         (list_remove_thread h (upd_thread h (set_priority p) st))).
Proof.
  intros HI Hw Hp.
  destruct HI as [H1 H2 H3 H4 H5 H6 H7 H8 H9 H10 H11].
  match goal with |- Inv ?x => set (st1 := x) end.
  assert (forall u, prio st1 u = if decide (h = u) then p else prio st u) as Fp
    by (unfold st1; fields).
  assert (forall s', waiters (semas st1 s') =
            if decide (s = s')
            then list_insert_ordered (higher (prio st1)) h (remove_thread h (waiters (semas st s)))
            else remove_thread h (waiters (semas st s'))) as Fw
    by (unfold st1; fields).
  assert (forall u, wait_semaphore (threads st1 u) = wait_semaphore (threads st u)) as Fs
    by (unfold st1; fields).
  assert (forall u, status (threads st1 u) = status (threads st u)) as Ft
    by (unfold st1; fields).
  assert (forall u, priority (threads st1 u) = (if decide (h = u) then p else priority (threads st u)) /\
            original_priority (threads st1 u) = original_priority (threads st u)) as Fo
    by (unfold st1; split; fields).
  assert (forall s', value (semas st1 s') = value (semas st s')) as Fv by (unfold st1; fields).
  assert (ready_list st1 = remove_thread h (ready_list st)) as Fr by (unfold st1; fields).
  assert (current st1 = current st) as Fc by (unfold st1; fields).
  assert (forall s', descending (prio st1) (remove_thread h (waiters (semas st s')))) as Hrem.
  { intros s'. apply descending_ext with (key := prio st).
    - intros x [Hx _]%list_elem_of_filter. rewrite Fp. by rewrite decide_False.
    - apply descending_filter, H1. }
  constructor.
  - intros s'. rewrite Fw. case_decide; subst; [|apply Hrem]. apply descending_insert, Hrem.
  - intros s'. rewrite Fw. case_decide; subst; [|apply NoDup_filter, H2].
    apply NoDup_list_insert_ordered; [|apply NoDup_filter, H2].
    intros [Hx _]%list_elem_of_filter. done.
  - intros s' u. rewrite Fw, Fs. case_decide; subst.
    + rewrite elem_of_list_insert_ordered. intros [->|[_ Hu]%list_elem_of_filter]; [done|].
      by apply H3.
    + intros [_ Hu]%list_elem_of_filter. by apply H3.
  - intros u s'. rewrite Fs, Ft. apply H4.
  - intros u. rewrite Ft, Fc. apply H5.
  - intros u. rewrite Fr, Ft. intros [_ Hu]%list_elem_of_filter. by apply H6.
  - rewrite Fr. by apply NoDup_filter.
  - intros u. destruct (Fo u) as [-> ->]. case_decide; [|apply H8].
    split; [done|apply H8].
  - intros s'. rewrite Fv. apply H9.
  - exact H10.
  - exact H11.
Qed.

(** ** Every operation keeps the state well-formed *)

Lemma running_ext me st st' :
  current st' = current st ->
  status (threads st' me) = status (threads st me) ->
  running me st -> running me st'.
Proof. intros Hc Hs [H1 H2]. split; congruence. Qed.

Lemma safe_Done_intro {A} me (a : A) st : Inv st -> running me st -> safe me (Done a st).
Proof. intros. by apply preserves_Done. Qed.

Lemma safe_bind {A B} me (r : run A) (f : A -> M B) :
  safe me r ->
  (forall a st, Inv st -> running me st -> safe me (f a st)) ->
  safe me (run_bind r f).
Proof.
  intros Hr Hf. eapply preserves_bind; [exact Hr|].
  intros a st [HI Hrun]. by apply Hf.
Qed.

Lemma safe_priority_yield me st : Inv st -> running me st -> safe me (priority_yield st).
Proof.
  intros HI [Hc Hrun]. unfold priority_yield.
  destruct (outranked st); [|by apply safe_Done_intro].
  unfold thread_yield. apply preserves_Susp.
  - apply Inv_thread_yield; [done|]. by rewrite Hc.
  - intros st' [HI' Hrun']. by apply preserves_Done.
Qed.

Lemma preserves_sema_down_loop me fuel s st :
  Inv st -> running me st ->
  preserves Inv (fun st => Inv st /\ running me st)
    (fun _ st => Inv st /\ running me st /\ value (semas st s) <> 0)
    (sema_down_loop fuel s st).
Proof.
  revert st. induction fuel as [|fuel IH]; intros st HI Hrun; simpl.
  - destruct (Z.eqb_spec (value (semas st s)) 0); [constructor|by constructor].
  - destruct (Z.eqb_spec (value (semas st s)) 0); [|by constructor].
    unfold sema_down_wait, thread_block. mstep. st_simpl.
    apply preserves_Susp.
    + destruct Hrun as [<- Hrun]. by apply Inv_sema_down_wait.
    + intros st' [HI' Hrun']. mstep. by apply IH.
Qed.

Lemma safe_sema_down me fuel s st :
  Inv st -> running me st -> safe me (sema_down fuel s st).
Proof.
  intros HI Hrun. unfold sema_down. mstep.
  destruct (in_intr st); mstep; [constructor|].
  eapply preserves_bind; [by apply preserves_sema_down_loop|].
  intros [] st' (HI' & Hrun' & Hv). mstep.
  apply preserves_Done. split.
  - replace (upd_sema s (fun s0 => set_value (value s0 - 1) s0) st')
      with (upd_sema s (set_value (value (semas st' s) - 1)) st') by reflexivity.
    apply Inv_set_value; [|done].
    pose proof (inv_value _ HI' s). lia.
  - by eapply running_ext; [| |exact Hrun'].
Qed.

Lemma safe_sema_try_down me s st :
  Inv st -> running me st -> safe me (sema_try_down s st).
Proof.
  intros HI Hrun. unfold sema_try_down. mstep.
  destruct (Z.ltb_spec 0 (value (semas st s))); mstep; [|by apply safe_Done_intro].
  apply preserves_Done. split.
  - replace (upd_sema s (fun s0 => set_value (value s0 - 1) s0) st)
      with (upd_sema s (set_value (value (semas st s) - 1)) st) by reflexivity.
    apply Inv_set_value; [|done].
    pose proof (inv_value _ HI s). lia.
  - by eapply running_ext; [| |exact Hrun].
Qed.

Lemma safe_sema_init me s v st :
  0 <= v < UINT_MODULUS -> Inv st -> running me st -> safe me (sema_init s v st).
Proof.
  intros Hv HI Hrun. unfold sema_init. mstep.
  apply preserves_Done. split; [by apply Inv_sema_init|].
  by eapply running_ext; [| |exact Hrun].
Qed.

Lemma safe_sema_up me s st :
  Inv st -> running me st -> safe me (sema_up s st).
Proof.
  intros HI Hrun. unfold sema_up. mstep.
  assert (forall st1, Inv st1 -> running me st1 ->
            safe me (priority_yield
              (upd_sema s (fun s0 => set_value ((value s0 + 1) mod UINT_MODULUS) s0) st1)))
    as Hfin.
  { intros st1 HI1 Hrun1. apply safe_priority_yield.
    - replace (upd_sema s (fun s0 => set_value ((value s0 + 1) mod UINT_MODULUS) s0) st1)
        with (upd_sema s (set_value ((value (semas st1 s) + 1) mod UINT_MODULUS)) st1)
        by reflexivity.
      apply Inv_set_value; [|done]. apply Z.mod_pos_bound. reflexivity.
    - by eapply running_ext; [| |exact Hrun1]. }
  destruct (waiters (semas st s)) as [|t rest] eqn:Hws; unfold thread_unblock; mstep.
  - by apply Hfin.
  - apply Hfin.
    + exact (Inv_sema_up_wake s t rest st HI Hws).
    + assert (t ∈ waiters (semas st s)) as Hin by (rewrite Hws; by left).
      pose proof (waiter_blocked _ _ _ HI Hin) as Hb.
      destruct Hrun as [Hc Hr].
      assert (t <> me) by (intros ->; congruence).
      split; [done|]. st_simpl. by rewrite !fn_lookup_insert_ne.
Qed.

Lemma donated_fields h a st u :
  status (threads (donated h a st) u) = status (threads st u) /\
  wait_semaphore (threads (donated h a st) u) = wait_semaphore (threads st u) /\
  wait_lock (threads (donated h a st) u) = wait_lock (threads st u) /\
  locks (threads (donated h a st) u) = locks (threads st u) /\
  prio (donated h a st) u = (if decide (h = u) then prio st a else prio st u) /\
  original_priority (threads (donated h a st) u) =
    (if decide (h = u)
     then (if original_priority (threads st h) =? -1 then priority (threads st h)
           else original_priority (threads st h))
     else original_priority (threads st u)).
Proof.
  unfold donated, donated_base.
  destruct (original_priority (threads st h) =? -1) eqn:Ho;
    repeat split; fields.
Qed.

Lemma donated_frame h a st :
  semas (donated h a st) = semas st /\ ready_list (donated h a st) = ready_list st /\
  current (donated h a st) = current st /\ holder (donated h a st) = holder st /\
  cond_waiters (donated h a st) = cond_waiters st /\
  waiter_priority (donated h a st) = waiter_priority st /\
  in_intr (donated h a st) = in_intr st.
Proof.
  unfold donated, donated_base.
  destruct (original_priority (threads st h) =? -1); repeat split; fields.
Qed.

Lemma Inv_donated_base h st : Inv st -> Inv (donated_base h st).
Proof.
  intros HI. unfold donated_base.
  destruct (original_priority (threads st h) =? -1); [|done].
  apply Inv_set_original_priority; [|done].
  pose proof (inv_prio _ HI h). lia.
Qed.

Lemma safe_donate_nested me fuel a l d st :
  Inv st -> running me st -> prio st a = prio st me ->
  safe me (donate_nested fuel a l d st).
Proof.
  revert a l d st. induction fuel as [|fuel IH]; intros a l d st HI Hrun Hchain.
  { constructor. }
  cbn [donate_nested].
  destruct (d =? 8); [by apply safe_Done_intro|].
  destruct l as [l|]; [|constructor].
  mstep. destruct (holder st l) as [h|]; [|by apply safe_Done_intro].
  mstep. destruct (Z.ltb_spec (priority (threads st h)) (priority (threads st a))) as [Hlt|];
    [|by apply safe_Done_intro].
  mstep.
  change (upd_thread h _ _) with (donated h a st).
  assert (h <> me) as Hne.
  { intros ->. unfold prio in Hchain. lia. }
  assert (status (threads st h) <> THREAD_RUNNING) as Hnr.
  { intros Hr. apply (inv_running _ HI) in Hr. destruct Hrun as [Hc _]. congruence. }
  assert (running me (donated h a st)) as Hrun'.
  { destruct (donated_frame h a st) as (_ & _ & Hc & _).
    destruct (donated_fields h a st me) as (Hs & _).
    by eapply running_ext. }
  assert (0 <= priority (threads (donated_base h st) a)) as Hp.
  { apply (inv_prio _ (Inv_donated_base h st HI)). }
  assert (priority (threads (donated_base h st) a) = prio st a) as Hpa.
  { unfold donated_base. destruct (_ =? _); fields. }
  assert (forall st', prio st' h = prio st a -> prio st' me = prio st me ->
            prio st' h = prio st' me) as Hch by (intros; congruence).
  destruct (donated_fields h a st h) as (Hs & Hw & _).
  rewrite Hs.
  assert (safe me
            (bind (gets (fun st0 => wait_semaphore (threads st0 h)))
               (fun ws => bind
                  match ws with
                  | Some s => update_wait_list_when_thread_priority_changes h s
                  | None => ret ()
                  end
                  (fun _ => bind (gets (fun st0 => wait_lock (threads st0 h)))
                     (fun wl => donate_nested fuel h wl (d + 1))))
               (donated h a st))) as Hblocked.
  { mstep. rewrite Hw.
    destruct (wait_semaphore (threads st h)) as [s|] eqn:Hws.
    - unfold update_wait_list_when_thread_priority_changes. mstep.
      rewrite bind_unfold, (list_remove_elem_waiting h s (donated h a st) Hw). mstep.
      match goal with |- safe _ (donate_nested _ _ _ _ ?x) => set (st3 := x) end.
      assert (Inv st3) as HI3.
      { assert (wait_semaphore (threads (donated_base h st) h) = Some s) as Hws'.
        { unfold donated_base. destruct (_ =? _); fields. }
        exact (Inv_reinsert_waiter h s _ _ (Inv_donated_base h st HI) Hws' Hp). }
      apply IH; [done| |].
      + eapply running_ext; [| |exact Hrun']; unfold st3; fields.
      + destruct (donated_fields h a st h) as (_ & _ & _ & _ & Hph & _).
        destruct (donated_fields h a st me) as (_ & _ & _ & _ & Hpm & _).
        rewrite decide_True in Hph by done. rewrite decide_False in Hpm by done.
        apply Hch.
        * rewrite <- Hph. unfold st3; fields.
        * rewrite <- Hpm. unfold st3; fields.
    - mstep. apply IH.
      + unfold donated. apply Inv_set_priority_unqueued; [done| |by apply Inv_donated_base].
        unfold donated_base. destruct (_ =? _); fields.
      + done.
      + destruct (donated_fields h a st h) as (_ & _ & _ & _ & Hph & _).
        destruct (donated_fields h a st me) as (_ & _ & _ & _ & Hpm & _).
        rewrite decide_True in Hph by done. rewrite decide_False in Hpm by done.
        by apply Hch. }
  destruct (status (threads st h)); [done| | |]; exact Hblocked.
Qed.

Lemma Inv_restore_priority t st :
  Inv st -> wait_semaphore (threads st t) = None ->
  original_priority (threads st t) <> -1 ->
  Inv (upd_thread t (set_priority (original_priority (threads st t)))
         (upd_thread t (set_original_priority (-1)) st)).
Proof.
  intros HI Hw Ho.
  apply Inv_set_priority_unqueued.
  - pose proof (inv_prio _ HI t). lia.
  - fields.
  - by apply Inv_set_original_priority.
Qed.

Lemma safe_update_thread_priority me st :
  Inv st -> running me st -> safe me (update_thread_priority st).
Proof.
  intros HI Hrun. pose proof Hrun as [Hc Hr]. unfold update_thread_priority. mstep.
  rewrite Hc.
  pose proof (running_unqueued _ _ HI Hr) as Hunq.
  destruct (Z.eqb_spec (original_priority (threads st me)) (-1)) as [|Ho];
    [by apply safe_Done_intro|].
  assert (safe me (Done tt
            (upd_thread me (set_priority (original_priority (threads st me)))
               (upd_thread me (set_original_priority (-1)) st)))) as Hrestore.
  { apply safe_Done_intro; [by apply Inv_restore_priority|].
    eapply running_ext; [| |exact Hrun]; fields. }
  destruct (locks (threads st me)) as [|l0 ls] eqn:Hl; mstep; rewrite ?Hl; mstep.
  - st_simpl. rewrite Hc. exact Hrestore.
  - rewrite ?Hl. cbn [list_max]. mstep.
    destruct (Z.ltb_spec (original_priority (threads st me))
                (max_waiter_priority st (list_max_from (lock_priority_lower st) l0 ls)));
      mstep.
    + rewrite Hc. apply safe_Done_intro.
      * apply Inv_set_priority_unqueued; [|done|done].
        pose proof (inv_prio _ HI me). lia.
      * eapply running_ext; [| |exact Hrun]; fields.
    + st_simpl. rewrite Hc. exact Hrestore.
Qed.

Lemma safe_lock_init me l st : Inv st -> running me st -> safe me (lock_init l st).
Proof.
  intros HI Hrun. unfold lock_init. mstep.
  apply safe_sema_init; [by vm_compute|by apply Inv_with_holder_at|done].
Qed.

Lemma safe_lock_acquire me fuel l st :
  Inv st -> running me st -> safe me (lock_acquire fuel l st).
Proof.
  intros HI Hrun. unfold lock_acquire, lock_held_by_current_thread. mstep.
  destruct (in_intr st); mstep; [constructor|].
  destruct (bool_decide (holder st l = Some (current st))); mstep; [constructor|].
  apply safe_bind.
  { apply safe_donate_nested; [done|done|]. by destruct Hrun as [-> _]. }
  intros [] st1 HI1 Hrun1. mstep.
  apply safe_bind.
  { apply safe_sema_down; [by apply Inv_set_wait_lock|].
    eapply running_ext; [| |exact Hrun1]; fields. }
  intros [] st2 HI2 Hrun2. mstep.
  apply safe_Done_intro.
  - apply Inv_set_locks, Inv_with_holder_at, HI2.
  - eapply running_ext; [| |exact Hrun2]; fields.
Qed.

Lemma safe_lock_try_acquire me l st :
  Inv st -> running me st -> safe me (lock_try_acquire l st).
Proof.
  intros HI Hrun. unfold lock_try_acquire, lock_held_by_current_thread. mstep.
  destruct (bool_decide (holder st l = Some (current st))); mstep; [constructor|].
  apply safe_bind; [by apply safe_sema_try_down|].
  intros success st1 HI1 Hrun1. destruct success; mstep.
  - apply safe_Done_intro.
    + apply Inv_set_locks, Inv_with_holder_at, HI1.
    + eapply running_ext; [| |exact Hrun1]; fields.
  - by apply safe_Done_intro.
Qed.

Lemma safe_lock_release me l st :
  Inv st -> running me st -> safe me (lock_release l st).
Proof.
  intros HI Hrun. unfold lock_release, lock_held_by_current_thread. mstep.
  destruct (bool_decide (holder st l = Some (current st))); mstep; [|constructor].
  apply safe_bind.
  { apply safe_update_thread_priority.
    - apply Inv_with_holder_at, Inv_list_remove_lock, HI.
    - eapply running_ext; [| |exact Hrun]; fields. }
  intros [] st1 HI1 Hrun1. by apply safe_sema_up.
Qed.

Lemma safe_cond_init me c st : Inv st -> running me st -> safe me (cond_init c st).
Proof.
  intros HI Hrun. unfold cond_init. mstep.
  apply safe_Done_intro; [by apply Inv_cond_init|done].
Qed.

Lemma safe_cond_wait me fuel c l st :
  Inv st -> running me st -> safe me (cond_wait fuel c l st).
Proof.
  intros HI Hrun. unfold cond_wait, lock_held_by_current_thread. mstep. st_simpl.
  destruct (in_intr st); mstep; st_simpl; [constructor|].
  destruct (bool_decide (holder st l = Some (current st))); mstep; [|constructor].
  unfold sema_init. mstep.
  apply safe_bind.
  { apply safe_lock_release.
    - exact (Inv_cond_enqueue c _ st HI).
    - eapply running_ext; [| |exact Hrun]; fields. }
  intros [] st1 HI1 Hrun1.
  apply safe_bind; [by apply safe_sema_down|].
  intros [] st2 HI2 Hrun2. by apply safe_lock_acquire.
Qed.

Lemma safe_cond_signal me c l st :
  Inv st -> running me st -> safe me (cond_signal c l st).
Proof.
  intros HI Hrun. unfold cond_signal, lock_held_by_current_thread. mstep.
  destruct (in_intr st); mstep; [constructor|].
  destruct (bool_decide (holder st l = Some (current st))); mstep; [|constructor].
  destruct (cond_waiters st c) as [|w rest] eqn:Hc; mstep; [by apply safe_Done_intro|].
  apply safe_sema_up; [by eapply Inv_cond_pop|done].
Qed.

Lemma safe_cond_broadcast me fuel c l st :
  Inv st -> running me st -> safe me (cond_broadcast fuel c l st).
Proof.
  revert st. induction fuel as [|fuel IH]; intros st HI Hrun; cbn [cond_broadcast]; mstep.
  - destruct (cond_waiters st c); [by apply safe_Done_intro|constructor].
  - destruct (cond_waiters st c) eqn:Hc; [by apply safe_Done_intro|].
    apply safe_bind; [by apply safe_cond_signal|].
    intros [] st1 HI1 Hrun1. by apply IH.
Qed.

(** Every public operation of synch.h, called by the running thread in a
    well-formed state, leaves a well-formed state wherever it suspends
    or returns. *)
Lemma safe_exec_call me op st :
  call_ok op -> Inv st -> running me st -> safe me (exec_call op st).
Proof.
  intros Hok HI Hrun. destruct op; cbn [exec_call].
  - by apply safe_sema_init.
  - by apply safe_sema_down.
  - mstep. apply safe_bind; [by apply safe_sema_try_down|].
    intros. by apply safe_Done_intro.
  - by apply safe_sema_up.
  - by apply safe_lock_init.
  - by apply safe_lock_acquire.
  - mstep. apply safe_bind; [by apply safe_lock_try_acquire|].
    intros. by apply safe_Done_intro.
  - by apply safe_lock_release.
  - by apply safe_cond_init.
  - by apply safe_cond_wait.
  - by apply safe_cond_signal.
  - by apply safe_cond_broadcast.
Qed.

(** ** Reachable configurations are well-formed *)

Lemma settle_cfg_inv me pend r c' :
  safe me r ->
  (forall t k, pend t = Some k -> forall st', Inv st' -> running t st' -> safe t (k st')) ->
  settle me pend r = Some c' ->
  cfg_inv c'.
Proof.
  intros Hr Hpend Hs. destruct Hr as [a st [HI Hrun]|st k HI Hk| | |]; simpl in Hs; try done.
  - injection Hs as <-. split; [done|]. simpl. intros t k.
    unfold insert, fn_insert. case_decide; [done|]. apply Hpend.
  - injection Hs as <-. split; [done|]. simpl. intros t k'.
    unfold insert, fn_insert. case_decide; subst.
    + intros [= <-] st' HI' Hrun'. by apply Hk.
    + apply Hpend.
Qed.

Lemma sys_step_cfg_inv c c' : cfg_inv c -> sys_step c c' -> cfg_inv c'.
Proof.
  intros [HI Hpend] Hstep.
  destruct Hstep as [c op c' Hrun Hnone Hok Hs|c k c' Hrun Hk Hs|c st' Hnr Hs|c g].
  - eapply settle_cfg_inv; [|exact Hpend|exact Hs].
    by apply safe_exec_call.
  - eapply settle_cfg_inv; [|exact Hpend|exact Hs].
    by eapply Hpend.
  - split; [|exact Hpend]. simpl. by eapply Inv_schedule.
  - split; [|exact Hpend]. simpl. by apply Inv_with_tail_priority.
Qed.

Lemma reachable_cfg_inv c : reachable c -> cfg_inv c.
Proof.
  induction 1 as [st HI|c c' _ IH Hstep].
  - split; [done|]. simpl. done.
  - by eapply sys_step_cfg_inv.
Qed.

Lemma reachable_Inv c : reachable c -> Inv (cfg_state c).
Proof. intros H. by apply reachable_cfg_inv. Qed.

Lemma Inv_boot_state : Inv boot_state.
Proof.
  constructor; simpl.
  - intros s. constructor.
  - intros s. constructor.
  - intros s t Ht. by apply elem_of_nil in Ht.
  - intros [|[|[|t]]] s; simpl; done.
  - intros [|[|[|t]]]; simpl; done.
  - intros t Ht. repeat (apply elem_of_cons in Ht as [->|Ht]; [done|]).
    by apply elem_of_nil in Ht.
  - repeat (apply NoDup_cons_2); [| |constructor].
    + intros Ht. repeat (apply elem_of_cons in Ht as [?|Ht]; [done|]).
      by apply elem_of_nil in Ht.
    + intros Ht. by apply elem_of_nil in Ht.
  - intros [|[|[|t]]]; simpl; lia.
  - intros s. by vm_compute.
  - intros c. constructor.
  - intros c w Hw. by apply elem_of_nil in Hw.
Qed.

Lemma reachable_boot_config : reachable boot_config.
Proof. apply reach_boot, Inv_boot_state. Qed.

Lemma reachable_after_call op c :
  reachable c ->
  status (threads (cfg_state c) (current (cfg_state c))) = THREAD_RUNNING ->
  cfg_pending c (current (cfg_state c)) = None ->
  call_ok op ->
  is_Some (settle (current (cfg_state c)) (cfg_pending c) (exec_call op (cfg_state c))) ->
  reachable (after_call op c).
Proof.
  intros Hc Hrun Hnone Hok [c' Hs]. eapply reach_step; [exact Hc|].
  eapply step_call; [done..|]. unfold after_call. by rewrite Hs.
Qed.

Lemma reachable_after_schedule c :
  reachable c ->
  status (threads (cfg_state c) (current (cfg_state c))) <> THREAD_RUNNING ->
  is_Some (schedule (cfg_state c)) ->
  reachable (after_schedule c).
Proof.
  intros Hc Hnr [st' Hs]. eapply reach_step; [exact Hc|].
  unfold after_schedule, dispatched. rewrite Hs. by apply step_schedule.
Qed.

Lemma reachable_two_waiters_config : reachable two_waiters_config.
Proof.
  unfold two_waiters_config.
  apply reachable_after_schedule; [|by vm_compute|by vm_compute; eexists].
  apply reachable_after_call; [|by vm_compute|by vm_compute|done|by vm_compute; eexists].
  apply reachable_after_schedule; [|by vm_compute|by vm_compute; eexists].
  apply reachable_after_call; [|by vm_compute|by vm_compute|done|by vm_compute; eexists].
  apply reachable_after_call; [|by vm_compute|by vm_compute|by vm_compute|by vm_compute; eexists].
  apply reachable_boot_config.
Qed.

Lemma reachable_one_up_config : reachable one_up_config.
Proof.
  apply reachable_after_call; [|by vm_compute|by vm_compute|done|by vm_compute; eexists].
  apply reachable_two_waiters_config.
Qed.

(** ** Permits and waiters *)

(** C5, refuted as stated: thread 0 and thread 1 block in [sema_down] on
    a semaphore initialised to 0 and thread 2 calls [sema_up]; the
    configuration is reachable, [value] is 1 and thread 0 is still in the
    waiter list. *)
Lemma C5_up_leaves_waiter_beside_permit :
  reachable one_up_config /\
  value (semas (cfg_state one_up_config) (SemaAt 0)) = 1 /\
  waiters (semas (cfg_state one_up_config) (SemaAt 0)) = [0%nat] /\
  ~ no_waiter_while_permit (SemaAt 0) (cfg_state one_up_config).
Proof.
  split; [apply reachable_one_up_config|].
  split; [reflexivity|]. split; [reflexivity|].
  intros H. assert (0 < value (semas (cfg_state one_up_config) (SemaAt 0))) as Hv by reflexivity.
  apply H in Hv. discriminate Hv.
Qed.

Lemma preserves_permit_sema_down_loop s fuel st :
  no_waiter_while_permit s st ->
  preserves (no_waiter_while_permit s) (no_waiter_while_permit s)
    (fun _ st' => no_waiter_while_permit s st' /\ value (semas st' s) <> 0)
    (sema_down_loop fuel s st).
Proof.
  revert st. induction fuel as [|fuel IH]; intros st HP; simpl.
  - destruct (Z.eqb_spec (value (semas st s)) 0); [constructor|by constructor].
  - destruct (Z.eqb_spec (value (semas st s)) 0) as [Hz|]; [|by constructor].
    unfold sema_down_wait, thread_block. mstep. st_simpl.
    apply preserves_Susp.
    + unfold no_waiter_while_permit. st_simpl. rewrite fn_lookup_insert. st_simpl. lia.
    + intros st' HP'. mstep. by apply IH.
Qed.

Lemma state_of_priority_yield st st' :
  state_of (priority_yield st) = Some st' ->
  semas st' = semas st /\ current st' = current st /\ holder st' = holder st /\
  cond_waiters st' = cond_waiters st /\
  (forall u, priority (threads st' u) = priority (threads st u) /\
             original_priority (threads st' u) = original_priority (threads st u) /\
             wait_lock (threads st' u) = wait_lock (threads st u) /\
             locks (threads st' u) = locks (threads st u) /\
             wait_semaphore (threads st' u) = wait_semaphore (threads st u)).
Proof.
  unfold priority_yield, thread_yield.
  destruct (outranked st); simpl; intros [= <-]; repeat split; fields.
Qed.

Lemma sema_up_semas s st st' :
  state_of (sema_up s st) = Some st' ->
  semas st' s = mkSema ((value (semas st s) + 1) mod UINT_MODULUS) (tail (waiters (semas st s))) /\
  (forall s', s <> s' -> semas st' s' = semas st s').
Proof.
  unfold sema_up. mstep.
  destruct (waiters (semas st s)) as [|t rest] eqn:Hws; unfold thread_unblock; mstep;
    intros (-> & _)%state_of_priority_yield; split; fields.
  unfold set_value. by rewrite Hws.
Qed.

(** C5 (amended): "a permit is available only if no entity waits" holds
    after [sema_init], is kept by [sema_down] (at every point where it
    suspends or returns) and by [sema_try_down], and is kept by [sema_up]
    when at most one entity waits; [sema_up] takes only the head off the
    waiter list, so with several waiters the others stay queued beside
    the new permit. *)
Theorem C5_permit_and_waiters (s : sema_ref) (st : state) :
  (forall v, exists st', sema_init s v st = Done tt st' /\ waiters (semas st' s) = [] /\
     no_waiter_while_permit s st') /\
  (no_waiter_while_permit s st -> forall fuel,
     preserves (no_waiter_while_permit s) (no_waiter_while_permit s)
       (fun _ => no_waiter_while_permit s) (sema_down fuel s st)) /\
  (no_waiter_while_permit s st -> forall b st',
     sema_try_down s st = Done b st' -> no_waiter_while_permit s st') /\
  (forall st', state_of (sema_up s st) = Some st' ->
     waiters (semas st' s) = tail (waiters (semas st s))) /\
  ((length (waiters (semas st s)) <= 1)%nat ->
     forall st', state_of (sema_up s st) = Some st' -> no_waiter_while_permit s st').
Proof.
  split; [|split; [|split; [|split]]].
  - intros v. eexists. split; [reflexivity|]. unfold no_waiter_while_permit. st_simpl.
    rewrite fn_lookup_insert. done.
  - intros HP fuel. unfold sema_down. mstep.
    destruct (in_intr st); mstep; [constructor|].
    eapply preserves_bind; [by apply preserves_permit_sema_down_loop|].
    intros [] st1 [HP1 Hv]. mstep. constructor.
    unfold no_waiter_while_permit in *. st_simpl. rewrite fn_lookup_insert. st_simpl.
    intros Hpos. apply HP1. lia.
  - intros HP b st'. unfold sema_try_down. mstep.
    destruct (Z.ltb_spec 0 (value (semas st s))) as [Hpos|]; mstep; intros [= <- <-].
    + unfold no_waiter_while_permit in *. st_simpl. rewrite fn_lookup_insert. st_simpl.
      intros _. by apply HP.
    + done.
  - intros st' (-> & _)%sema_up_semas. done.
  - intros Hlen st' [Hs _]%sema_up_semas.
    unfold no_waiter_while_permit. rewrite Hs. simpl. intros _.
    destruct (waiters (semas st s)) as [|t [|t' rest]]; simpl in *; [done|done|lia].
Qed.

Lemma C5_permit_and_waiters_witness :
  no_waiter_while_permit (SemaAt 0) boot_state /\
  (length (waiters (semas boot_state (SemaAt 0))) <= 1)%nat /\
  no_waiter_while_permit (SemaAt 0) (left_by (sema_up (SemaAt 0) boot_state)) /\
  preserves (no_waiter_while_permit (SemaAt 0)) (no_waiter_while_permit (SemaAt 0))
    (fun _ => no_waiter_while_permit (SemaAt 0)) (sema_down 2 (SemaAt 0) boot_state).
Proof.
  assert (no_waiter_while_permit (SemaAt 0) boot_state) as HP by (intros _; reflexivity).
  assert (length (waiters (semas boot_state (SemaAt 0))) <= 1)%nat as Hlen by (simpl; lia).
  destruct (C5_permit_and_waiters (SemaAt 0) boot_state) as (_ & Hdown & _ & _ & Hup).
  split; [exact HP|]. split; [exact Hlen|]. split.
  - apply (Hup Hlen). reflexivity.
  - apply (Hdown HP).
Defined.

(** ** Waiter lists stay in priority order *)

(** A caller that finds no permit is queued behind every waiter of at
    least its priority and in front of every waiter of lower priority. *)
Lemma sema_down_enqueues st s fuel :
  Inv st -> in_intr st = false -> value (semas st s) = 0 ->
  exists st' k,
    sema_down (S fuel) s st = Susp st' k /\
    inserted_fifo (prio st) (current st) (waiters (semas st s)) (waiters (semas st' s)) /\
    (forall u, prio st' u = prio st u) /\
    wait_semaphore (threads st' (current st)) = Some s /\
    status (threads st' (current st)) = THREAD_BLOCKED.
Proof.
  intros HI Hintr Hv. unfold sema_down. mstep. rewrite Hintr. mstep.
  rewrite bind_unfold. cbn [sema_down_loop]. rewrite Hv. simpl Z.eqb. cbv iota.
  unfold sema_down_wait, thread_block. mstep. st_simpl.
  do 2 eexists. split; [reflexivity|]. st_simpl.
  rewrite !fn_lookup_insert. st_simpl.
  split; [|split; [|done]].
  - rewrite priority_higher_higher. apply list_insert_ordered_fifo, (inv_sorted _ HI).
  - fields.
Qed.

(** A donation to a holder that is queued on a semaphore takes the holder
    out of the waiter list and puts it back at the place of its new
    priority, before the donation goes on along [wait_lock]. *)
Lemma donate_nested_requeues st fuel a l d h s :
  Inv st -> d <> 8 -> holder st l = Some h ->
  prio st h < prio st a -> wait_semaphore (threads st h) = Some s ->
  exists st',
    donate_nested (S fuel) a (Some l) d st =
      donate_nested fuel h (wait_lock (threads st h)) (d + 1) st' /\
    Inv st' /\
    prio st' h = prio st a /\
    (forall u, u <> h -> prio st' u = prio st u) /\
    inserted_fifo (prio st') h (remove_thread h (waiters (semas st s))) (waiters (semas st' s)).
Proof.
  intros HI Hd Hh Hlt Hws.
  assert (status (threads st h) = THREAD_BLOCKED) as Hb by (by eapply inv_blocked).
  cbn [donate_nested]. rewrite (proj2 (Z.eqb_neq d 8)) by done.
  mstep. rewrite Hh. mstep. unfold prio in Hlt. rewrite (proj2 (Z.ltb_lt _ _)) by done.
  mstep. change (upd_thread h _ _) with (donated h a st).
  destruct (donated_fields h a st h) as (Hs & Hw & Hwl & _ & Hp & _).
  rewrite Hs, Hb. mstep. rewrite Hw, Hws.
  unfold update_wait_list_when_thread_priority_changes. mstep.
  rewrite bind_unfold, (list_remove_elem_waiting h s (donated h a st)) by (by rewrite Hw).
  mstep.
  match goal with |- context [donate_nested _ _ _ _ ?x] => set (st' := x) in * end.
  assert (wait_lock (threads st' h) = wait_lock (threads st h)) as ->.
  { rewrite <- Hwl. unfold st'. fields. }
  exists st'. split; [reflexivity|].
  assert (wait_semaphore (threads (donated_base h st) h) = Some s) as Hws'.
  { unfold donated_base. destruct (_ =? _); fields. }
  assert (0 <= priority (threads (donated_base h st) a)) as Hpa.
  { apply (inv_prio _ (Inv_donated_base h st HI)). }
  pose proof (Inv_reinsert_waiter h s _ _ (Inv_donated_base h st HI) Hws' Hpa) as HI'.
  assert (forall u, prio st' u = prio (donated h a st) u) as Fp by (unfold st'; fields).
  assert (waiters (semas st' s) =
          list_insert_ordered (higher (prio st')) h (remove_thread h (waiters (semas st s)))) as Fw.
  { unfold st'. st_simpl. rewrite fn_lookup_insert. st_simpl.
    destruct (donated_frame h a st) as (-> & _). reflexivity. }
  split; [exact HI'|]. split; [|split].
  - rewrite Fp, Hp. by rewrite decide_True.
  - intros u Hu. rewrite Fp.
    destruct (donated_fields h a st u) as (_ & _ & _ & _ & -> & _). by rewrite decide_False.
  - rewrite Fw. apply list_insert_ordered_fifo.
    apply descending_ext with (key := prio st).
    + intros x [Hx _]%list_elem_of_filter. rewrite Fp.
      destruct (donated_fields h a st x) as (_ & _ & _ & _ & -> & _). by rewrite decide_False.
    + apply descending_filter, (inv_sorted _ HI).
Qed.

(** X22: in every configuration that is reached through whole
    operations and the dispatcher, that is when an operation has
    returned or given up the processor, every waiter list is in
    descending order of the waiters' current priorities; a caller that
    blocks in [sema_down] goes behind the waiters of its own priority
    (first in, first out among equals); and when a donation changes the
    priority of a queued thread, [donate_nested] takes it out of its
    waiter list and reinserts it at the place of its new priority, so the
    list is in order again. *)
Theorem X22_waiter_lists_sorted_between_operations (c : config) :
  reachable c ->
  (forall s, descending (prio (cfg_state c)) (waiters (semas (cfg_state c) s))) /\
  (forall s fuel,
     in_intr (cfg_state c) = false -> value (semas (cfg_state c) s) = 0 ->
     exists st' k,
       sema_down (S fuel) s (cfg_state c) = Susp st' k /\
       descending (prio st') (waiters (semas st' s)) /\
       inserted_fifo (prio (cfg_state c)) (current (cfg_state c))
         (waiters (semas (cfg_state c) s)) (waiters (semas st' s))) /\
  (forall fuel a l d h s,
     d <> 8 -> holder (cfg_state c) l = Some h ->
     prio (cfg_state c) h < prio (cfg_state c) a ->
     h ∈ waiters (semas (cfg_state c) s) ->
     exists st',
       donate_nested (S fuel) a (Some l) d (cfg_state c) =
         donate_nested fuel h (wait_lock (threads (cfg_state c) h)) (d + 1) st' /\
       prio st' h = prio (cfg_state c) a /\
       (forall s', descending (prio st') (waiters (semas st' s'))) /\
       inserted_fifo (prio st') h
         (remove_thread h (waiters (semas (cfg_state c) s))) (waiters (semas st' s))).
Proof.
  intros Hreach. pose proof (reachable_Inv c Hreach) as HI.
  split; [apply (inv_sorted _ HI)|]. split.
  - intros s fuel Hintr Hv.
    destruct (sema_down_enqueues _ s fuel HI Hintr Hv) as (st' & k & Hrun & Hfifo & Hp & _).
    exists st', k. split; [done|]. split; [|done].
    destruct Hfifo as (front & back & Hold & Hnew & Hf & Hb).
    rewrite Hnew. pose proof (inv_sorted _ HI s) as Hsorted. rewrite Hold in Hsorted.
    apply descending_ext with (key := prio (cfg_state c)); [by intros|].
    clear -Hsorted Hf Hb. induction front as [|e front IH]; simpl in *.
    + apply descending_cons. split; [done|].
      eapply Forall_impl; [exact Hb|]. simpl. intros; lia.
    + apply descending_cons in Hsorted as [Hs1 Hs2].
      apply Forall_cons in Hf as [Hf1 Hf2].
      apply descending_cons. split; [by apply IH|].
      apply Forall_app. apply Forall_app in Hs2 as [Hs2 Hs3].
      split; [done|]. by apply Forall_cons.
  - intros fuel a l d h s Hd Hh Hlt Hin.
    pose proof (inv_waits _ HI _ _ Hin) as Hws.
    destruct (donate_nested_requeues _ fuel a l d h s HI Hd Hh Hlt Hws)
      as (st' & Hrun & HI' & Hp & _ & Hfifo).
    exists st'. split; [done|]. split; [done|]. split; [apply (inv_sorted _ HI')|done].
Qed.

Lemma reachable_donation_config : reachable donation_config.
Proof.
  unfold donation_config.
  apply reachable_after_schedule; [|by vm_compute|by vm_compute; eexists].
  apply reachable_after_call; [|by vm_compute|by vm_compute|done|by vm_compute; eexists].
  apply reachable_after_call; [|by vm_compute|by vm_compute|done|by vm_compute; eexists].
  apply reachable_after_call; [|by vm_compute|by vm_compute|by vm_compute|by vm_compute; eexists].
  apply reachable_after_call; [|by vm_compute|by vm_compute|done|by vm_compute; eexists].
  apply reachable_boot_config.
Qed.

Lemma X22_waiter_lists_sorted_between_operations_witness :
  reachable donation_config /\
  descending (prio donation_state) (waiters (semas donation_state (SemaAt 0))) /\
  (exists st' k,
     sema_down 1 (SemaAt 0) donation_state = Susp st' k /\
     descending (prio st') (waiters (semas st' (SemaAt 0))) /\
     waiters (semas st' (SemaAt 0)) = [1%nat; 0%nat]) /\
  (exists st',
     donate_nested 9 1%nat (Some 0%nat) 0 donation_state =
       donate_nested 8 0%nat (wait_lock (threads donation_state 0%nat)) 1 st' /\
     prio st' 0%nat = 40 /\
     descending (prio st') (waiters (semas st' (SemaAt 0)))).
Proof.
  pose proof (X22_waiter_lists_sorted_between_operations donation_config
                reachable_donation_config)
    as (Hsorted & Hdown & Hdonate).
  split; [exact reachable_donation_config|]. split; [apply Hsorted|]. split.
  - assert (in_intr (cfg_state donation_config) = false) as Hi by (vm_compute; reflexivity).
    assert (value (semas (cfg_state donation_config) (SemaAt 0)) = 0) as Hv
      by (vm_compute; reflexivity).
    destruct (Hdown (SemaAt 0) 0%nat Hi Hv) as (st' & k & Hrun & Hd & Hfifo).
    exists st', k. split; [exact Hrun|]. split; [exact Hd|].
    assert (st' = left_by (sema_down 1 (SemaAt 0) (cfg_state donation_config))) as ->
      by (rewrite Hrun; reflexivity).
    vm_compute. reflexivity.
  - assert (0 <> 8) as Hd by discriminate.
    assert (prio (cfg_state donation_config) 0%nat < prio (cfg_state donation_config) 1%nat)
      as Hlt by (vm_compute; reflexivity).
    assert (0%nat ∈ waiters (semas (cfg_state donation_config) (SemaAt 0))) as Hin.
    { replace (waiters (semas (cfg_state donation_config) (SemaAt 0))) with [0%nat]
        by (vm_compute; reflexivity). by left. }
    assert (holder (cfg_state donation_config) 0%nat = Some 0%nat) as Hh
      by (vm_compute; reflexivity).
    destruct (Hdonate 8%nat 1%nat 0%nat 0 0%nat (SemaAt 0) Hd Hh Hlt Hin)
      as (st' & Hrun & Hp & Hs & _).
    exists st'. split; [exact Hrun|]. split; [exact Hp|]. apply Hs.
Defined.

(** ** Nested donation *)

Lemma update_wait_list_run h s st :
  linked h st = true ->
  update_wait_list_when_thread_priority_changes h s st = Done tt (requeued h s st).
Proof.
  intros Hl. unfold update_wait_list_when_thread_priority_changes. mstep.
  by rewrite bind_unfold, list_remove_elem_linked.
Qed.

Lemma update_ready_list_run h st :
  update_ready_list_when_thread_priority_changes h st =
    if linked h st then priority_yield (reinserted_ready h st)
    else Undefined "list_remove (&t->elem): the element is in no list".
Proof.
  unfold update_ready_list_when_thread_priority_changes, list_remove_elem. mstep.
  by destruct (linked h st).
Qed.

(** The equation of [donate_nested], one call unfolded. *)
Lemma donate_nested_unfold fuel a l d st :
  donate_nested (S fuel) a l d st =
    if d =? 8 then Done tt st
    else match l with
         | None => Panic "donate_nested: l->holder with l == NULL"
         | Some l0 =>
           match holder st l0 with
           | None => Done tt st
           | Some h =>
             if prio st h <? prio st a then
               match status (threads st h) with
               | THREAD_RUNNING =>
                   update_ready_list_when_thread_priority_changes h (donated h a st)
               | _ =>
                   donate_nested fuel h (wait_lock (threads st h)) (d + 1)
                     (requeued_if_waiting h (donated h a st))
               end
             else Done tt st
           end
         end.
Proof.
  cbn [donate_nested]. destruct (d =? 8); [done|].
  destruct l as [l0|]; [|done]. mstep.
  destruct (holder st l0) as [h|]; [|done]. mstep.
  unfold prio. destruct (priority (threads st h) <? priority (threads st a)); [|done].
  mstep. change (upd_thread h _ _) with (donated h a st).
  destruct (donated_fields h a st h) as (Hs & Hw & Hwl & _).
  rewrite Hs.
  assert (bind (gets (fun st0 => wait_semaphore (threads st0 h)))
            (fun ws => bind
               match ws with
               | Some s => update_wait_list_when_thread_priority_changes h s
               | None => ret ()
               end
               (fun _ => bind (gets (fun st0 => wait_lock (threads st0 h)))
                  (fun wl => donate_nested fuel h wl (d + 1))))
            (donated h a st) =
          donate_nested fuel h (wait_lock (threads st h)) (d + 1)
            (requeued_if_waiting h (donated h a st))) as Hgo.
  { mstep. unfold requeued_if_waiting.
    destruct (wait_semaphore (threads (donated h a st) h)) as [s|] eqn:Hws; mstep.
    - rewrite (update_wait_list_run h s) by (by eapply linked_waiting).
      mstep. f_equal. rewrite <- Hwl. unfold requeued. fields.
    - by rewrite Hwl. }
  destruct (status (threads st h)); [done| | |]; exact Hgo.
Qed.

Lemma halts_priority_yield st : halts (priority_yield st).
Proof.
  unfold priority_yield, thread_yield. destruct (outranked st); constructor.
  intros st'. constructor.
Qed.

Lemma requeued_if_waiting_fields h st u :
  threads (requeued_if_waiting h st) u = threads st u.
Proof.
  unfold requeued_if_waiting, requeued. destruct (wait_semaphore (threads st h)); fields.
Qed.

Lemma donated_priority_other h a st u :
  u <> h -> priority (threads (donated h a st) u) = priority (threads st u).
Proof.
  intros Hne. destruct (donated_fields h a st u) as (_ & _ & _ & _ & Hp & _).
  unfold prio in Hp. rewrite Hp. by rewrite decide_False.
Qed.

(** C3: for a depth between 0 and the bound 8, [donate_nested] comes to
    an end within [9 - depth] nested calls, whatever the state, cyclic
    chains of [wait_lock] included; at depth 8 it returns at once and
    leaves the state as it is; and the priorities of at most [8 - depth]
    threads are changed (at most 8 donation steps from depth 0). *)
Theorem C3_donate_nested_terminates (st : state) (a : tid) (l : option lock_id)
    (d : Z) (fuel : nat) :
  0 <= d <= 8 -> (Z.to_nat (8 - d) < fuel)%nat ->
  halts (donate_nested fuel a l d st) /\
  (d = 8 -> donate_nested fuel a l d st = Done tt st) /\
  (forall st', state_of (donate_nested fuel a l d st) = Some st' ->
     exists hs : list tid,
       (length hs <= Z.to_nat (8 - d))%nat /\
       forall u, u ∉ hs -> priority (threads st' u) = priority (threads st u)).
Proof.
  revert st a l d. induction fuel as [|fuel IH]; intros st a l d Hd Hfuel; [lia|].
  rewrite donate_nested_unfold.
  assert (halts (Done tt st) /\ (d = 8 -> Done tt st = Done tt st) /\
          (forall st', state_of (Done tt st) = Some st' ->
             exists hs : list tid, (length hs <= Z.to_nat (8 - d))%nat /\
               forall u, u ∉ hs -> priority (threads st' u) = priority (threads st u)))
    as Hstop.
  { split; [constructor|]. split; [done|]. intros st' [= <-]. exists []. split; [simpl; lia|done]. }
  destruct (Z.eqb_spec d 8) as [->|Hne]; [exact Hstop|].
  destruct l as [l0|]; [|split; [constructor|split; [done|done]]].
  destruct (holder st l0) as [h|]; [|exact Hstop].
  destruct (prio st h <? prio st a); [|exact Hstop].
  assert (1 <= Z.to_nat (8 - d))%nat as Hroom by lia.
  set (go := donate_nested fuel h (wait_lock (threads st h)) (d + 1)
               (requeued_if_waiting h (donated h a st))).
  assert (halts go /\ (d = 8 -> go = Done tt st) /\
          (forall st', state_of go = Some st' ->
             exists hs : list tid, (length hs <= Z.to_nat (8 - d))%nat /\
               forall u, u ∉ hs -> priority (threads st' u) = priority (threads st u)))
    as Hgo.
  { destruct (IH (requeued_if_waiting h (donated h a st)) h (wait_lock (threads st h)) (d + 1))
      as (Hh & _ & Hfoot); [lia|lia|].
    split; [exact Hh|]. split; [done|].
    intros st' Hst'. destruct (Hfoot st' Hst') as (hs & Hlen & Hsame).
    exists (h :: hs). split; [simpl; lia|].
    intros u [Hu1 Hu2]%not_elem_of_cons. rewrite (Hsame u Hu2).
    rewrite requeued_if_waiting_fields. by apply donated_priority_other. }
  destruct (status (threads st h)) eqn:Hs; [|exact Hgo..].
  rewrite update_ready_list_run.
  destruct (linked h (donated h a st)); [|split; [constructor|split; [done|done]]].
  split; [apply halts_priority_yield|]. split; [done|].
  intros st' (_ & _ & _ & _ & Hf)%state_of_priority_yield.
  exists [h]. split; [done|]. intros u Hu%not_elem_of_cons.
  destruct (Hf u) as (-> & _). unfold reinserted_ready.
  rewrite <- (donated_priority_other h a st u) by tauto. fields.
Qed.

Lemma C3_donate_nested_terminates_witness :
  (0 <= 0 <= 8 /\ (Z.to_nat (8 - 0) < 9)%nat /\
   halts (donate_nested 9 0%nat (Some 0%nat) 0 cyclic_state)) /\
  (0 <= 8 <= 8 /\ (Z.to_nat (8 - 8) < 9)%nat /\
   donate_nested 9 0%nat (Some 0%nat) 8 cyclic_state = Done tt cyclic_state).
Proof.
  assert (0 <= 0 <= 8) as H0 by lia.
  assert (0 <= 8 <= 8) as H8 by lia.
  assert (Z.to_nat (8 - 0) < 9)%nat as Hf0 by (vm_compute; lia).
  assert (Z.to_nat (8 - 8) < 9)%nat as Hf8 by (vm_compute; lia).
  split.
  - split; [exact H0|]. split; [exact Hf0|].
    apply (C3_donate_nested_terminates cyclic_state 0%nat (Some 0%nat) 0 9 H0 Hf0).
  - split; [exact H8|]. split; [exact Hf8|].
    apply (C3_donate_nested_terminates cyclic_state 0%nat (Some 0%nat) 8 9 H8 Hf8).
    reflexivity.
Defined.

(** On the cycle of [cyclic_state] the donation of thread 0 goes round
    once: threads 1 and 2 are raised to its priority, and the third call
    finds a holder that is no longer lower. *)
Lemma donate_nested_on_cycle :
  exists st',
    donate_nested 9 0%nat (Some 0%nat) 0 cyclic_state = Done tt st' /\
    priority (threads st' 1%nat) = 31 /\ priority (threads st' 2%nat) = 31.
Proof. eexists. split; [vm_compute; reflexivity|]. split; vm_compute; reflexivity. Qed.

(** On a chain of waiting longer than the bound, the holders at depths 0
    to 7 are raised to the donor's priority and the call at depth 8
    returns: the ninth holder keeps its priority. *)
Lemma donate_nested_stops_at_depth_8 :
  exists st',
    donate_nested 9 0%nat (Some 0%nat) 0 long_chain_state = Done tt st' /\
    map (fun t => priority (threads st' t)) (seq 1 10) = [60; 60; 60; 60; 60; 60; 60; 60; 5; 5].
Proof. eexists. split; [vm_compute; reflexivity|]. vm_compute. reflexivity. Qed.



Lemma reachable_after_resume c :
  reachable c ->
  status (threads (cfg_state c) (current (cfg_state c))) = THREAD_RUNNING ->
  is_Some (match cfg_pending c (current (cfg_state c)) with
           | Some k => settle (current (cfg_state c)) (cfg_pending c) (k (cfg_state c))
           | None => None
           end) ->
  reachable (after_resume c).
Proof.
  intros Hc Hrun [c' Hs]. eapply reach_step; [exact Hc|].
  unfold after_resume.
  destruct (cfg_pending c (current (cfg_state c))) as [k|] eqn:Hk; [|done].
  eapply step_resume; [done|exact Hk|]. by rewrite Hs.
Qed.

Lemma reachable_ready_holder_config : reachable ready_holder_config.
Proof.
  unfold ready_holder_config.
  apply reachable_after_call; [|by vm_compute|by vm_compute|done|by vm_compute; eexists].
  apply reachable_after_resume; [|by vm_compute|by vm_compute; eexists].
  apply reachable_after_schedule; [|by vm_compute|by vm_compute; eexists].
  apply reachable_after_call; [|by vm_compute|by vm_compute|done|by vm_compute; eexists].
  apply reachable_after_call; [|by vm_compute|by vm_compute|done|by vm_compute; eexists].
  apply reachable_after_call; [|by vm_compute|by vm_compute|done|by vm_compute; eexists].
  apply reachable_two_waiters_config.
Qed.

(** A holder that is ready is not reinserted into the ready list: in the
    reachable [ready_holder_state] thread 1 (priority 40) acquires lock 0,
    held by the ready thread 2 (priority 20) that stands behind thread 0
    (priority 31) in the ready list.  Thread 2 gets priority 40 and keeps
    its place behind thread 0, no preemption check is made on the way,
    and when thread 1 blocks the dispatcher picks thread 0. *)
Lemma donate_nested_leaves_ready_holder_in_place :
  reachable ready_holder_config /\
  current ready_holder_state = 1%nat /\
  holder ready_holder_state 0%nat = Some 2%nat /\
  status (threads ready_holder_state 2%nat) = THREAD_READY /\
  ready_list ready_holder_state = [0%nat; 2%nat] /\
  exists st',
    donate_nested 9 1%nat (Some 0%nat) 0 ready_holder_state = Done tt st' /\
    prio st' 2%nat = 40 /\ prio st' 0%nat = 31 /\
    ready_list st' = [0%nat; 2%nat] /\
    current (dispatched (left_by (lock_acquire 1 0%nat ready_holder_state))) = 0%nat.
Proof.
  split; [apply reachable_ready_holder_config|].
  repeat (split; [vm_compute; reflexivity|]).
  eexists. split; [vm_compute; reflexivity|].
  repeat (split; [vm_compute; reflexivity|]). vm_compute. reflexivity.
Qed.

(** ** Releasing a lock *)

Lemma list_max_from_spec {A} (f : A -> Z) (m : A) (l : list A) :
  list_max_from (fun a b => f a <? f b) m l ∈ m :: l /\
  forall x, x ∈ m :: l -> f x <= f (list_max_from (fun a b => f a <? f b) m l).
Proof.
  revert m. induction l as [|e r IH]; intros m; simpl.
  - split; [by left|]. intros x ->%list_elem_of_singleton. lia.
  - destruct (Z.ltb_spec (f m) (f e)) as [Hlt|Hge].
    + destruct (IH e) as [Hin Hmax]. split; [by right|].
      intros x [->|Hx]%elem_of_cons; [|by apply Hmax].
      specialize (Hmax e (ltac:(by left))). lia.
    + destruct (IH m) as [Hin Hmax]. split.
      * apply elem_of_cons in Hin as [->|Hin]; [by left|]. right. by right.
      * intros x [->|[->|Hx]%elem_of_cons]%elem_of_cons.
        -- apply Hmax. by left.
        -- specialize (Hmax m (ltac:(by left))). lia.
        -- apply Hmax. by right.
Qed.

Lemma update_thread_priority_run st :
  update_thread_priority st =
    Done tt
      (if original_priority (threads st (current st)) =? -1 then st
       else match list_max (lock_priority_lower st) (locks (threads st (current st))) with
            | None => restored (current st) st
            | Some max_lock =>
                if original_priority (threads st (current st)) <? max_waiter_priority st max_lock
                then upd_thread (current st) (set_priority (max_waiter_priority st max_lock)) st
                else restored (current st) st
            end).
Proof.
  unfold update_thread_priority. mstep.
  destruct (original_priority (threads st (current st)) =? -1); [done|].
  destruct (locks (threads st (current st))) as [|l0 ls] eqn:Hl; mstep; rewrite ?Hl.
  { reflexivity. }
  mstep. rewrite Hl. cbn [list_max]. mstep.
  destruct (_ <? _); reflexivity.
Qed.

Lemma sema_up_keeps_priorities s st st' :
  state_of (sema_up s st) = Some st' ->
  current st' = current st /\
  forall u, priority (threads st' u) = priority (threads st u) /\
            original_priority (threads st' u) = original_priority (threads st u) /\
            wait_lock (threads st' u) = wait_lock (threads st u) /\
            locks (threads st' u) = locks (threads st u).
Proof.
  unfold sema_up. mstep.
  destruct (waiters (semas st s)) as [|t rest]; unfold thread_unblock; mstep;
    intros (_ & Hc & _ & _ & Hf)%state_of_priority_yield;
    (split; [by rewrite Hc|]); intros u;
    destruct (Hf u) as (-> & -> & -> & -> & _); repeat split; fields.
Qed.

Lemma sema_up_leaves_state s st : exists st', state_of (sema_up s st) = Some st'.
Proof.
  unfold sema_up. mstep.
  destruct (waiters (semas st s)); unfold thread_unblock, priority_yield, thread_yield; mstep;
    destruct (outranked _); by eexists.
Qed.

Lemma restored_fields t st :
  priority (threads (restored t st) t) = original_priority (threads st t) /\
  original_priority (threads (restored t st) t) = -1.
Proof. unfold restored. split; fields. Qed.

Ltac reach :=
  repeat match goal with
  | |- reachable boot_config => apply reachable_boot_config
  | |- reachable (after_call _ _) =>
      apply reachable_after_call;
        [|by vm_compute|by vm_compute|by vm_compute|apply is_Some_alt; by vm_compute]
  | |- reachable (after_schedule _) =>
      apply reachable_after_schedule; [|by vm_compute|apply is_Some_alt; by vm_compute]
  | |- reachable (after_resume _) =>
      apply reachable_after_resume; [|by vm_compute|apply is_Some_alt; by vm_compute]
  end.

Lemma reachable_two_locks_config : reachable two_locks_config.
Proof. unfold two_locks_config. reach. Qed.

Lemma reachable_cond_config : reachable cond_config.
Proof. unfold cond_config. reach. Qed.

(** ** The lock waited for *)

Lemma returns_bind_inv {A B} (R : state -> state -> Prop) (r : run A) (f : A -> M B) b st' :
  returns R (run_bind r f) b st' ->
  exists a s, returns R r a s /\ returns R (f a s) b st'.
Proof.
  revert b st'. induction r as [a s|s k IH|msg|msg|]; simpl; intros b st' Hr.
  - exists a, s. split; [constructor|done].
  - inversion Hr as [|s0 k0 s' b0 st0 HR Hk]; subst.
    destruct (IH s' b st' Hk) as (a & s1 & H1 & H2).
    exists a, s1. split; [|done]. by econstructor.
  - inversion Hr.
  - inversion Hr.
  - inversion Hr.
Qed.

Lemma returns_Done_inv {A} (R : state -> state -> Prop) (a b : A) st st' :
  returns R (Done a st) b st' -> b = a /\ st' = st.
Proof. by inversion 1. Qed.

Lemma waits_for_priority_yield me w st a s :
  waits_for me w st ->
  returns (resumed_untouched me) (priority_yield st) a s -> waits_for me w s.
Proof.
  intros [Hc Hw]. unfold priority_yield, thread_yield.
  destruct (outranked st).
  - inversion 1 as [|s0 k0 s' b0 st0 [Hc' Hw'] Hk]; subst.
    apply returns_Done_inv in Hk as [_ ->]. split; [done|].
    rewrite Hw'. fields.
  - intros [_ ->]%returns_Done_inv. done.
Qed.

Lemma waits_for_donate_nested me w fuel a l d st s :
  waits_for me w st ->
  returns (resumed_untouched me) (donate_nested fuel a l d st) tt s -> waits_for me w s.
Proof.
  revert a l d st. induction fuel as [|fuel IH]; intros a l d st Hw; [inversion 1|].
  rewrite donate_nested_unfold.
  destruct (d =? 8); [by intros [_ ->]%returns_Done_inv|].
  destruct l as [l0|]; [|inversion 1].
  destruct (holder st l0) as [h|]; [|by intros [_ ->]%returns_Done_inv].
  destruct (prio st h <? prio st a); [|by intros [_ ->]%returns_Done_inv].
  assert (waits_for me w (donated h a st)) as Hw1.
  { destruct Hw as [Hc Hwl]. destruct (donated_frame h a st) as (_ & _ & Hc' & _).
    destruct (donated_fields h a st me) as (_ & _ & Hwl' & _).
    split; congruence. }
  assert (waits_for me w (requeued_if_waiting h (donated h a st))) as Hw2.
  { destruct Hw1 as [Hc Hwl]. split.
    - rewrite <- Hc. unfold requeued_if_waiting. by destruct (wait_semaphore _).
    - by rewrite requeued_if_waiting_fields. }
  destruct (status (threads st h)); [|by apply IH..].
  rewrite update_ready_list_run.
  destruct (linked h (donated h a st)); [|inversion 1]. by apply waits_for_priority_yield.
Qed.

Lemma waits_for_sema_down_loop me w fuel sema st s :
  waits_for me w st ->
  returns (resumed_untouched me) (sema_down_loop fuel sema st) tt s -> waits_for me w s.
Proof.
  revert st. induction fuel as [|fuel IH]; intros st Hw; simpl.
  - destruct (value (semas st sema) =? 0); [inversion 1|].
    by intros [_ ->]%returns_Done_inv.
  - destruct (value (semas st sema) =? 0); [|by intros [_ ->]%returns_Done_inv].
    unfold sema_down_wait, thread_block. mstep. st_simpl.
    inversion 1 as [|s0 k0 s' b0 st0 [Hc' Hw'] Hk]; subst.
    revert Hk. mstep. apply IH. split; [done|].
    rewrite Hw'. destruct Hw as [Hc Hwl]. rewrite <- Hwl. fields.
Qed.

Lemma waits_for_sema_down me w fuel sema st s :
  waits_for me w st ->
  returns (resumed_untouched me) (sema_down fuel sema st) tt s -> waits_for me w s.
Proof.
  intros Hw. unfold sema_down. mstep.
  destruct (in_intr st); mstep; [inversion 1|].
  rewrite bind_unfold. intros ([] & s1 & H1 & H2)%returns_bind_inv.
  apply (waits_for_sema_down_loop me w) in H1; [|done].
  revert H2. mstep. intros [_ ->]%returns_Done_inv.
  destruct H1 as [Hc Hwl]. split; [done|]. rewrite <- Hwl. fields.
Qed.

Lemma lock_acquire_keeps_wait_lock (st : state) (fuel : nat) (l : lock_id) (st' : state) :
  returns (resumed_untouched (current st)) (lock_acquire fuel l st) tt st' ->
  wait_lock (threads st' (current st)) = Some l /\
  holder st' l = Some (current st) /\
  l ∈ locks (threads st' (current st)).
Proof.
  set (me := current st).
  unfold lock_acquire, lock_held_by_current_thread. mstep.
  destruct (in_intr st); mstep; [inversion 1|].
  destruct (bool_decide (holder st l = Some (current st))); mstep; [inversion 1|].
  rewrite bind_unfold. intros ([] & s1 & H1 & H2)%returns_bind_inv.
  apply (waits_for_donate_nested me (wait_lock (threads st me))) in H1; [|done].
  revert H2. mstep. rewrite bind_unfold. intros ([] & s2 & H2 & H3)%returns_bind_inv.
  destruct H1 as [Hc1 _].
  apply (waits_for_sema_down me (Some l)) in H2.
  2:{ split; [done|]. rewrite Hc1. fields. }
  destruct H2 as [Hc2 Hw2].
  revert H3. mstep. intros [_ ->]%returns_Done_inv.
  st_simpl. rewrite !Hc2, !fn_lookup_insert. st_simpl.
  split; [done|]. split; [done|].
  apply elem_of_app. right. by left.
Qed.

Ltac others :=
  match goal with
  | H : others_run _ _ _ |- others_run _ _ _ =>
      let Hc := fresh "Hc" in let Hw := fresh "Hw" in
      destruct H as [Hc Hw]; split; [exact Hc|rewrite <- Hw; fields]
  | H : others_run _ _ _ |- wait_lock _ = _ =>
      let Hc := fresh "Hc" in let Hw := fresh "Hw" in
      destruct H as [Hc Hw]; rewrite <- Hw; fields
  end.

Section others_keep_wait_lock.
Context (me : tid) (w : option lock_id).

Lemma keeps_Done {A} (a : A) st : others_run me w st -> keeps_wait_lock me w (Done a st).
Proof. intros. by apply preserves_Done. Qed.

Lemma keeps_bind {A B} (r : run A) (f : A -> M B) :
  keeps_wait_lock me w r ->
  (forall a st, others_run me w st -> keeps_wait_lock me w (f a st)) ->
  keeps_wait_lock me w (run_bind r f).
Proof. intros Hr Hf. eapply preserves_bind; [exact Hr|]. intros a st H. by apply Hf. Qed.

Lemma keeps_priority_yield st : others_run me w st -> keeps_wait_lock me w (priority_yield st).
Proof.
  intros H. unfold priority_yield, thread_yield.
  destruct (outranked st); [|by apply keeps_Done].
  apply preserves_Susp; [others|]. intros st' H'. by apply keeps_Done.
Qed.

Lemma keeps_sema_down_loop fuel s st :
  others_run me w st -> keeps_wait_lock me w (sema_down_loop fuel s st).
Proof.
  revert st. induction fuel as [|fuel IH]; intros st H; simpl.
  - destruct (value (semas st s) =? 0); [constructor|by apply keeps_Done].
  - destruct (value (semas st s) =? 0); [|by apply keeps_Done].
    unfold sema_down_wait, thread_block. mstep. st_simpl.
    apply preserves_Susp; [others|]. intros st' H'. mstep. by apply IH.
Qed.

Lemma keeps_sema_down fuel s st :
  others_run me w st -> keeps_wait_lock me w (sema_down fuel s st).
Proof.
  intros H. unfold sema_down. mstep. destruct (in_intr st); mstep; [constructor|].
  apply keeps_bind; [by apply keeps_sema_down_loop|].
  intros [] st1 H1. mstep. apply keeps_Done. others.
Qed.

Lemma keeps_sema_try_down s st :
  others_run me w st -> keeps_wait_lock me w (sema_try_down s st).
Proof.
  intros H. unfold sema_try_down. mstep.
  destruct (0 <? value (semas st s)); mstep; apply keeps_Done; [others|done].
Qed.

Lemma keeps_sema_up s st : others_run me w st -> keeps_wait_lock me w (sema_up s st).
Proof.
  intros H. unfold sema_up. mstep.
  destruct (waiters (semas st s)) as [|t rest]; unfold thread_unblock; mstep;
    apply keeps_priority_yield; others.
Qed.

Lemma keeps_donate_nested fuel a l d st :
  others_run me w st -> keeps_wait_lock me w (donate_nested fuel a l d st).
Proof.
  revert a l d st. induction fuel as [|fuel IH]; intros a l d st H; [constructor|].
  rewrite donate_nested_unfold.
  destruct (d =? 8); [by apply keeps_Done|].
  destruct l as [l0|]; [|constructor].
  destruct (holder st l0) as [h|]; [|by apply keeps_Done].
  destruct (prio st h <? prio st a); [|by apply keeps_Done].
  assert (others_run me w (donated h a st)) as H1.
  { destruct H as [Hc Hw]. destruct (donated_frame h a st) as (_ & _ & Hc' & _).
    destruct (donated_fields h a st me) as (_ & _ & Hwl & _).
    split; congruence. }
  assert (others_run me w (requeued_if_waiting h (donated h a st))) as H2.
  { destruct H1 as [Hc Hw]. split.
    - unfold requeued_if_waiting. by destruct (wait_semaphore _).
    - by rewrite requeued_if_waiting_fields. }
  destruct (status (threads st h)); [|by apply IH..].
  rewrite update_ready_list_run.
  destruct (linked h (donated h a st)); [|constructor]. apply keeps_priority_yield.
  unfold reinserted_ready. others.
Qed.

Lemma keeps_update_thread_priority st :
  others_run me w st -> keeps_wait_lock me w (update_thread_priority st).
Proof.
  intros H. rewrite update_thread_priority_run. apply keeps_Done.
  destruct (_ =? _); [done|].
  destruct (list_max _ _); [destruct (_ <? _)|]; unfold restored; others.
Qed.

Lemma keeps_lock_acquire fuel l st :
  others_run me w st -> keeps_wait_lock me w (lock_acquire fuel l st).
Proof.
  intros H. unfold lock_acquire, lock_held_by_current_thread. mstep.
  destruct (in_intr st); mstep; [constructor|].
  destruct (bool_decide _); mstep; [constructor|].
  apply keeps_bind; [by apply keeps_donate_nested|].
  intros [] st1 H1. mstep.
  apply keeps_bind; [apply keeps_sema_down; others|].
  intros [] st2 H2. mstep. apply keeps_Done. others.
Qed.

Lemma keeps_lock_try_acquire l st :
  others_run me w st -> keeps_wait_lock me w (lock_try_acquire l st).
Proof.
  intros H. unfold lock_try_acquire, lock_held_by_current_thread. mstep.
  destruct (bool_decide _); mstep; [constructor|].
  apply keeps_bind; [by apply keeps_sema_try_down|].
  intros success st1 H1. destruct success; mstep; apply keeps_Done; [others|done].
Qed.

Lemma keeps_lock_release l st :
  others_run me w st -> keeps_wait_lock me w (lock_release l st).
Proof.
  intros H. unfold lock_release, lock_held_by_current_thread. mstep.
  destruct (bool_decide _); mstep; [|constructor].
  apply keeps_bind; [apply keeps_update_thread_priority; others|].
  intros [] st1 H1. by apply keeps_sema_up.
Qed.

Lemma keeps_cond_signal c l st :
  others_run me w st -> keeps_wait_lock me w (cond_signal c l st).
Proof.
  intros H. unfold cond_signal, lock_held_by_current_thread. mstep.
  destruct (in_intr st); mstep; [constructor|].
  destruct (bool_decide _); mstep; [|constructor].
  destruct (cond_waiters st c); mstep; [by apply keeps_Done|].
  apply keeps_sema_up. others.
Qed.

Lemma keeps_cond_wait fuel c l st :
  others_run me w st -> keeps_wait_lock me w (cond_wait fuel c l st).
Proof.
  intros H. unfold cond_wait, lock_held_by_current_thread. mstep. st_simpl.
  destruct (in_intr st); mstep; st_simpl; [constructor|].
  destruct (bool_decide _); mstep; [|constructor].
  unfold sema_init. mstep.
  apply keeps_bind; [apply keeps_lock_release; others|].
  intros [] st1 H1. apply keeps_bind; [by apply keeps_sema_down|].
  intros [] st2 H2. by apply keeps_lock_acquire.
Qed.

Lemma keeps_cond_broadcast fuel c l st :
  others_run me w st -> keeps_wait_lock me w (cond_broadcast fuel c l st).
Proof.
  revert st. induction fuel as [|fuel IH]; intros st H; cbn [cond_broadcast]; mstep.
  - destruct (cond_waiters st c); [by apply keeps_Done|constructor].
  - destruct (cond_waiters st c) eqn:Hc; [by apply keeps_Done|].
    apply keeps_bind; [by apply keeps_cond_signal|].
    intros [] st1 H1. by apply IH.
Qed.

(** No operation run by another thread writes the [wait_lock] of [me]. *)
Lemma exec_call_keeps_wait_lock op st :
  others_run me w st -> keeps_wait_lock me w (exec_call op st).
Proof.
  intros H. destruct op; cbn [exec_call].
  - unfold sema_init. mstep. apply keeps_Done. others.
  - by apply keeps_sema_down.
  - mstep. apply keeps_bind; [by apply keeps_sema_try_down|].
    intros. by apply keeps_Done.
  - by apply keeps_sema_up.
  - unfold lock_init, sema_init. mstep. apply keeps_Done. others.
  - by apply keeps_lock_acquire.
  - mstep. apply keeps_bind; [by apply keeps_lock_try_acquire|].
    intros. by apply keeps_Done.
  - by apply keeps_lock_release.
  - unfold cond_init. mstep. apply keeps_Done. others.
  - by apply keeps_cond_wait.
  - by apply keeps_cond_signal.
  - by apply keeps_cond_broadcast.
Qed.
End others_keep_wait_lock.

Lemma schedule_keeps_wait_lock st st' u :
  schedule st = Some st' -> wait_lock (threads st' u) = wait_lock (threads st u).
Proof.
  unfold schedule. destruct (ready_list st) as [|t rest]; [done|].
  intros [= <-]. fields.
Qed.

(** C4: when [lock_acquire (lock)] returns, the [wait_lock] of the
    caller is [lock], and the caller holds the lock: the field is written
    before [sema_down] and nothing in [lock_acquire] clears it.  While
    the caller is suspended its [wait_lock] stays as it is: no operation
    run by another thread and no dispatch writes it. *)
Theorem C4_wait_lock_after_acquire (me : tid) (l : lock_id) :
  (forall st fuel st',
     current st = me ->
     returns (resumed_untouched me) (lock_acquire fuel l st) tt st' ->
     wait_lock (threads st' me) = Some l /\
     holder st' l = Some me /\
     l ∈ locks (threads st' me)) /\
  (forall w op st, others_run me w st -> keeps_wait_lock me w (exec_call op st)) /\
  (forall st st', schedule st = Some st' ->
     wait_lock (threads st' me) = wait_lock (threads st me)).
Proof.
  split; [|split].
  - intros st fuel st' <- Hret. by apply (lock_acquire_keeps_wait_lock st fuel l st').
  - intros w op st. apply exec_call_keeps_wait_lock.
  - intros st st'. apply schedule_keeps_wait_lock.
Qed.

Lemma C4_wait_lock_after_acquire_witness :
  current free_lock_state = 0%nat /\
  returns (resumed_untouched 0%nat)
    (lock_acquire 1 0%nat free_lock_state) tt
    (left_by (lock_acquire 1 0%nat free_lock_state)) /\
  wait_lock (threads (left_by (lock_acquire 1 0%nat free_lock_state)) 0%nat) = Some 0%nat /\
  others_run 0%nat (Some 0%nat) (dispatched (left_by (sema_down 1 (SemaAt 0)
     (left_by (lock_acquire 1 0%nat free_lock_state))))) /\
  keeps_wait_lock 0%nat (Some 0%nat)
    (exec_call (Call_lock_acquire 1 0%nat)
       (dispatched (left_by (sema_down 1 (SemaAt 0)
          (left_by (lock_acquire 1 0%nat free_lock_state)))))).
Proof.
  assert (current free_lock_state = 0%nat) as Hc by (vm_compute; reflexivity).
  assert (returns (resumed_untouched 0%nat)
            (lock_acquire 1 0%nat free_lock_state) tt
            (left_by (lock_acquire 1 0%nat free_lock_state))) as Hret.
  { replace (lock_acquire 1 0%nat free_lock_state)
      with (Done tt (left_by (lock_acquire 1 0%nat free_lock_state)))
      by (vm_compute; reflexivity).
    constructor. }
  destruct (C4_wait_lock_after_acquire 0%nat 0%nat) as (Hmain & Hothers & _).
  destruct (Hmain free_lock_state 1%nat _ Hc Hret) as (Hw & _).
  assert (others_run 0%nat (Some 0%nat) (dispatched (left_by (sema_down 1 (SemaAt 0)
            (left_by (lock_acquire 1 0%nat free_lock_state)))))) as Ho.
  { split; [vm_compute; discriminate|vm_compute; reflexivity]. }
  split; [exact Hc|]. split; [exact Hret|]. split; [exact Hw|]. split; [exact Ho|].
  apply Hothers. exact Ho.
Defined.

(** After thread 1 has come back from [lock_acquire (&lock0)] it runs,
    holds lock 0 and still records lock 0 in [wait_lock]. *)
Lemma wait_lock_stale_after_acquire :
  reachable acquired_config /\
  current acquired_state = 1%nat /\
  cfg_pending acquired_config 1%nat = None /\
  status (threads acquired_state 1%nat) = THREAD_RUNNING /\
  holder acquired_state 0%nat = Some 1%nat /\
  wait_lock (threads acquired_state 1%nat) = Some 0%nat.
Proof.
  split; [unfold acquired_config; reach; apply reachable_two_locks_config|].
  repeat split; vm_compute; reflexivity.
Qed.

(** A donation to a holder that is not blocked goes on along the stale
    [wait_lock]: in [ready_holder_state] the holder of lock 0, thread 2,
    is ready and records lock 0, which it owns; the nested call is made
    on that lock. *)
Lemma donate_nested_follows_stale_wait_lock :
  status (threads ready_holder_state 2%nat) = THREAD_READY /\
  holder ready_holder_state 0%nat = Some 2%nat /\
  wait_lock (threads ready_holder_state 2%nat) = Some 0%nat /\
  donate_nested 9 1%nat (Some 0%nat) 0 ready_holder_state =
    donate_nested 8 2%nat (Some 0%nat) 1
      (requeued_if_waiting 2%nat (donated 2%nat 1%nat ready_holder_state)).
Proof.
  assert (status (threads ready_holder_state 2%nat) = THREAD_READY) as Hs
    by (vm_compute; reflexivity).
  assert (holder ready_holder_state 0%nat = Some 2%nat) as Hh by (vm_compute; reflexivity).
  assert (wait_lock (threads ready_holder_state 2%nat) = Some 0%nat) as Hw
    by (vm_compute; reflexivity).
  split; [exact Hs|]. split; [exact Hh|]. split; [exact Hw|].
  rewrite donate_nested_unfold. simpl Z.eqb. cbv iota.
  rewrite Hh, Hs, Hw.
  replace (prio ready_holder_state 2%nat <? prio ready_holder_state 1%nat) with true
    by (vm_compute; reflexivity).
  reflexivity.
Qed.

(** ** Condition variables *)

Lemma lock_acquire_returns_holding {R} (st : state) (fuel : nat) (l : lock_id) (st' : state) :
  returns R (lock_acquire fuel l st) tt st' ->
  holder st' l = Some (current st') /\ l ∈ locks (threads st' (current st')).
Proof.
  unfold lock_acquire, lock_held_by_current_thread. mstep.
  destruct (in_intr st); mstep; [inversion 1|].
  destruct (bool_decide (holder st l = Some (current st))); mstep; [inversion 1|].
  rewrite bind_unfold. intros ([] & s1 & _ & H2)%returns_bind_inv.
  revert H2. mstep. rewrite bind_unfold. intros ([] & s2 & _ & H3)%returns_bind_inv.
  revert H3. mstep. intros [_ ->]%returns_Done_inv.
  st_simpl. rewrite !fn_lookup_insert. st_simpl.
  split; [done|]. apply elem_of_app. right. by left.
Qed.

Lemma lock_release_Done_frame l st s :
  lock_release l st = Done tt s ->
  current s = current st /\ in_intr s = in_intr st /\
  forall s', s' <> LockSema l -> semas s s' = semas st s'.
Proof.
  unfold lock_release, lock_held_by_current_thread. mstep.
  destruct (bool_decide _); mstep; [|done].
  rewrite bind_unfold, update_thread_priority_run. mstep.
  match goal with |- sema_up _ ?x = _ -> _ => set (st2 := x) end.
  assert (current st2 = current st /\ in_intr st2 = in_intr st /\ semas st2 = semas st)
    as (Hc2 & Hi2 & Hs2).
  { unfold st2. destruct (_ =? _); [done|].
    destruct (list_max _ _); [destruct (_ <? _)|]; done. }
  intros Hup.
  assert (state_of (sema_up (LockSema l) st2) = Some s) as Hst by (by rewrite Hup).
  pose proof (sema_up_semas _ _ _ Hst) as [_ Hother].
  pose proof (sema_up_keeps_priorities _ _ _ Hst) as [Hc _].
  split; [congruence|]. split.
  - rewrite <- Hi2. revert Hup. unfold sema_up. mstep.
    destruct (waiters _); unfold thread_unblock, priority_yield, thread_yield; mstep;
      destruct (outranked _); intros [= <-]; done.
  - intros s' Hne. rewrite Hother by done. by rewrite Hs2.
Qed.

(** C8: [cond_wait] by the holder of the lock, outside an interrupt
    handler, in a well-formed state, is this sequence.  The waiter of
    the caller's frame, a new object, gets a semaphore of value 0
    without waiters and the caller's current priority; it is inserted
    into [cond->waiters] behind the waiters of at least that priority
    and in front of the lower ones, and the list stays in descending
    order of the snapshots; then [lock_release (lock)], [sema_down] on
    the waiter's own semaphore, and [lock_acquire (lock)] run, each the
    whole operation.  If [lock_release] returns without a switch of
    thread the caller blocks on its own semaphore; and whenever
    [cond_wait] returns the caller holds the lock. *)
Theorem C8_cond_wait_sequence (st : state) (fuel : nat) (c : cond_id) (l : lock_id) :
  Inv st -> in_intr st = false -> holder st l = Some (current st) ->
  let me := current st in
  let w := next_waiter st in
  exists st1,
    cond_wait fuel c l st =
      (lock_release l ;; sema_down fuel (WaiterSema w) ;; lock_acquire fuel l) st1 /\
    (forall c', w ∉ cond_waiters st c') /\
    semas st1 (WaiterSema w) = mkSema 0 [] /\
    waiter_priority st1 w = priority (threads st me) /\
    (forall u, u <> w -> waiter_priority st1 u = waiter_priority st u) /\
    cond_waiters st1 c =
      list_insert_ordered (higher (waiter_priority st1)) w (cond_waiters st c) /\
    inserted_fifo (waiter_priority st1) w (cond_waiters st c) (cond_waiters st1 c) /\
    descending (waiter_priority st1) (cond_waiters st1 c) /\
    threads st1 = threads st /\ holder st1 = holder st /\ current st1 = me /\
    (forall s, lock_release l st1 = Done tt s ->
       exists s' k,
         sema_down (S fuel) (WaiterSema w) s = Susp s' k /\
         waiters (semas s' (WaiterSema w)) = [me] /\
         status (threads s' me) = THREAD_BLOCKED) /\
    (forall R st', returns R (cond_wait fuel c l st) tt st' ->
       holder st' l = Some (current st') /\ l ∈ locks (threads st' (current st'))).
Proof.
  intros HI Hintr Hh me w.
  set (st0 := with_waiter_priority
                (<[w := priority (threads st me)]> (waiter_priority st))
                (upd_sema (WaiterSema w) (fun _ => mkSema 0 [])
                   (with_next_waiter (S w) st))).
  assert (exists st1,
            cond_wait fuel c l st =
              (lock_release l ;; sema_down fuel (WaiterSema w) ;; lock_acquire fuel l) st1 /\
            st1 = with_cond_waiters_at c
                    (list_insert_ordered (cond_priority_higher st0) w (cond_waiters st c))
                    st0)
    as (st1 & Hrun & Hst1).
  { eexists. split; [|reflexivity].
    unfold cond_wait, lock_held_by_current_thread, sema_init. mstep. st_simpl.
    rewrite Hintr. mstep. st_simpl. rewrite bool_decide_eq_true_2 by done. mstep.
    reflexivity. }
  exists st1. split; [exact Hrun|].
  assert (forall c', w ∉ cond_waiters st c') as Hfresh.
  { intros c' Hin. apply (inv_cond_fresh _ HI) in Hin. unfold w in Hin. lia. }
  assert (semas st1 (WaiterSema w) = mkSema 0 []) as Hsem
    by (rewrite Hst1; unfold st0; fields).
  assert (waiter_priority st1 w = priority (threads st me)) as Hwp
    by (rewrite Hst1; unfold st0; fields).
  assert (forall u, u <> w -> waiter_priority st1 u = waiter_priority st u) as Hwo
    by (intros u Hu; rewrite Hst1; unfold st0; fields).
  assert (cond_waiters st1 c =
          list_insert_ordered (higher (waiter_priority st1)) w (cond_waiters st c)) as Hcw
    by (rewrite Hst1; unfold st0; fields).
  assert (current st1 = me /\ in_intr st1 = false) as [Hc1 Hi1] by (rewrite Hst1; done).
  assert (descending (waiter_priority st1) (cond_waiters st c)) as Hsorted1.
  { apply descending_ext with (key := waiter_priority st); [|apply (inv_cond_sorted _ HI)].
    intros x Hx. apply Hwo. intros ->. by eapply Hfresh. }
  split; [exact Hfresh|].
  split; [exact Hsem|]. split; [exact Hwp|]. split; [exact Hwo|]. split; [exact Hcw|].
  split; [rewrite Hcw; by apply list_insert_ordered_fifo|].
  split; [rewrite Hcw; by apply descending_insert|].
  split; [by rewrite Hst1|split; [by rewrite Hst1|split; [exact Hc1|split]]].
  - intros s Hrel.
    destruct (lock_release_Done_frame _ _ _ Hrel) as (Hc & Hi & Hs).
    rewrite Hc1 in Hc. rewrite Hi1 in Hi.
    unfold sema_down. mstep. rewrite Hi. mstep. rewrite bind_unfold.
    cbn [sema_down_loop]. rewrite (Hs (WaiterSema w)), Hsem by done.
    cbn [value]. simpl Z.eqb. cbv iota.
    unfold sema_down_wait, thread_block. mstep. st_simpl.
    do 2 eexists. split; [reflexivity|]. st_simpl.
    rewrite Hc, !fn_lookup_insert. st_simpl.
    rewrite (Hs (WaiterSema w)), Hsem by done. done.
  - intros R st' Hret. rewrite Hrun in Hret. revert Hret. mstep.
    rewrite bind_unfold. intros ([] & s2 & _ & H2)%returns_bind_inv.
    revert H2. rewrite bind_unfold. intros ([] & s3 & _ & H3)%returns_bind_inv.
    by apply lock_acquire_returns_holding in H3.
Qed.

Lemma C8_cond_wait_sequence_witness :
  Inv cond_state /\
  in_intr cond_state = false /\
  holder cond_state 0%nat = Some (current cond_state) /\
  exists st1,
    cond_wait 1 0%nat 0%nat cond_state =
      (lock_release 0%nat ;; sema_down 1 (WaiterSema 2%nat) ;; lock_acquire 1 0%nat) st1 /\
    waiter_priority st1 2%nat = 20 /\
    cond_waiters st1 0%nat = [1%nat; 0%nat; 2%nat] /\
    descending (waiter_priority st1) (cond_waiters st1 0%nat).
Proof.
  unfold cond_state. set (st := cfg_state cond_config).
  assert (Inv st) as HI by exact (reachable_Inv _ reachable_cond_config).
  assert (in_intr st = false) as Hi by (vm_compute; reflexivity).
  assert (holder st 0%nat = Some (current st)) as Hh by (vm_compute; reflexivity).
  assert (next_waiter st = 2%nat) as Hn by (vm_compute; reflexivity).
  assert (cond_waiters st 0%nat = [1%nat; 0%nat]) as Hl by (vm_compute; reflexivity).
  split; [exact HI|]. split; [exact Hi|]. split; [exact Hh|].
  destruct (C8_cond_wait_sequence st 1 0%nat 0%nat HI Hi Hh)
    as (st1 & Hrun & _ & _ & Hwp & Hwo & Hcw & _ & Hd & _).
  rewrite Hn in Hrun, Hwp, Hwo, Hcw.
  exists st1. split; [exact Hrun|].
  assert (waiter_priority st1 2%nat = 20) as Hwp' by (rewrite Hwp; vm_compute; reflexivity).
  split; [exact Hwp'|]. split; [|exact Hd].
  rewrite Hcw, Hl. cbn [list_insert_ordered]. unfold higher.
  rewrite Hwp', (Hwo 1%nat), (Hwo 0%nat) by done.
  replace (waiter_priority st 1%nat) with 40 by (vm_compute; reflexivity).
  replace (waiter_priority st 0%nat) with 31 by (vm_compute; reflexivity).
  reflexivity.
Defined.

Lemma completes_bind {A B} (R : state -> state -> Prop) (Q' : A -> state -> Prop)
    (Q : B -> state -> Prop) (r : run A) (f : A -> M B) :
  completes R Q' r ->
  (forall a s, Q' a s -> completes R Q (f a s)) ->
  completes R Q (run_bind r f).
Proof.
  intros Hr Hf. induction Hr as [a s HQ|s k Hk IH]; simpl.
  - by apply Hf.
  - constructor. intros s' HR. by apply IH.
Qed.

(** [cond_signal] on a non-empty list, by the holder of the lock: the
    head goes off the list and its semaphore is upped. *)
Lemma cond_signal_run c l st w rest :
  in_intr st = false -> holder st l = Some (current st) ->
  cond_waiters st c = w :: rest ->
  cond_signal c l st = sema_up (WaiterSema w) (with_cond_waiters_at c rest st).
Proof.
  intros Hi Hh Hl. unfold cond_signal, lock_held_by_current_thread. mstep.
  rewrite Hi. mstep. rewrite bool_decide_eq_true_2 by done. mstep. by rewrite Hl.
Qed.

Lemma sema_up_frame s st st' :
  state_of (sema_up s st) = Some st' ->
  current st' = current st /\ holder st' = holder st /\
  cond_waiters st' = cond_waiters st /\ in_intr st' = in_intr st.
Proof.
  unfold sema_up. mstep.
  destruct (waiters (semas st s)); unfold thread_unblock, priority_yield, thread_yield; mstep;
    destruct (outranked _); intros [= <-]; done.
Qed.

Lemma completes_cond_signal c l st w rest :
  in_intr st = false -> holder st l = Some (current st) ->
  cond_waiters st c = w :: rest ->
  completes (cond_resumed c l)
    (fun _ s => cond_waiters s c = rest /\ holder s l = Some (current s) /\ in_intr s = false)
    (cond_signal c l st).
Proof.
  intros Hi Hh Hl. rewrite (cond_signal_run c l st w rest) by done.
  destruct (sema_up (WaiterSema w) (with_cond_waiters_at c rest st)) as [[] s|s k|msg|msg|] eqn:Hup.
  - assert (state_of (sema_up (WaiterSema w) (with_cond_waiters_at c rest st)) = Some s) as Hs
      by (by rewrite Hup).
    apply sema_up_frame in Hs as (Hc & Hho & Hcw & Hin).
    constructor. rewrite Hc, Hho, Hcw, Hin. st_simpl. rewrite fn_lookup_insert. done.
  - assert (state_of (sema_up (WaiterSema w) (with_cond_waiters_at c rest st)) = Some s) as Hs
      by (by rewrite Hup).
    apply sema_up_frame in Hs as (Hc & Hho & Hcw & Hin).
    assert (k = fun s' => Done tt s') as ->.
    { revert Hup. unfold sema_up. mstep.
      destruct (waiters _); unfold thread_unblock, priority_yield, thread_yield; mstep;
        destruct (outranked _); by intros [= _ <-]. }
    constructor. intros s' (Hcw' & Hh' & Hi'). constructor.
    rewrite Hcw', Hcw. st_simpl. rewrite fn_lookup_insert. done.
  - exfalso. revert Hup. unfold sema_up. mstep.
    destruct (waiters _); unfold thread_unblock, priority_yield, thread_yield; mstep;
      by destruct (outranked _).
  - exfalso. revert Hup. unfold sema_up. mstep.
    destruct (waiters _); unfold thread_unblock, priority_yield, thread_yield; mstep;
      by destruct (outranked _).
  - exfalso. revert Hup. unfold sema_up. mstep.
    destruct (waiters _); unfold thread_unblock, priority_yield, thread_yield; mstep;
      by destruct (outranked _).
Qed.

Lemma completes_cond_broadcast c l fuel st :
  in_intr st = false -> holder st l = Some (current st) ->
  (length (cond_waiters st c) <= fuel)%nat ->
  completes (cond_resumed c l) (fun _ s => cond_waiters s c = []) (cond_broadcast fuel c l st).
Proof.
  revert st. induction fuel as [|fuel IH]; intros st Hi Hh Hlen; cbn [cond_broadcast]; mstep.
  - destruct (cond_waiters st c) eqn:Hl; [by constructor|simpl in Hlen; lia].
  - destruct (cond_waiters st c) as [|w rest] eqn:Hl; [by constructor|].
    rewrite bind_unfold.
    eapply completes_bind; [by apply (completes_cond_signal c l st w rest)|].
    intros [] s (Hcw & Hh' & Hi'). apply IH; [done|done|].
    rewrite Hcw. simpl in Hlen. lia.
Qed.

Lemma returns_cond_broadcast {R} c l fuel st st' :
  returns R (cond_broadcast fuel c l st) tt st' -> cond_waiters st' c = [].
Proof.
  revert st. induction fuel as [|fuel IH]; intros st; cbn [cond_broadcast]; mstep.
  - destruct (cond_waiters st c) eqn:Hl; [|inversion 1].
    by intros [_ ->]%returns_Done_inv.
  - destruct (cond_waiters st c) eqn:Hl; [by intros [_ ->]%returns_Done_inv|].
    rewrite bind_unfold. intros ([] & s & _ & H2)%returns_bind_inv. by eapply IH.
Qed.


(** * Further properties of the operations *)

(** ** Locks are binary semaphores with an owner *)

Lemma LockInv_ext l st st' :
  value (semas st' (LockSema l)) = value (semas st (LockSema l)) ->
  holder st' l = holder st l ->
  (forall t, l ∈ locks (threads st t) -> l ∈ locks (threads st' t)) ->
  LockInv l st -> LockInv l st'.
Proof.
  intros Hv Hh Hl [Hr Hheld]. split; rewrite Hv; [done|].
  intros t Ht. rewrite Hh in Ht. destruct (Hheld t Ht) as [H0 Hin]. split; [done|by apply Hl].
Qed.

Ltac lockinv :=
  match goal with
  | H : LockInv _ _ |- LockInv _ _ =>
      solve [apply (LockInv_ext _ _ _) with (4 := H); [fields..|intros ?; fields]]
  end.

Section lock_invariant.
Context (l : lock_id).

Lemma klock_Done {A} (a : A) st : LockInv l st -> keeps_lock l (Done a st).
Proof. intros. by apply preserves_Done. Qed.

Lemma klock_bind {A B} (r : run A) (f : A -> M B) :
  keeps_lock l r ->
  (forall a st, LockInv l st -> keeps_lock l (f a st)) ->
  keeps_lock l (run_bind r f).
Proof. intros Hr Hf. eapply preserves_bind; [exact Hr|]. intros a st H. by apply Hf. Qed.

Lemma klock_priority_yield st : LockInv l st -> keeps_lock l (priority_yield st).
Proof.
  intros H. unfold priority_yield, thread_yield.
  destruct (outranked st); [|by apply klock_Done].
  apply preserves_Susp; [lockinv|]. intros st' H'. by apply klock_Done.
Qed.

Lemma klock_sema_down_loop fuel s st :
  LockInv l st ->
  preserves (LockInv l) (LockInv l)
    (fun _ st' => LockInv l st' /\ value (semas st' s) <> 0)
    (sema_down_loop fuel s st).
Proof.
  revert st. induction fuel as [|fuel IH]; intros st H; simpl.
  - destruct (Z.eqb_spec (value (semas st s)) 0); [constructor|by constructor].
  - destruct (Z.eqb_spec (value (semas st s)) 0); [|by constructor].
    unfold sema_down_wait, thread_block. mstep. st_simpl.
    apply preserves_Susp; [lockinv|]. intros st' H'. mstep. by apply IH.
Qed.

(** Taking a permit: the counter was not 0, so the lock had no holder. *)
Lemma LockInv_decrement s st :
  LockInv l st -> value (semas st s) <> 0 ->
  LockInv l (upd_sema s (fun x => set_value (value x - 1) x) st) /\
  (s = LockSema l -> holder st l = None).
Proof.
  intros [Hr Hheld] Hv. destruct (decide (s = LockSema l)) as [->|Hne].
  - assert (holder st l = None) as Hnone.
    { destruct (holder st l) as [t|] eqn:Ht; [|done]. by destruct (Hheld t eq_refl). }
    split; [|done]. split.
    + rewrite semas_upd_sema_eq. st_simpl. lia.
    + intros t. st_simpl. by rewrite Hnone.
  - split; [|done]. split.
    + rewrite semas_upd_sema, decide_False by done. done.
    + intros t Ht. rewrite semas_upd_sema, decide_False by done. st_simpl. by apply Hheld.
Qed.

(** [sema_down] on the lock's own semaphore returns with the counter at 0
    and the lock without holder. *)
Lemma klock_sema_down_taken fuel s st :
  LockInv l st ->
  preserves (LockInv l) (LockInv l)
    (fun _ st' => LockInv l st' /\
       (s = LockSema l -> value (semas st' (LockSema l)) = 0 /\ holder st' l = None))
    (sema_down fuel s st).
Proof.
  intros H. unfold sema_down. mstep. destruct (in_intr st); mstep; [constructor|].
  eapply preserves_bind; [by apply klock_sema_down_loop|].
  intros [] st1 [H1 Hv]. mstep. constructor.
  destruct (LockInv_decrement s st1 H1 Hv) as [H2 Hnone]. split; [done|].
  intros ->. split; [|by apply Hnone].
  rewrite semas_upd_sema_eq. st_simpl. destruct H1 as [Hr _]. lia.
Qed.

Lemma preserves_weaken {A} (I R : state -> Prop) (Q Q' : A -> state -> Prop) (r : run A) :
  (forall a st, Q a st -> Q' a st) -> preserves I R Q r -> preserves I R Q' r.
Proof.
  intros HQ. induction 1 as [a st H|st k HI Hk IH|msg|msg|]; constructor; auto.
Qed.

Lemma klock_sema_down fuel s st : LockInv l st -> keeps_lock l (sema_down fuel s st).
Proof.
  intros H. eapply preserves_weaken; [|by apply klock_sema_down_taken].
  by intros a st' [H' _].
Qed.

Lemma klock_sema_try_down s st : LockInv l st -> keeps_lock l (sema_try_down s st).
Proof.
  intros H. unfold sema_try_down. mstep.
  destruct (Z.ltb_spec 0 (value (semas st s))); mstep; apply klock_Done; [|done].
  apply LockInv_decrement; [done|lia].
Qed.

Lemma klock_sema_up_other s st :
  s <> LockSema l -> LockInv l st -> keeps_lock l (sema_up s st).
Proof.
  intros Hs H. unfold sema_up. mstep.
  destruct (waiters (semas st s)) as [|t rest]; unfold thread_unblock; mstep;
    apply klock_priority_yield; lockinv.
Qed.

(** [sema_up] on the lock's own semaphore, once the holder is cleared. *)
Lemma klock_sema_up_released st :
  value (semas st (LockSema l)) = 0 -> holder st l = None ->
  keeps_lock l (sema_up (LockSema l) st).
Proof.
  intros Hv Hh.
  assert (forall st', value (semas st' (LockSema l)) = 1 -> holder st' l = None ->
            LockInv l st') as Hfree.
  { intros st' Hv' Hh'. split; [lia|]. intros t. by rewrite Hh'. }
  unfold sema_up. mstep.
  destruct (waiters (semas st (LockSema l))) as [|t rest]; unfold thread_unblock; mstep;
    apply klock_priority_yield; apply Hfree; st_simpl;
    rewrite ?fn_lookup_insert; st_simpl; rewrite ?fn_lookup_insert; st_simpl;
    rewrite ?Hv; done.
Qed.

Lemma LockInv_donated h a st : LockInv l st -> LockInv l (donated h a st).
Proof.
  intros H. destruct (donated_frame h a st) as (Hs & _ & _ & Hh & _).
  apply (LockInv_ext _ st); [by rewrite Hs|by rewrite Hh| |done].
  intros t. by destruct (donated_fields h a st t) as (_ & _ & _ & -> & _).
Qed.

Lemma LockInv_requeued_if_waiting h st :
  LockInv l st -> LockInv l (requeued_if_waiting h st).
Proof.
  intros H. unfold requeued_if_waiting.
  destruct (wait_semaphore (threads st h)) as [s|]; [|done].
  unfold requeued. lockinv.
Qed.

Lemma klock_donate_nested fuel a l0 d st :
  LockInv l st -> keeps_lock l (donate_nested fuel a l0 d st).
Proof.
  revert a l0 d st. induction fuel as [|fuel IH]; intros a l0 d st H; [constructor|].
  rewrite donate_nested_unfold.
  destruct (d =? 8); [by apply klock_Done|].
  destruct l0 as [l0|]; [|constructor].
  destruct (holder st l0) as [h|]; [|by apply klock_Done].
  destruct (prio st h <? prio st a); [|by apply klock_Done].
  pose proof (LockInv_donated h a st H) as H1.
  pose proof (LockInv_requeued_if_waiting h _ H1) as H2.
  destruct (status (threads st h)); [|by apply IH..].
  rewrite update_ready_list_run.
  destruct (linked h (donated h a st)); [|constructor]. apply klock_priority_yield.
  unfold reinserted_ready. lockinv.
Qed.

Lemma klock_update_thread_priority st :
  LockInv l st -> keeps_lock l (update_thread_priority st).
Proof.
  intros H. rewrite update_thread_priority_run. apply klock_Done.
  destruct (_ =? _); [done|].
  destruct (list_max _ _); [destruct (_ <? _)|]; unfold restored; lockinv.
Qed.

(** The bookkeeping of a successful acquisition. *)
Lemma LockInv_take l0 st :
  LockInv l st -> (l0 = l -> value (semas st (LockSema l)) = 0) ->
  LockInv l (upd_thread (current st)
               (set_locks (locks (threads st (current st)) ++ [l0]))
               (with_holder_at l0 (Some (current st)) st)).
Proof.
  intros [Hr Hheld] Hv. split; [done|]. intros t. st_simpl.
  unfold insert, fn_insert. destruct (decide (l0 = l)) as [->|Hne].
  - intros [= <-]. split; [by apply Hv|]. rewrite decide_True by done. st_simpl.
    apply elem_of_app. right. by left.
  - intros Ht. destruct (Hheld t Ht) as [H0 Hin]. split; [done|].
    destruct (decide (current st = t)) as [->|]; st_simpl; [|done].
    apply elem_of_app. by left.
Qed.

Lemma klock_lock_acquire fuel l0 st : LockInv l st -> keeps_lock l (lock_acquire fuel l0 st).
Proof.
  intros H. unfold lock_acquire, lock_held_by_current_thread. mstep.
  destruct (in_intr st); mstep; [constructor|].
  destruct (bool_decide _); mstep; [constructor|].
  apply klock_bind; [by apply klock_donate_nested|].
  intros [] st1 H1. mstep.
  assert (LockInv l (upd_thread (current st1) (set_wait_lock (Some l0)) st1)) as H1'
    by lockinv.
  eapply preserves_bind; [by apply klock_sema_down_taken|].
  intros [] st3 [H3 Hv]. mstep. apply klock_Done.
  apply (LockInv_take l0 _ H3). intros ->. by apply Hv.
Qed.

Lemma klock_lock_try_acquire l0 st : LockInv l st -> keeps_lock l (lock_try_acquire l0 st).
Proof.
  intros H. unfold lock_try_acquire, lock_held_by_current_thread, sema_try_down. mstep.
  destruct (bool_decide _); mstep; [constructor|].
  destruct (Z.ltb_spec 0 (value (semas st (LockSema l0)))) as [Hv|Hv]; mstep;
    apply klock_Done; [|done].
  assert (value (semas st (LockSema l0)) <> 0) as Hv' by lia.
  destruct (LockInv_decrement (LockSema l0) st H Hv') as [H4 Hnone].
  apply (LockInv_take l0 _ H4). intros ->.
  rewrite semas_upd_sema_eq. st_simpl. destruct H as [Hr _]. lia.
Qed.

Lemma klock_lock_release l0 st : LockInv l st -> keeps_lock l (lock_release l0 st).
Proof.
  intros H. unfold lock_release, lock_held_by_current_thread. mstep.
  destruct (bool_decide_reflect (holder st l0 = Some (current st))) as [Hh|]; mstep;
    [|constructor].
  rewrite bind_unfold, update_thread_priority_run. mstep.
  match goal with |- keeps_lock _ (sema_up _ ?x) => set (st2 := x) end.
  destruct (decide (l0 = l)) as [->|Hne].
  - destruct H as [Hr Hheld]. destruct (Hheld _ Hh) as [H0 _].
    apply klock_sema_up_released.
    + rewrite <- H0. unfold st2. destruct (_ =? _); [done|].
      destruct (list_max _ _); [destruct (_ <? _)|]; unfold restored; fields.
    + unfold st2. destruct (_ =? _); [by fields|].
      destruct (list_max _ _); [destruct (_ <? _)|]; unfold restored; fields.
  - apply klock_sema_up_other; [congruence|].
    assert (LockInv l (with_holder_at l0 None (list_remove_lock l0 st))) as H1.
    { destruct H as [Hr Hheld]. split; [done|]. intros t. st_simpl.
      rewrite fn_lookup_insert_ne by done. intros Ht.
      destruct (Hheld t Ht) as [H0 Hin]. split; [done|].
      apply list_elem_of_filter. split; [congruence|done]. }
    unfold st2. destruct (_ =? _); [done|].
    destruct (list_max _ _); [destruct (_ <? _)|]; unfold restored; lockinv.
Qed.

Lemma klock_cond_signal c l0 st : LockInv l st -> keeps_lock l (cond_signal c l0 st).
Proof.
  intros H. unfold cond_signal, lock_held_by_current_thread. mstep.
  destruct (in_intr st); mstep; [constructor|].
  destruct (bool_decide _); mstep; [|constructor].
  destruct (cond_waiters st c); mstep; [by apply klock_Done|].
  apply klock_sema_up_other; [done|lockinv].
Qed.

Lemma klock_cond_wait fuel c l0 st : LockInv l st -> keeps_lock l (cond_wait fuel c l0 st).
Proof.
  intros H. unfold cond_wait, lock_held_by_current_thread. mstep. st_simpl.
  destruct (in_intr st); mstep; st_simpl; [constructor|].
  destruct (bool_decide _); mstep; [|constructor].
  unfold sema_init. mstep.
  apply klock_bind; [apply klock_lock_release; lockinv|].
  intros [] st1 H1. apply klock_bind; [by apply klock_sema_down|].
  intros [] st2 H2. by apply klock_lock_acquire.
Qed.

Lemma klock_cond_broadcast fuel c l0 st :
  LockInv l st -> keeps_lock l (cond_broadcast fuel c l0 st).
Proof.
  revert st. induction fuel as [|fuel IH]; intros st H; cbn [cond_broadcast]; mstep.
  - destruct (cond_waiters st c); [by apply klock_Done|constructor].
  - destruct (cond_waiters st c) eqn:Hc; [by apply klock_Done|].
    apply klock_bind; [by apply klock_cond_signal|].
    intros [] st1 H1. by apply IH.
Qed.

Lemma LockInv_lock_init l0 st :
  (l0 <> l -> LockInv l st) ->
  LockInv l (upd_sema (LockSema l0) (fun _ => mkSema 1 []) (with_holder_at l0 None st)).
Proof.
  intros H. destruct (decide (l0 = l)) as [->|Hne].
  - split.
    + rewrite semas_upd_sema_eq. st_simpl. lia.
    + intros t. st_simpl. by rewrite fn_lookup_insert.
  - specialize (H Hne). lockinv.
Qed.

Lemma klock_exec_call op st :
  respects_lock l op -> LockInv l st -> keeps_lock l (exec_call op st).
Proof.
  intros Hop H. destruct op; cbn [exec_call]; cbn [respects_lock] in Hop.
  - unfold sema_init. mstep. apply klock_Done. lockinv.
  - by apply klock_sema_down.
  - mstep. apply klock_bind; [by apply klock_sema_try_down|].
    intros. by apply klock_Done.
  - by apply klock_sema_up_other.
  - unfold lock_init, sema_init. mstep. apply klock_Done. by apply LockInv_lock_init.
  - by apply klock_lock_acquire.
  - mstep. apply klock_bind; [by apply klock_lock_try_acquire|].
    intros. by apply klock_Done.
  - by apply klock_lock_release.
  - unfold cond_init. mstep. apply klock_Done. lockinv.
  - by apply klock_cond_wait.
  - by apply klock_cond_signal.
  - by apply klock_cond_broadcast.
Qed.

End lock_invariant.

Lemma LockInv_schedule l st st' : schedule st = Some st' -> LockInv l st -> LockInv l st'.
Proof.
  unfold schedule. destruct (ready_list st) as [|t rest]; [done|].
  intros [= <-] H. lockinv.
Qed.

(** ** From [preserves] to [returns] *)

Lemma preserves_returns {A} (I Rp : state -> Prop) (Q : A -> state -> Prop)
    (R : state -> state -> Prop) (r : run A) a st' :
  (forall s s', R s s' -> Rp s') ->
  preserves I Rp Q r -> returns R r a st' -> Q a st'.
Proof.
  intros HR Hp Hr. induction Hr as [a st|s k s' a st HRs Hk IH].
  - by inversion Hp.
  - inversion Hp as [| ? ? _ Hk' | | |]; subst. apply IH, Hk'. by eapply HR.
Qed.

(** [sema_down] returns by taking a permit: the state it returns in is
    the state in which it found the counter other than 0, the initial one
    or one it was resumed in, with the counter one less. *)
Lemma sema_down_loop_returns (R : state -> state -> Prop) fuel s st st' :
  returns R (sema_down_loop fuel s st) tt st' ->
  value (semas st' s) <> 0 /\ (st' = st \/ exists s0, R s0 st').
Proof.
  revert st. induction fuel as [|fuel IH]; intros st; simpl.
  - destruct (Z.eqb_spec (value (semas st s)) 0); [inversion 1|].
    intros [_ ->]%returns_Done_inv. by split; [|left].
  - destruct (Z.eqb_spec (value (semas st s)) 0).
    + unfold sema_down_wait, thread_block. mstep.
      inversion 1 as [|s0 k0 s' b0 st0 HR Hk]; subst. revert Hk. mstep.
      intros [Hv Hfrom]%IH. split; [done|]. right.
      destruct Hfrom as [->|[s1 H1]]; eauto.
    + intros [_ ->]%returns_Done_inv. by split; [|left].
Qed.

Lemma sema_down_returns (R : state -> state -> Prop) fuel s st st' :
  returns R (sema_down fuel s st) tt st' ->
  in_intr st = false /\
  exists st0, (st0 = st \/ exists s0, R s0 st0) /\ value (semas st0 s) <> 0 /\
    st' = upd_sema s (fun x => set_value (value x - 1) x) st0.
Proof.
  unfold sema_down. mstep. destruct (in_intr st); mstep; [inversion 1|].
  intros ([] & st0 & [Hv Hfrom]%sema_down_loop_returns & H2)%returns_bind_inv.
  revert H2. mstep. intros [_ ->]%returns_Done_inv. split; [done|]. by exists st0.
Qed.

(** ** Donation *)

Lemma donation_effect_refl p st : donation_effect p st st.
Proof. repeat split; auto. Qed.

Lemma donation_effect_ext p st st1 st' :
  donation_effect p st st1 ->
  holder st' = holder st1 -> current st' = current st1 -> in_intr st' = in_intr st1 ->
  cond_waiters st' = cond_waiters st1 -> waiter_priority st' = waiter_priority st1 ->
  next_waiter st' = next_waiter st1 ->
  (forall s, value (semas st' s) = value (semas st1 s)) ->
  (forall u, locks (threads st' u) = locks (threads st1 u) /\
             wait_lock (threads st' u) = wait_lock (threads st1 u) /\
             wait_semaphore (threads st' u) = wait_semaphore (threads st1 u) /\
             priority (threads st' u) = priority (threads st1 u) /\
             original_priority (threads st' u) = original_priority (threads st1 u)) ->
  donation_effect p st st'.
Proof.
  intros (H1 & H2 & H3 & H4 & H5 & H6 & H7 & H8) E1 E2 E3 E4 E5 E6 E7 E8.
  split; [congruence|]. split; [congruence|]. split; [congruence|].
  split; [congruence|]. split; [congruence|]. split; [congruence|].
  split; [intros s; by rewrite E7|].
  intros u. destruct (E8 u) as (-> & -> & -> & Hp & ->). unfold prio. rewrite Hp.
  apply H8.
Qed.

Lemma donation_effect_donated p h a st :
  prio st h < prio st a -> prio st a = p -> donation_effect p st (donated h a st).
Proof.
  intros Hlt Hp.
  destruct (donated_frame h a st) as (Hs & Hr & Hc & Hh & Hcw & Hwp & Hi).
  split; [done|]. split; [done|]. split; [done|]. split; [done|]. split; [done|].
  split; [unfold donated, donated_base; destruct (_ =? _); done|].
  split; [intros s; by rewrite Hs|].
  intros u. destruct (donated_fields h a st u) as (_ & Hws & Hwl & Hl & Hpu & Ho).
  rewrite Hws, Hwl, Hl, Ho, Hpu.
  split; [done|]. split; [done|]. split; [done|].
  destruct (decide (h = u)) as [<-|Hne]; [|by left].
  right. split; [lia|]. done.
Qed.

Lemma donation_effect_step p h a st :
  prio st h < prio st a -> prio st a = p ->
  donation_effect p st (requeued_if_waiting h (donated h a st)).
Proof.
  intros Hlt Hp. pose proof (donation_effect_donated p h a st Hlt Hp) as H.
  unfold requeued_if_waiting. destruct (wait_semaphore _) as [s|]; [|done].
  eapply donation_effect_ext; [exact H|unfold requeued; try done..].
  fields.
Qed.

Lemma donation_effect_yield p st st1 st' :
  donation_effect p st st1 -> state_of (priority_yield st1) = Some st' ->
  donation_effect p st st'.
Proof.
  intros H. unfold priority_yield, thread_yield.
  destruct (outranked st1); intros [= <-]; [|done].
  eapply donation_effect_ext; [exact H|try done..].
  intros u. fields.
Qed.

Lemma donation_effect_trans p st st1 st' :
  donation_effect p st st1 -> donation_effect p st1 st' -> donation_effect p st st'.
Proof.
  intros (H1 & H2 & H3 & H4 & H5 & H6 & H7 & H8) (E1 & E2 & E3 & E4 & E5 & E6 & E7 & E8).
  split; [congruence|]. split; [congruence|]. split; [congruence|].
  split; [congruence|]. split; [congruence|]. split; [congruence|].
  split; [intros s; by rewrite E7|].
  intros u. destruct (H8 u) as (Hl & Hwl & Hws & Hp).
  destruct (E8 u) as (-> & -> & -> & Hp').
  split; [done|]. split; [done|]. split; [done|].
  destruct Hp as [[Hp Ho]|(Hp1 & Hp2 & Ho)], Hp' as [[Hp' Ho']|(Hp1' & Hp2' & Ho')].
  - left. split; congruence.
  - right. rewrite <- Hp, <- Ho. done.
  - right. split; [lia|]. split; [lia|]. congruence.
  - lia.
Qed.

Lemma donation_effect_donor p st st' a :
  prio st a = p -> donation_effect p st st' -> prio st' a = prio st a.
Proof.
  intros Hp (_ & _ & _ & _ & _ & _ & _ & H). destruct (H a) as (_ & _ & _ & [Ha|Ha]); lia.
Qed.

Lemma donate_nested_effect fuel a l d st st' :
  state_of (donate_nested fuel a l d st) = Some st' ->
  donation_effect (prio st a) st st'.
Proof.
  revert a l d st st'. induction fuel as [|fuel IH]; intros a l d st st'; [done|].
  rewrite donate_nested_unfold.
  destruct (d =? 8); [intros [= <-]; apply donation_effect_refl|].
  destruct l as [l0|]; [|done].
  destruct (holder st l0) as [h|]; [|intros [= <-]; apply donation_effect_refl].
  destruct (Z.ltb_spec (prio st h) (prio st a)) as [Hlt|];
    [|intros [= <-]; apply donation_effect_refl].
  assert (forall st', state_of (donate_nested fuel h (wait_lock (threads st h)) (d + 1)
                                 (requeued_if_waiting h (donated h a st))) = Some st' ->
             donation_effect (prio st a) st st') as Hrec.
  { intros st2 Hst2. apply IH in Hst2.
    pose proof (donation_effect_step (prio st a) h a st Hlt eq_refl) as Hstep.
    eapply donation_effect_trans; [exact Hstep|].
    replace (prio st a) with (prio (requeued_if_waiting h (donated h a st)) h); [done|].
    destruct Hstep as (_ & _ & _ & _ & _ & _ & _ & Hu).
    destruct (Hu h) as (_ & _ & _ & [[Hp _]|(_ & Hp & _)]); [|done].
    unfold prio. rewrite requeued_if_waiting_fields.
    destruct (donated_fields h a st h) as (_ & _ & _ & _ & Hph & _).
    unfold prio in Hph. rewrite Hph. by rewrite decide_True. }
  destruct (status (threads st h)); [|exact (Hrec st')..].
  rewrite update_ready_list_run.
  destruct (linked h (donated h a st)); [|done]. apply donation_effect_yield.
  eapply donation_effect_ext;
    [exact (donation_effect_donated (prio st a) h a st Hlt eq_refl)
    |unfold reinserted_ready; try done..].
Qed.

Lemma LockInv_unheld l st :
  0 <= value (semas st (LockSema l)) <= 1 -> holder st l = None -> LockInv l st.
Proof. intros Hv Hh. split; [done|]. intros t. by rewrite Hh. Qed.

(** X1: a lock is a binary semaphore with an owner.  [lock_init] leaves
    the lock free with one permit; from then on, whatever operation of
    synch.h a thread calls (other than [sema_init] or [sema_up] on the
    semaphore inside the lock), at every point where the operation gives
    up the processor or returns, the counter of the lock's semaphore is 0
    or 1, and while the lock has a holder the counter is 0 and the lock
    is in the holder's list [locks]; the dispatcher keeps it so. *)
Theorem X1_lock_is_binary_semaphore (l : lock_id) :
  (forall st, exists st',
     lock_init l st = Done tt st' /\ LockInv l st' /\
     holder st' l = None /\ semas st' (LockSema l) = mkSema 1 []) /\
  (forall op st, respects_lock l op -> LockInv l st -> keeps_lock l (exec_call op st)) /\
  (forall st st', schedule st = Some st' -> LockInv l st -> LockInv l st').
Proof.
  split; [|split].
  - intros st. eexists. split; [reflexivity|]. split; [by apply LockInv_lock_init|].
    split; [by fields|]. apply semas_upd_sema_eq.
  - apply klock_exec_call.
  - apply LockInv_schedule.
Qed.

Lemma X1_lock_is_binary_semaphore_witness :
  respects_lock 0%nat (Call_lock_acquire 1 0%nat) /\
  LockInv 0%nat free_lock_state /\
  keeps_lock 0%nat (lock_acquire 1 0%nat free_lock_state) /\
  (exists st', schedule boot_state = Some st' /\ LockInv 0%nat boot_state /\ LockInv 0%nat st').
Proof.
  destruct (X1_lock_is_binary_semaphore 0%nat) as (_ & Hcall & Hsched).
  assert (LockInv 0%nat free_lock_state) as Hfree.
  { apply LockInv_unheld; [by vm_compute|by vm_compute]. }
  assert (LockInv 0%nat boot_state) as Hboot.
  { apply LockInv_unheld; [by vm_compute|by vm_compute]. }
  split; [exact I|]. split; [exact Hfree|]. split.
  - exact (Hcall (Call_lock_acquire 1 0%nat) free_lock_state I Hfree).
  - eexists. split; [reflexivity|]. split; [exact Hboot|].
    exact (Hsched boot_state _ eq_refl Hboot).
Defined.

Lemma lock_acquire_returns_taken l fuel st st' :
  LockInv l st ->
  returns (fun _ s' => LockInv l s') (lock_acquire fuel l st) tt st' ->
  exists st0,
    LockInv l st0 /\ holder st0 l = None /\ value (semas st0 (LockSema l)) = 1 /\
    current st' = current st0 /\ holder st' l = Some (current st0) /\
    value (semas st' (LockSema l)) = 0 /\ l ∈ locks (threads st' (current st0)).
Proof.
  intros H. unfold lock_acquire, lock_held_by_current_thread. mstep.
  destruct (in_intr st); mstep; [inversion 1|].
  destruct (bool_decide (holder st l = Some (current st))); mstep; [inversion 1|].
  rewrite bind_unfold. intros ([] & s1 & Hd & H2)%returns_bind_inv.
  assert (LockInv l s1) as H1.
  { eapply (preserves_returns _ _ (fun _ => LockInv l)); [|by apply klock_donate_nested|exact Hd].
    by intros s s' Hs. }
  revert H2. mstep. rewrite bind_unfold.
  intros ([] & s2 & (_ & st0 & Hfrom & Hv & ->)%sema_down_returns & H3)%returns_bind_inv.
  revert H3. mstep. intros [_ ->]%returns_Done_inv.
  assert (LockInv l st0) as H0.
  { destruct Hfrom as [->|[s0 Hs0]]; [lockinv|done]. }
  destruct (LockInv_decrement l (LockSema l) st0 H0 Hv) as [_ Hnone].
  exists st0. split; [done|]. split; [by apply Hnone|].
  split; [destruct H0 as [Hr _]; lia|].
  st_simpl. rewrite !fn_lookup_insert. st_simpl.
  split; [done|]. split; [done|]. split; [destruct H0 as [Hr _]; lia|].
  apply elem_of_app. right. by left.
Qed.

(** X2: a lock is taken only when it is free.  While another thread
    holds the lock, [lock_try_acquire] returns false and leaves the state
    as it is, and [lock_acquire] does not return without giving up the
    processor.  When [lock_try_acquire] returns true, and whenever
    [lock_acquire] returns, the caller took the lock in a state in which
    it had no holder and its one permit was there, and is the holder. *)
Theorem X2_lock_taken_only_when_free (l : lock_id) (st : state) :
  LockInv l st ->
  (forall h, holder st l = Some h -> h <> current st ->
     lock_try_acquire l st = Done false st /\
     forall fuel st', lock_acquire fuel l st <> Done tt st') /\
  (forall st', lock_try_acquire l st = Done true st' ->
     holder st l = None /\ value (semas st (LockSema l)) = 1 /\
     holder st' l = Some (current st) /\ value (semas st' (LockSema l)) = 0) /\
  (forall fuel st',
     returns (fun _ s' => LockInv l s') (lock_acquire fuel l st) tt st' ->
     exists st0,
       LockInv l st0 /\ holder st0 l = None /\ value (semas st0 (LockSema l)) = 1 /\
       current st' = current st0 /\ holder st' l = Some (current st0) /\
       value (semas st' (LockSema l)) = 0 /\ l ∈ locks (threads st' (current st0))).
Proof.
  intros H. split; [|split].
  - intros h Hh Hne. destruct (proj2 H h Hh) as [Hv _]. split.
    + unfold lock_try_acquire, lock_held_by_current_thread, sema_try_down. mstep.
      rewrite bool_decide_eq_false_2 by congruence. mstep. rewrite Hv. done.
    + intros fuel st' Hdone.
      revert Hdone. unfold lock_acquire, lock_held_by_current_thread. mstep.
      destruct (in_intr st); mstep; [done|].
      destruct (bool_decide (holder st l = Some (current st))); mstep; [done|].
      rewrite bind_unfold.
      destruct (donate_nested 9 (current st) (Some l) 0 st) as [[] s1|s1 k|msg|msg|] eqn:Hd;
        simpl; try done.
      assert (state_of (donate_nested 9 (current st) (Some l) 0 st) = Some s1) as Hs1
        by (by rewrite Hd).
      apply donate_nested_effect in Hs1 as (Hh1 & _ & Hi1 & _ & _ & _ & Hv1 & _).
      unfold sema_down. mstep. st_simpl. rewrite Hi1.
      destruct (in_intr st); mstep; [done|]. rewrite bind_unfold.
      destruct fuel as [|fuel]; cbn [sema_down_loop]; st_simpl; rewrite Hv1, Hv; [done|].
      simpl Z.eqb. cbv iota. unfold sema_down_wait, thread_block. mstep. done.
  - unfold lock_try_acquire, lock_held_by_current_thread, sema_try_down. mstep.
    destruct (bool_decide (holder st l = Some (current st))); mstep; [done|].
    destruct (Z.ltb_spec 0 (value (semas st (LockSema l)))) as [Hv|Hv]; mstep; [|done].
    intros st' [= <-].
    assert (value (semas st (LockSema l)) <> 0) as Hv' by lia.
    destruct (LockInv_decrement l (LockSema l) st H Hv') as [_ Hnone].
    split; [by apply Hnone|]. split; [destruct H as [Hr _]; lia|].
    st_simpl. rewrite !fn_lookup_insert. st_simpl.
    split; [done|]. destruct H as [Hr _]. lia.
  - intros fuel st'. by apply lock_acquire_returns_taken.
Qed.

Lemma X2_lock_taken_only_when_free_witness :
  LockInv 0%nat donation_state /\
  holder donation_state 0%nat = Some 0%nat /\ 0%nat <> current donation_state /\
  lock_try_acquire 0%nat donation_state = Done false donation_state /\
  is_susp (lock_acquire 1 0%nat donation_state) = true /\
  LockInv 0%nat free_lock_state /\
  (exists st', lock_try_acquire 0%nat free_lock_state = Done true st' /\
     holder st' 0%nat = Some 0%nat) /\
  (exists st', returns (fun _ s' => LockInv 0%nat s') (lock_acquire 1 0%nat free_lock_state) tt st' /\
     holder st' 0%nat = Some 0%nat).
Proof.
  assert (holder donation_state 0%nat = Some 0%nat) as Hh by (vm_compute; reflexivity).
  assert (0%nat <> current donation_state) as Hne by (by vm_compute).
  assert (LockInv 0%nat donation_state) as Hinv.
  { split; [by vm_compute|]. intros t. rewrite Hh. intros [= <-].
    split; [by vm_compute|]. vm_compute. by left. }
  assert (LockInv 0%nat free_lock_state) as Hfree.
  { apply LockInv_unheld; by vm_compute. }
  destruct (X2_lock_taken_only_when_free 0%nat donation_state Hinv) as (Hheld & _ & _).
  destruct (X2_lock_taken_only_when_free 0%nat free_lock_state Hfree) as (_ & Htry & Hacq).
  destruct (Hheld 0%nat Hh Hne) as [Hfalse Hblock].
  split; [exact Hinv|]. split; [exact Hh|]. split; [exact Hne|]. split; [exact Hfalse|].
  split; [by vm_compute|]. split; [exact Hfree|]. split.
  - pose (st' := left_by (lock_try_acquire 0%nat free_lock_state)).
    assert (lock_try_acquire 0%nat free_lock_state = Done true st') as Ht
      by (vm_compute; reflexivity).
    exists st'. split; [exact Ht|]. destruct (Htry st' Ht) as (_ & _ & Hst' & _).
    rewrite Hst'. by vm_compute.
  - pose (st' := left_by (lock_acquire 1 0%nat free_lock_state)).
    assert (lock_acquire 1 0%nat free_lock_state = Done tt st') as Ha
      by (vm_compute; reflexivity).
    assert (returns (fun _ s' => LockInv 0%nat s') (lock_acquire 1 0%nat free_lock_state) tt st')
      as Hr by (rewrite Ha; constructor).
    exists st'. split; [exact Hr|].
    destruct (Hacq 1%nat st' Hr) as (st0 & _ & _ & _ & Hc & Hst' & _).
    rewrite Hst', <- Hc. by vm_compute.
Defined.

(** X3: a donation only raises priorities, and only to the donor's.
    Whatever the state and the chain of locks, in the state that
    [donate_nested] leaves (when it returns or at its preemption check)
    every thread has the priority it had or the donor's priority, which
    is then higher than the one it had; the donor keeps its priority; a
    recorded [original_priority] is never overwritten, and a thread whose
    priority was raised without one has its former priority recorded;
    holders, lists of held locks, [wait_lock], [wait_semaphore] and the
    counters of all semaphores are as they were. *)
Theorem X3_donation_only_raises (fuel : nat) (a : tid) (l : option lock_id) (d : Z)
    (st st' : state) :
  state_of (donate_nested fuel a l d st) = Some st' ->
  donation_effect (prio st a) st st' /\
  prio st' a = prio st a /\
  (forall u, prio st u <= prio st' u <= Z.max (prio st u) (prio st a)) /\
  (forall u, original_priority (threads st u) <> -1 ->
     original_priority (threads st' u) = original_priority (threads st u)) /\
  (forall u, original_priority (threads st u) = -1 -> prio st' u <> prio st u ->
     original_priority (threads st' u) = prio st u).
Proof.
  intros H%donate_nested_effect. split; [exact H|].
  split; [by eapply donation_effect_donor|].
  destruct H as (_ & _ & _ & _ & _ & _ & _ & H).
  split; [|split].
  - intros u. destruct (H u) as (_ & _ & _ & [[Hp _]|(Hp & Hp' & _)]); lia.
  - intros u Hu. destruct (H u) as (_ & _ & _ & [[_ Ho]|(_ & _ & Ho)]); [done|].
    rewrite Ho. by destruct (Z.eqb_spec (original_priority (threads st u)) (-1)).
  - intros u Hu Hp. destruct (H u) as (_ & _ & _ & [[Hp' _]|(_ & _ & Ho)]); [done|].
    rewrite Ho, Hu. done.
Qed.

Lemma X3_donation_only_raises_witness :
  exists st',
    state_of (donate_nested 9 1%nat (Some 0%nat) 0 donation_state) = Some st' /\
    prio donation_state 0%nat = 31 /\ prio donation_state 1%nat = 40 /\
    prio st' 0%nat = 40 /\ prio st' 1%nat = 40 /\
    original_priority (threads st' 0%nat) = 31 /\
    donation_effect 40 donation_state st'.
Proof.
  pose (st' := left_by (donate_nested 9 1%nat (Some 0%nat) 0 donation_state)).
  assert (state_of (donate_nested 9 1%nat (Some 0%nat) 0 donation_state) = Some st') as Hst
    by (vm_compute; reflexivity).
  assert (prio donation_state 1%nat = 40) as Hp1 by (vm_compute; reflexivity).
  exists st'. split; [exact Hst|].
  split; [by vm_compute|]. split; [exact Hp1|].
  destruct (X3_donation_only_raises _ _ _ _ _ _ Hst) as (Heff & Hdonor & _ & _ & Horig).
  rewrite Hp1 in Heff, Hdonor.
  split; [by vm_compute|]. split; [exact Hdonor|]. split; [|exact Heff].
  rewrite (Horig 0%nat); by vm_compute.
Defined.

Lemma reachable_try_holder_config : reachable try_holder_config.
Proof. unfold try_holder_config. reach. apply reachable_two_waiters_config. Qed.

(** X4: [lock_try_acquire] does not write [wait_lock], and a donation
    to a holder that does not run follows the holder's [wait_lock]
    without a test for NULL.  So when a thread asks with [lock_acquire]
    for a lock whose holder has a lower priority, is not running and has
    no [wait_lock] (it took the lock with [lock_try_acquire] and never
    waited for one), the nested call of [donate_nested] reads
    [l->holder] through the null pointer: the kernel halts there. *)
Theorem X4_donation_follows_null_wait_lock (st : state) (l : lock_id) :
  (forall b st' u, lock_try_acquire l st = Done b st' ->
     wait_lock (threads st' u) = wait_lock (threads st u)) /\
  (forall fuel h,
     in_intr st = false -> holder st l = Some h -> h <> current st ->
     status (threads st h) <> THREAD_RUNNING ->
     prio st h < prio st (current st) ->
     wait_lock (threads st h) = None ->
     lock_acquire fuel l st = Panic "donate_nested: l->holder with l == NULL").
Proof.
  split.
  - intros b st' u. unfold lock_try_acquire, lock_held_by_current_thread, sema_try_down.
    mstep. destruct (bool_decide _); mstep; [done|].
    destruct (0 <? value (semas st (LockSema l))); mstep; intros [= _ <-]; fields.
  - intros fuel h Hi Hh Hne Hnr Hlt Hwl.
    unfold lock_acquire, lock_held_by_current_thread. mstep. rewrite Hi. mstep.
    rewrite Hh, bool_decide_eq_false_2 by congruence. mstep.
    rewrite bind_unfold, donate_nested_unfold. simpl Z.eqb. cbv iota.
    rewrite Hh. destruct (Z.ltb_spec (prio st h) (prio st (current st))); [|lia].
    rewrite Hwl.
    destruct (status (threads st h)); [done|reflexivity..].
Qed.

Lemma X4_donation_follows_null_wait_lock_witness :
  (exists st', lock_try_acquire 0%nat free_lock_state = Done true st' /\
     wait_lock (threads st' 0%nat) = None) /\
  reachable try_holder_config /\
  in_intr try_holder_state = false /\
  current try_holder_state = 1%nat /\
  holder try_holder_state 0%nat = Some 2%nat /\
  status (threads try_holder_state 2%nat) = THREAD_READY /\
  prio try_holder_state 2%nat < prio try_holder_state 1%nat /\
  wait_lock (threads try_holder_state 2%nat) = None /\
  lock_acquire 1 0%nat try_holder_state = Panic "donate_nested: l->holder with l == NULL".
Proof.
  unfold try_holder_state. set (st := cfg_state try_holder_config).
  assert (in_intr st = false) as Hi by (vm_compute; reflexivity).
  assert (current st = 1%nat) as Hc by (vm_compute; reflexivity).
  assert (holder st 0%nat = Some 2%nat) as Hh by (vm_compute; reflexivity).
  assert (status (threads st 2%nat) = THREAD_READY) as Hs by (vm_compute; reflexivity).
  assert (prio st 2%nat < prio st 1%nat) as Hlt by (by vm_compute).
  assert (wait_lock (threads st 2%nat) = None) as Hwl by (vm_compute; reflexivity).
  split.
  { pose (st' := left_by (lock_try_acquire 0%nat free_lock_state)).
    assert (lock_try_acquire 0%nat free_lock_state = Done true st') as Ht
      by (vm_compute; reflexivity).
    exists st'. split; [exact Ht|].
    destruct (X4_donation_follows_null_wait_lock free_lock_state 0%nat) as [Hkeep _].
    rewrite (Hkeep true st' 0%nat Ht). by vm_compute. }
  split; [apply reachable_try_holder_config|].
  split; [exact Hi|]. split; [exact Hc|]. split; [exact Hh|]. split; [exact Hs|].
  split; [exact Hlt|]. split; [exact Hwl|].
  destruct (X4_donation_follows_null_wait_lock st 0%nat) as [_ Hpanic].
  apply (Hpanic 1%nat 2%nat Hi Hh); [by rewrite Hc|by rewrite Hs|by rewrite Hc|exact Hwl].
Defined.

(** ** Donation from the running thread *)

Lemma Inv_donation_step h a st : Inv st -> Inv (requeued_if_waiting h (donated h a st)).
Proof.
  intros HI.
  assert (0 <= priority (threads (donated_base h st) a)) as Hp.
  { apply (inv_prio _ (Inv_donated_base h st HI)). }
  destruct (donated_fields h a st h) as (_ & Hw & _).
  unfold requeued_if_waiting. rewrite Hw.
  destruct (wait_semaphore (threads st h)) as [s|] eqn:Hws.
  - assert (wait_semaphore (threads (donated_base h st) h) = Some s) as Hws'.
    { unfold donated_base. destruct (_ =? _); fields. }
    exact (Inv_reinsert_waiter h s _ _ (Inv_donated_base h st HI) Hws' Hp).
  - unfold donated. apply Inv_set_priority_unqueued; [done| |by apply Inv_donated_base].
    unfold donated_base. destruct (_ =? _); fields.
Qed.

Lemma remove_thread_absent t l : t ∉ l -> remove_thread t l = l.
Proof.
  unfold remove_thread. induction l as [|x r IH]; [done|].
  intros [Hx Hnot]%not_elem_of_cons.
  rewrite filter_cons_True by congruence. by rewrite IH.
Qed.

(** A donation that starts from the running thread never reaches the
    preemption check: every donor has the priority of the running
    thread, so no holder of lower priority is the running thread. *)
Lemma donate_nested_from_running me fuel a l d st :
  Inv st -> running me st -> prio st a = prio st me ->
  0 <= d <= 8 -> (Z.to_nat (8 - d) < fuel)%nat ->
  (exists st', donate_nested fuel a l d st = Done tt st' /\ Inv st' /\ running me st' /\
     ready_list st' = ready_list st) \/
  donate_nested fuel a l d st = Panic "donate_nested: l->holder with l == NULL".
Proof.
  revert a l d st. induction fuel as [|fuel IH]; intros a l d st HI Hrun Hchain Hd Hfuel; [lia|].
  rewrite donate_nested_unfold.
  destruct (Z.eqb_spec d 8) as [->|Hne]; [left; by exists st|].
  destruct l as [l0|]; [|by right].
  destruct (holder st l0) as [h|]; [|left; by exists st].
  destruct (Z.ltb_spec (prio st h) (prio st a)) as [Hlt|]; [|left; by exists st].
  assert (h <> me) as Hhme by (intros ->; lia).
  assert (status (threads st h) <> THREAD_RUNNING) as Hnr.
  { intros Hr. apply (inv_running _ HI) in Hr. destruct Hrun as [Hc _]. congruence. }
  assert (forall u, threads (requeued_if_waiting h (donated h a st)) u =
                    threads (donated h a st) u) as Hthr
    by apply requeued_if_waiting_fields.
  assert (current (requeued_if_waiting h (donated h a st)) = current st) as Hcur.
  { destruct (donated_frame h a st) as (_ & _ & Hc & _). rewrite <- Hc.
    unfold requeued_if_waiting. by destruct (wait_semaphore _). }
  assert (donate_nested fuel h (wait_lock (threads st h)) (d + 1)
            (requeued_if_waiting h (donated h a st)) =
          match status (threads st h) with
          | THREAD_RUNNING => update_ready_list_when_thread_priority_changes h (donated h a st)
          | _ => donate_nested fuel h (wait_lock (threads st h)) (d + 1)
                   (requeued_if_waiting h (donated h a st))
          end) as <-
    by (destruct (status (threads st h)); done).
  assert (ready_list (requeued_if_waiting h (donated h a st)) = ready_list st) as Hready.
  { destruct (donated_frame h a st) as (_ & Hr & _). rewrite <- Hr.
    destruct (donated_fields h a st h) as (_ & Hw & _).
    unfold requeued_if_waiting. rewrite Hw.
    destruct (wait_semaphore (threads st h)) as [s|] eqn:Hws; [|done].
    unfold requeued. st_simpl. rewrite Hr.
    assert (h ∉ ready_list st) as Hnot.
    { intros Hin%(inv_ready _ HI). apply (inv_blocked _ HI) in Hws. congruence. }
    by apply remove_thread_absent. }
  destruct (IH h (wait_lock (threads st h)) (d + 1) (requeued_if_waiting h (donated h a st)))
    as [(st' & Hdone & HI' & Hrun' & Hr')|Hpanic]; [by apply Inv_donation_step| | |lia|lia| |].
  - destruct Hrun as [Hc Hs]. split; [congruence|]. rewrite Hthr.
    destruct (donated_fields h a st me) as (-> & _). done.
  - unfold prio. rewrite !Hthr.
    destruct (donated_fields h a st h) as (_ & _ & _ & _ & Hph & _).
    destruct (donated_fields h a st me) as (_ & _ & _ & _ & Hpm & _).
    unfold prio in Hph, Hpm. rewrite Hph, Hpm, decide_True, decide_False by done.
    exact Hchain.
  - left. exists st'. rewrite Hr', Hready. done.
  - by right.
Qed.

(** After a donation the holder of the lock has at least the donor's
    priority. *)
Lemma donate_nested_raises_holder fuel a l d st st' h :
  d <> 8 -> holder st l = Some h ->
  state_of (donate_nested (S fuel) a (Some l) d st) = Some st' ->
  prio st a <= prio st' h.
Proof.
  intros Hd Hh. rewrite donate_nested_unfold.
  destruct (Z.eqb_spec d 8); [done|]. rewrite Hh.
  destruct (Z.ltb_spec (prio st h) (prio st a)) as [Hlt|]; [|intros [= <-]; lia].
  assert (prio (donated h a st) h = prio st a) as Hph.
  { destruct (donated_fields h a st h) as (_ & _ & _ & _ & -> & _). by rewrite decide_True. }
  assert (forall st2, donation_effect (prio st a) (requeued_if_waiting h (donated h a st)) st2 ->
            prio st a <= prio st2 h) as Hmono.
  { intros st2 (_ & _ & _ & _ & _ & _ & _ & Hu).
    assert (prio (requeued_if_waiting h (donated h a st)) h = prio st a) as Hq
      by (unfold prio; rewrite requeued_if_waiting_fields; exact Hph).
    destruct (Hu h) as (_ & _ & _ & [[Hp _]|(Hp & _)]); lia. }
  assert (prio (requeued_if_waiting h (donated h a st)) h = prio st a) as Hq
    by (unfold prio; rewrite requeued_if_waiting_fields; exact Hph).
  destruct (status (threads st h)).
  - rewrite update_ready_list_run.
    destruct (linked h (donated h a st)); [|done].
    intros (_ & _ & _ & _ & Hf)%state_of_priority_yield.
    destruct (Hf h) as (Hp & _). unfold prio at 2. rewrite Hp.
    unfold reinserted_ready. st_simpl. fold (prio (donated h a st) h). lia.
  - intros H%donate_nested_effect. apply Hmono. by rewrite Hq in H.
  - intros H%donate_nested_effect. apply Hmono. by rewrite Hq in H.
  - intros H%donate_nested_effect. apply Hmono. by rewrite Hq in H.
Qed.

(** X5: [lock_acquire] on a lock that another thread holds, called by
    the running thread outside an interrupt handler in a well-formed
    state.  Unless the donation halts the kernel on a null [wait_lock],
    the caller gives up the processor in [sema_down]: it is blocked and
    queued on the lock's semaphore, which it records in [wait_semaphore],
    with the lock in [wait_lock]; the holder is the same and now has at
    least the caller's priority; no priority was lowered and the caller's
    is as it was; and the state is well-formed. *)
Theorem X5_lock_acquire_donates_and_blocks (st : state) (fuel : nat) (l : lock_id) (h : tid) :
  Inv st -> LockInv l st -> in_intr st = false ->
  status (threads st (current st)) = THREAD_RUNNING ->
  holder st l = Some h -> h <> current st ->
  let me := current st in
  lock_acquire (S fuel) l st = Panic "donate_nested: l->holder with l == NULL" \/
  exists st' k,
    lock_acquire (S fuel) l st = Susp st' k /\
    Inv st' /\ LockInv l st' /\
    status (threads st' me) = THREAD_BLOCKED /\
    me ∈ waiters (semas st' (LockSema l)) /\
    wait_semaphore (threads st' me) = Some (LockSema l) /\
    wait_lock (threads st' me) = Some l /\
    holder st' l = Some h /\
    prio st' me = prio st me /\ prio st me <= prio st' h /\
    (forall u, prio st u <= prio st' u).
Proof.
  intros HI HL Hi Hs Hh Hne. cbv zeta. set (me := current st).
  assert (running me st) as Hrun by done.
  destruct (proj2 HL h Hh) as [Hv _].
  unfold lock_acquire, lock_held_by_current_thread. mstep. rewrite Hi. mstep.
  rewrite Hh, bool_decide_eq_false_2 by congruence. mstep. rewrite bind_unfold.
  fold me.
  destruct (donate_nested_from_running me 9 me (Some l) 0 st HI Hrun eq_refl)
    as [(st1 & Hd & HI1 & Hrun1 & _)|Hd]; [lia|simpl; lia| |left; by rewrite Hd].
  right. rewrite Hd. cbn [run_bind]. mstep.
  assert (state_of (donate_nested 9 me (Some l) 0 st) = Some st1) as Hst1 by (by rewrite Hd).
  pose proof (donate_nested_raises_holder 8 me l 0 st st1 h ltac:(lia) Hh Hst1) as Hraised.
  pose proof (donate_nested_effect _ _ _ _ _ _ Hst1) as Heff.
  pose proof (donation_effect_donor _ _ _ me eq_refl Heff) as Hdonor.
  destruct Heff as (Hh1 & Hc1 & Hi1 & _ & _ & _ & Hv1 & Hu1).
  destruct Hrun1 as [Hcur1 Hs1].
  set (st2 := upd_thread (current st1) (set_wait_lock (Some l)) st1).
  assert (Inv st2) as HI2 by (by apply Inv_set_wait_lock).
  assert (current st2 = me /\ in_intr st2 = false /\ value (semas st2 (LockSema l)) = 0 /\
          status (threads st2 me) = THREAD_RUNNING) as (Hc2 & Hi2 & Hv2 & Hs2).
  { unfold st2. st_simpl. rewrite Hcur1, fn_lookup_insert. st_simpl.
    rewrite Hi1, Hv1. done. }
  unfold sema_down. mstep. rewrite Hi2. mstep. rewrite bind_unfold.
  cbn [sema_down_loop]. rewrite Hv2. simpl Z.eqb. cbv iota.
  unfold sema_down_wait, thread_block. mstep. st_simpl.
  do 2 eexists. split; [reflexivity|].
  fold st2. rewrite Hc2.
  match goal with |- Inv ?x /\ _ => set (st3 := x) end.
  assert (Inv st3) as HI3.
  { unfold st3. rewrite <- Hc2. apply Inv_sema_down_wait; [done|by rewrite Hc2]. }
  split; [exact HI3|].
  assert (LockInv l st1) as HL1.
  { apply (LockInv_ext l st); [by rewrite Hv1|by rewrite Hh1| |done].
    intros t. by destruct (Hu1 t) as (-> & _). }
  split; [unfold st3, st2; rewrite Hcur1; lockinv|].
  assert (forall u, prio st3 u = prio st1 u) as Hp3.
  { intros u. unfold st3, st2. rewrite Hcur1. fields. }
  split; [unfold st3; st_simpl; by rewrite fn_lookup_insert|].
  split.
  { unfold st3. st_simpl. rewrite fn_lookup_insert. st_simpl.
    apply elem_of_list_insert_ordered. by left. }
  split; [unfold st3; st_simpl; rewrite fn_lookup_insert; st_simpl;
          by rewrite fn_lookup_insert|].
  split; [unfold st3, st2; rewrite Hcur1; st_simpl; rewrite fn_lookup_insert; st_simpl;
          rewrite fn_lookup_insert; st_simpl; by rewrite fn_lookup_insert|].
  split; [unfold st3, st2; st_simpl; by rewrite Hh1|].
  split; [by rewrite Hp3|]. split; [by rewrite Hp3|].
  intros u. rewrite Hp3. destruct (Hu1 u) as (_ & _ & _ & [[Hp _]|(Hp & _)]); lia.
Qed.

Lemma X5_lock_acquire_donates_and_blocks_witness :
  Inv donation_state /\ LockInv 0%nat donation_state /\
  in_intr donation_state = false /\
  status (threads donation_state (current donation_state)) = THREAD_RUNNING /\
  holder donation_state 0%nat = Some 0%nat /\ 0%nat <> current donation_state /\
  prio donation_state 0%nat = 31 /\
  exists st' k,
    lock_acquire 1 0%nat donation_state = Susp st' k /\
    status (threads st' 1%nat) = THREAD_BLOCKED /\
    1%nat ∈ waiters (semas st' (LockSema 0%nat)) /\
    40 <= prio st' 0%nat.
Proof.
  unfold donation_state. set (st := cfg_state donation_config).
  assert (Inv st) as HI by exact (reachable_Inv _ reachable_donation_config).
  assert (holder st 0%nat = Some 0%nat) as Hh by (vm_compute; reflexivity).
  assert (current st = 1%nat) as Hc by (vm_compute; reflexivity).
  assert (0%nat <> current st) as Hne by (by rewrite Hc).
  assert (in_intr st = false) as Hi by (vm_compute; reflexivity).
  assert (status (threads st (current st)) = THREAD_RUNNING) as Hs by (vm_compute; reflexivity).
  assert (prio st 1%nat = 40) as Hp by (vm_compute; reflexivity).
  assert (LockInv 0%nat st) as HL.
  { split; [by vm_compute|]. intros t. rewrite Hh. intros [= <-].
    split; [by vm_compute|]. vm_compute. by left. }
  split; [exact HI|]. split; [exact HL|]. split; [exact Hi|]. split; [exact Hs|].
  split; [exact Hh|]. split; [exact Hne|]. split; [by vm_compute|].
  destruct (X5_lock_acquire_donates_and_blocks st 0 0%nat 0%nat HI HL Hi Hs Hh Hne)
    as [Hpanic|(st' & k & Hrun & _ & _ & Hb & Hw & _ & _ & _ & _ & Hraised & _)].
  - exfalso. assert (is_panic (lock_acquire 1 0%nat st) = false) as Hnp
      by (vm_compute; reflexivity).
    by rewrite Hpanic in Hnp.
  - rewrite Hc in Hb, Hw, Hraised. rewrite Hp in Hraised.
    exists st', k. done.
Defined.

(** ** Semaphores *)

(** X6: [sema_down] takes exactly one permit and never takes one that
    is not there.  Outside an interrupt handler, with the counter other
    than 0, it returns at once, without giving up the processor, with the
    counter one less and everything else as it was.  Whenever it
    returns, it found the counter other than 0, in the state it was
    called in or in a state it was resumed in, and returns that state
    with the counter one less: a counter that was positive is not
    negative afterwards. *)
Theorem X6_sema_down_takes_one_permit (s : sema_ref) (st : state) (fuel : nat) :
  (in_intr st = false -> value (semas st s) <> 0 ->
     sema_down fuel s st = Done tt (upd_sema s (fun x => set_value (value x - 1) x) st)) /\
  (forall (R : state -> state -> Prop) st',
     returns R (sema_down fuel s st) tt st' ->
     exists st0,
       (st0 = st \/ exists s0, R s0 st0) /\
       value (semas st0 s) <> 0 /\
       st' = upd_sema s (fun x => set_value (value x - 1) x) st0 /\
       value (semas st' s) = value (semas st0 s) - 1 /\
       waiters (semas st' s) = waiters (semas st0 s) /\
       (0 < value (semas st0 s) -> 0 <= value (semas st' s))).
Proof.
  split.
  - intros Hi Hv. unfold sema_down. mstep. rewrite Hi. mstep. rewrite bind_unfold.
    destruct fuel; cbn [sema_down_loop];
      destruct (Z.eqb_spec (value (semas st s)) 0); done.
  - intros R st' (_ & st0 & Hfrom & Hv & ->)%sema_down_returns.
    exists st0. rewrite semas_upd_sema_eq. st_simpl. repeat split; [done..|lia].
Qed.

Lemma X6_sema_down_takes_one_permit_witness :
  in_intr full_state = false /\ value (semas full_state (SemaAt 0)) <> 0 /\
  exists st',
    sema_down 0 (SemaAt 0) full_state = Done tt st' /\
    returns (fun _ _ => True) (sema_down 0 (SemaAt 0) full_state) tt st' /\
    value (semas st' (SemaAt 0)) = UINT_MAX - 1.
Proof.
  assert (in_intr full_state = false) as Hi by reflexivity.
  assert (value (semas full_state (SemaAt 0)) <> 0) as Hv by (by vm_compute).
  destruct (X6_sema_down_takes_one_permit (SemaAt 0) full_state 0) as [Hnow Hret].
  split; [exact Hi|]. split; [exact Hv|].
  eexists. split; [exact (Hnow Hi Hv)|].
  assert (returns (fun _ _ => True) (sema_down 0 (SemaAt 0) full_state) tt
            (upd_sema (SemaAt 0) (fun x => set_value (value x - 1) x) full_state)) as Hr
    by (rewrite (Hnow Hi Hv); constructor).
  split; [exact Hr|].
  destruct (Hret _ _ Hr) as (st0 & _ & _ & _ & _ & _ & _). by vm_compute.
Defined.

(** X7: a woken waiter checks the counter again.  When [sema_down]
    has put the caller to sleep (the counter was 0), the rest of the
    operation depends on the state the caller is resumed in: if the
    counter is other than 0 it takes a permit and returns; if the counter
    is 0 again (another thread took the permit) the caller is queued on
    the semaphore and blocked once more. *)
Theorem X7_sema_down_rechecks_after_wakeup (s : sema_ref) (st : state) (fuel : nat) :
  in_intr st = false -> value (semas st s) = 0 ->
  exists st1 k,
    sema_down (S (S fuel)) s st = Susp st1 k /\
    (forall st2, value (semas st2 s) <> 0 ->
       k st2 = Done tt (upd_sema s (fun x => set_value (value x - 1) x) st2)) /\
    (forall st2, value (semas st2 s) = 0 ->
       exists st3 k',
         k st2 = Susp st3 k' /\
         current st2 ∈ waiters (semas st3 s) /\
         wait_semaphore (threads st3 (current st2)) = Some s /\
         status (threads st3 (current st2)) = THREAD_BLOCKED /\
         value (semas st3 s) = 0).
Proof.
  intros Hi Hv. unfold sema_down. mstep. rewrite Hi. mstep. rewrite bind_unfold.
  cbn [sema_down_loop]. rewrite Hv. simpl Z.eqb. cbv iota.
  unfold sema_down_wait, thread_block. mstep. st_simpl.
  do 2 eexists. split; [reflexivity|]. split.
  - intros st2 Hv2. mstep. destruct (Z.eqb_spec (value (semas st2 s)) 0); done.
  - intros st2 Hv2. mstep. rewrite Hv2. simpl Z.eqb. cbv iota. mstep. st_simpl.
    do 2 eexists. split; [reflexivity|]. st_simpl.
    rewrite ?fn_lookup_insert. st_simpl. rewrite ?fn_lookup_insert. st_simpl.
    rewrite ?fn_lookup_insert. st_simpl.
    split; [|done]. apply elem_of_list_insert_ordered. by left.
Qed.

Lemma X7_sema_down_rechecks_after_wakeup_witness :
  in_intr boot_state = false /\ value (semas boot_state (SemaAt 0)) = 0 /\
  exists st1 k,
    sema_down 2 (SemaAt 0) boot_state = Susp st1 k /\
    is_susp (k boot_state) = true /\
    state_of (k full_state) = Some (upd_sema (SemaAt 0) (fun x => set_value (value x - 1) x) full_state).
Proof.
  assert (in_intr boot_state = false) as Hi by reflexivity.
  assert (value (semas boot_state (SemaAt 0)) = 0) as Hv by reflexivity.
  split; [exact Hi|]. split; [exact Hv|].
  destruct (X7_sema_down_rechecks_after_wakeup (SemaAt 0) boot_state 0 Hi Hv)
    as (st1 & k & Hrun & Hpos & Hzero).
  exists st1, k. split; [exact Hrun|]. split.
  - destruct (Hzero boot_state Hv) as (st3 & k' & -> & _). reflexivity.
  - rewrite (Hpos full_state); [reflexivity|by vm_compute].
Defined.

(** X8: a permit put in with [sema_up] can be taken out again with
    [sema_try_down].  When [sema_up] returns without a switch of thread
    and the counter was below [UINT_MAX], [sema_try_down] by the same
    thread succeeds and leaves the counter as it was before the up, even
    when the up woke a waiter (the waiter then finds the counter at 0);
    with no waiter the two calls leave the whole state as it was.  At
    [UINT_MAX] the up wraps the counter to 0 and the [sema_try_down]
    fails: the permit is lost. *)
Theorem X8_sema_up_then_try_down (s : sema_ref) (st st1 : state) :
  sema_up s st = Done tt st1 ->
  (0 <= value (semas st s) < UINT_MAX ->
     exists st2,
       sema_try_down s st1 = Done true st2 /\
       value (semas st2 s) = value (semas st s) /\
       waiters (semas st2 s) = tail (waiters (semas st s)) /\
       (waiters (semas st s) = [] ->
          threads st2 = threads st /\ ready_list st2 = ready_list st /\
          (forall s', semas st2 s' = semas st s') /\
          holder st2 = holder st /\ current st2 = current st)) /\
  (value (semas st s) = UINT_MAX -> sema_try_down s st1 = Done false st1).
Proof.
  intros Hup.
  assert (state_of (sema_up s st) = Some st1) as Hst by (by rewrite Hup).
  destruct (sema_up_semas _ _ _ Hst) as [Hs Hother].
  split.
  - intros Hv.
    assert ((value (semas st s) + 1) mod UINT_MODULUS = value (semas st s) + 1) as Hmod.
    { apply Z.mod_small. unfold UINT_MAX in Hv. lia. }
    unfold sema_try_down. mstep. rewrite Hs, Hmod. st_simpl.
    destruct (Z.ltb_spec 0 (value (semas st s) + 1)); [|lia]. mstep.
    eexists. split; [reflexivity|]. rewrite semas_upd_sema_eq, Hs, Hmod. st_simpl.
    split; [lia|]. split; [done|].
    intros Hw. revert Hup. unfold sema_up. mstep. rewrite Hw. mstep.
    unfold priority_yield, thread_yield. destruct (outranked _); [done|].
    intros [= <-]. st_simpl. repeat split; try done.
    intros s'. unfold insert, fn_insert.
    destruct (decide (s = s')) as [<-|]; [|done].
    rewrite !decide_True by done. st_simpl. rewrite Hmod.
    destruct (semas st s) as [v ws]. unfold set_value. st_simpl. f_equal. lia.
  - intros Hv. unfold sema_try_down. mstep. rewrite Hs, Hv. by vm_compute.
Qed.

Lemma X8_sema_up_then_try_down_witness :
  exists st1,
    sema_up (SemaAt 1) donation_state = Done tt st1 /\
    0 <= value (semas donation_state (SemaAt 1)) < UINT_MAX /\
    waiters (semas donation_state (SemaAt 1)) = [] /\
    exists st2,
      sema_try_down (SemaAt 1) st1 = Done true st2 /\
      value (semas st2 (SemaAt 1)) = 0 /\ threads st2 = threads donation_state.
Proof.
  unfold donation_state. set (st := cfg_state donation_config).
  pose (st1 := left_by (sema_up (SemaAt 1) st)).
  assert (sema_up (SemaAt 1) st = Done tt st1) as Hup by (vm_compute; reflexivity).
  assert (0 <= value (semas st (SemaAt 1)) < UINT_MAX) as Hv by (by vm_compute).
  assert (waiters (semas st (SemaAt 1)) = []) as Hw by (vm_compute; reflexivity).
  exists st1. split; [exact Hup|]. split; [exact Hv|]. split; [exact Hw|].
  destruct (X8_sema_up_then_try_down (SemaAt 1) st st1 Hup) as [Hok _].
  destruct (Hok Hv) as (st2 & Htry & Hval & _ & Hsame).
  destruct (Hsame Hw) as (Hthr & _).
  exists st2. split; [exact Htry|]. split; [|exact Hthr].
  rewrite Hval. by vm_compute.
Defined.

(** ** Contracts of the operations that may sleep *)

(** X9: the operations that may sleep stop in an interrupt handler.
    There [sema_down], [lock_acquire], [cond_wait] and [cond_signal]
    halt at the assertion [!intr_context ()] before they change
    anything, and so does [cond_broadcast] when the condition has a
    waiter; in [lock_acquire] this assertion comes before the one on the
    holder.  [sema_try_down] and [lock_try_acquire] make no such check:
    they return as anywhere else. *)
Theorem X9_sleeping_operations_halt_in_interrupt_handler (st : state) :
  in_intr st = true ->
  (forall fuel s, sema_down fuel s st = Panic "!intr_context ()") /\
  (forall fuel l, lock_acquire fuel l st = Panic "!intr_context ()") /\
  (forall fuel c l, cond_wait fuel c l st = Panic "!intr_context ()") /\
  (forall c l, cond_signal c l st = Panic "!intr_context ()") /\
  (forall fuel c l, cond_waiters st c <> [] ->
     cond_broadcast (S fuel) c l st = Panic "!intr_context ()") /\
  (forall s, exists b st', sema_try_down s st = Done b st' /\
     b = (0 <? value (semas st s))) /\
  (forall l, holder st l <> Some (current st) ->
     exists b st', lock_try_acquire l st = Done b st' /\
       b = (0 <? value (semas st (LockSema l)))).
Proof.
  intros Hi. repeat split.
  - intros fuel s. unfold sema_down. mstep. by rewrite Hi.
  - intros fuel l. unfold lock_acquire. mstep. by rewrite Hi.
  - intros fuel c l. unfold cond_wait. mstep. st_simpl. by rewrite Hi.
  - intros c l. unfold cond_signal. mstep. by rewrite Hi.
  - intros fuel c l Hne. cbn [cond_broadcast]. mstep.
    destruct (cond_waiters st c); [done|]. rewrite bind_unfold.
    unfold cond_signal. mstep. by rewrite Hi.
  - intros s. unfold sema_try_down. mstep.
    destruct (0 <? value (semas st s)); mstep; by do 2 eexists.
  - intros l Hh. unfold lock_try_acquire, lock_held_by_current_thread, sema_try_down.
    mstep. rewrite bool_decide_eq_false_2 by done. mstep.
    destruct (0 <? value (semas st (LockSema l))); mstep; by do 2 eexists.
Qed.

Lemma X9_sleeping_operations_halt_in_interrupt_handler_witness :
  in_intr intr_state = true /\
  sema_down 1 (SemaAt 0) intr_state = Panic "!intr_context ()" /\
  lock_acquire 1 0%nat intr_state = Panic "!intr_context ()" /\
  cond_wait 1 0%nat 0%nat intr_state = Panic "!intr_context ()" /\
  holder intr_state 0%nat <> Some (current intr_state) /\
  exists st', lock_try_acquire 0%nat intr_state = Done false st'.
Proof.
  assert (in_intr intr_state = true) as Hi by reflexivity.
  assert (holder intr_state 0%nat <> Some (current intr_state)) as Hh by discriminate.
  destruct (X9_sleeping_operations_halt_in_interrupt_handler intr_state Hi)
    as (Hdown & Hacq & Hwait & _ & _ & _ & Htry).
  split; [exact Hi|]. split; [apply Hdown|]. split; [apply Hacq|]. split; [apply Hwait|].
  split; [exact Hh|].
  destruct (Htry 0%nat Hh) as (b & st' & Hrun & Hb).
  exists st'. rewrite Hrun, Hb. reflexivity.
Defined.

(** X10: the condition operations ask for the lock.  Outside an
    interrupt handler, [cond_wait] and [cond_signal] by a thread that
    does not hold the lock halt at the assertion
    [lock_held_by_current_thread (lock)], and [cond_wait] does so before
    it has queued a waiter.  [cond_broadcast] has no check of its own: it
    halts in the same way when the condition has a waiter, and returns
    with the state as it is when the condition has none, whoever calls
    it. *)
Theorem X10_condition_operations_need_the_lock (st : state) (c : cond_id) (l : lock_id) :
  (in_intr st = false -> holder st l <> Some (current st) ->
     (forall fuel, cond_wait fuel c l st = Panic "lock_held_by_current_thread (lock)") /\
     cond_signal c l st = Panic "lock_held_by_current_thread (lock)" /\
     (cond_waiters st c <> [] -> forall fuel,
        cond_broadcast (S fuel) c l st = Panic "lock_held_by_current_thread (lock)")) /\
  (cond_waiters st c = [] -> forall fuel, cond_broadcast fuel c l st = Done tt st).
Proof.
  split.
  - intros Hi Hh. split; [|split].
    + intros fuel. unfold cond_wait, lock_held_by_current_thread. mstep. st_simpl.
      rewrite Hi. mstep. st_simpl. by rewrite bool_decide_eq_false_2.
    + unfold cond_signal, lock_held_by_current_thread. mstep.
      rewrite Hi. mstep. by rewrite bool_decide_eq_false_2.
    + intros Hne fuel. cbn [cond_broadcast]. mstep.
      destruct (cond_waiters st c); [done|]. rewrite bind_unfold.
      unfold cond_signal, lock_held_by_current_thread. mstep.
      rewrite Hi. mstep. by rewrite bool_decide_eq_false_2.
  - intros He fuel. destruct fuel; cbn [cond_broadcast]; mstep; by rewrite He.
Qed.

Lemma X10_condition_operations_need_the_lock_witness :
  in_intr cond_state = false /\
  holder cond_state 1%nat <> Some (current cond_state) /\
  cond_waiters cond_state 0%nat <> [] /\
  cond_wait 1 0%nat 1%nat cond_state = Panic "lock_held_by_current_thread (lock)" /\
  cond_signal 0%nat 1%nat cond_state = Panic "lock_held_by_current_thread (lock)" /\
  cond_broadcast 1 0%nat 1%nat cond_state = Panic "lock_held_by_current_thread (lock)" /\
  cond_waiters intr_state 0%nat = [] /\
  cond_broadcast 0 0%nat 0%nat intr_state = Done tt intr_state.
Proof.
  unfold cond_state. set (st := cfg_state cond_config).
  assert (in_intr st = false) as Hi by (vm_compute; reflexivity).
  assert (holder st 1%nat <> Some (current st)) as Hh by (by vm_compute).
  assert (cond_waiters st 0%nat <> []) as Hne by (by vm_compute).
  destruct (X10_condition_operations_need_the_lock st 0%nat 1%nat) as [Hpanic _].
  destruct (Hpanic Hi Hh) as (Hwait & Hsig & Hbc).
  destruct (X10_condition_operations_need_the_lock intr_state 0%nat 0%nat) as [_ Hempty].
  split; [exact Hi|]. split; [exact Hh|]. split; [exact Hne|].
  split; [apply Hwait|]. split; [exact Hsig|]. split; [exact (Hbc Hne 0%nat)|].
  split; [reflexivity|]. exact (Hempty eq_refl 0%nat).
Defined.

(** ** Well-formed kernel states *)

(** X11: what every reachable configuration keeps about threads and
    queues.  A thread in the waiter list of a semaphore is blocked,
    records that semaphore in [wait_semaphore], is in that list once, in
    no other semaphore's list and not in the ready list; the ready list
    holds ready threads, once each; no thread but the current one has the
    status running; the counter of every semaphore is within the range
    of [unsigned]; priorities are not negative. *)
Theorem X11_reachable_states_well_formed (c : config) :
  reachable c ->
  let st := cfg_state c in
  (forall s t, t ∈ waiters (semas st s) ->
     status (threads st t) = THREAD_BLOCKED /\
     wait_semaphore (threads st t) = Some s /\
     (t ∉ ready_list st) /\
     forall s', t ∈ waiters (semas st s') -> s' = s) /\
  (forall s, NoDup (waiters (semas st s))) /\
  (forall t, t ∈ ready_list st -> status (threads st t) = THREAD_READY) /\
  NoDup (ready_list st) /\
  (forall t, status (threads st t) = THREAD_RUNNING -> t = current st) /\
  (forall s, 0 <= value (semas st s) <= UINT_MAX) /\
  (forall t, 0 <= priority (threads st t)).
Proof.
  intros HI%reachable_Inv st. fold st in HI.
  destruct HI as [H1 H2 H3 H4 H5 H6 H7 H8 H9 H10 H11].
  split; [|split; [done|split; [done|split; [done|split; [done|split]]]]].
  - intros s t Ht. pose proof (H3 s t Ht) as Hw. pose proof (H4 t s Hw) as Hb.
    split; [done|]. split; [done|]. split.
    + intros Hr%H6. congruence.
    + intros s' Ht'%H3. congruence.
  - intros s. specialize (H9 s). unfold UINT_MAX. lia.
  - intros t. apply H8.
Qed.

Lemma X11_reachable_states_well_formed_witness :
  reachable two_waiters_config /\
  waiters (semas (cfg_state two_waiters_config) (SemaAt 0)) = [1%nat; 0%nat] /\
  status (threads (cfg_state two_waiters_config) 1%nat) = THREAD_BLOCKED /\
  (1%nat ∉ ready_list (cfg_state two_waiters_config)).
Proof.
  pose proof (X11_reachable_states_well_formed _ reachable_two_waiters_config) as (Hw & _).
  assert (waiters (semas (cfg_state two_waiters_config) (SemaAt 0)) = [1%nat; 0%nat]) as Hl
    by (vm_compute; reflexivity).
  split; [apply reachable_two_waiters_config|]. split; [exact Hl|].
  assert (1%nat ∈ waiters (semas (cfg_state two_waiters_config) (SemaAt 0))) as Hin
    by (rewrite Hl; by left).
  destruct (Hw (SemaAt 0) 1%nat Hin) as (Hb & _ & Hr & _). split; [exact Hb|exact Hr].
Defined.

(** ** Taking and giving back a lock *)

Lemma outranked_ext st st' :
  ready_list st' = ready_list st -> current st' = current st ->
  (forall u, priority (threads st' u) = priority (threads st u)) ->
  outranked st' = outranked st.
Proof.
  intros Hr Hc Hp. unfold outranked, priority_higher. rewrite Hr, Hc. clear Hr.
  induction (ready_list st) as [|t r IH]; [done|]. simpl. by rewrite IH, !Hp.
Qed.

(** X12: acquiring a free lock and releasing it is a round trip.  When
    the lock has no holder, its one permit is there, it is in no list of
    held locks, the caller has no donation in effect and no ready thread
    outranks it, [lock_acquire] returns at once with the caller as holder
    and the lock at the end of its list, and [lock_release] then returns
    at once and leaves the state as it was before the two calls, but for
    the caller's [wait_lock], which still names the lock. *)
Theorem X12_lock_acquire_release_round_trip (st : state) (fuel : nat) (l : lock_id) :
  in_intr st = false -> holder st l = None -> semas st (LockSema l) = mkSema 1 [] ->
  (forall u, l ∉ locks (threads st u)) ->
  original_priority (threads st (current st)) = -1 ->
  outranked st = false ->
  let me := current st in
  exists st1 st2,
    lock_acquire fuel l st = Done tt st1 /\
    holder st1 l = Some me /\
    locks (threads st1 me) = locks (threads st me) ++ [l] /\
    semas st1 (LockSema l) = mkSema 0 [] /\
    lock_release l st1 = Done tt st2 /\
    (forall l', holder st2 l' = holder st l') /\
    (forall s, semas st2 s = semas st s) /\
    ready_list st2 = ready_list st /\ current st2 = me /\ in_intr st2 = false /\
    (forall u, u <> me -> threads st2 u = threads st u) /\
    threads st2 me = set_wait_lock (Some l) (threads st me).
Proof.
  intros Hi Hh Hs Hl Ho Hout. cbv zeta.
  assert (exists st1, lock_acquire fuel l st = Done tt st1 /\
            (forall l', holder st1 l' = if decide (l = l') then Some (current st)
                                        else holder st l') /\
            (forall s, semas st1 s = if decide (LockSema l = s) then mkSema 0 []
                                     else semas st s) /\
            (forall u, threads st1 u =
               if decide (current st = u)
               then set_locks (locks (threads st u) ++ [l])
                      (set_wait_lock (Some l) (threads st u))
               else threads st u) /\
            ready_list st1 = ready_list st /\ current st1 = current st /\
            in_intr st1 = false)
    as (st1 & Hacq & Hh1 & Hs1 & Ht1 & Hr1 & Hc1 & Hi1).
  { eexists. split.
    - unfold lock_acquire, lock_held_by_current_thread. mstep. rewrite Hi. mstep.
      rewrite Hh, bool_decide_eq_false_2 by done. mstep.
      rewrite bind_unfold, donate_nested_unfold. simpl Z.eqb. cbv iota. rewrite Hh.
      cbn [run_bind]. mstep. unfold sema_down. mstep. st_simpl. rewrite Hi. mstep.
      rewrite bind_unfold.
      assert (forall x, sema_down_loop fuel (LockSema l) x =
                if value (semas x (LockSema l)) =? 0
                then sema_down_loop fuel (LockSema l) x else Done tt x) as Hloop.
      { intros x. destruct fuel; simpl; by destruct (_ =? _). }
      rewrite Hloop. st_simpl. rewrite Hs. simpl Z.eqb. cbv iota. cbn [run_bind]. mstep.
      reflexivity.
    - split; [intros l'; fields|].
      split; [intros s; st_simpl; unfold insert, fn_insert;
              destruct (decide (LockSema l = s)) as [<-|]; [by rewrite Hs|done]|].
      split; [|split; [done|split; [done|exact Hi]]].
      intros u. st_simpl. unfold insert, fn_insert.
      destruct (decide (current st = u)) as [<-|]; [|done].
      st_simpl. by rewrite !decide_True. }
  assert (forall u, filter (fun x => x <> l) (locks (threads st u)) = locks (threads st u))
    as Hfilter.
  { intros u. specialize (Hl u). induction (locks (threads st u)) as [|x ls IH]; [done|].
    apply not_elem_of_cons in Hl as [Hx Hls]. rewrite filter_cons_True by done.
    by rewrite IH. }
  exists st1.
  assert (exists st2, lock_release l st1 = Done tt st2 /\
            st2 = upd_sema (LockSema l) (fun s => set_value ((value s + 1) mod UINT_MODULUS) s)
                    (with_holder_at l None (list_remove_lock l st1)))
    as (st2 & Hrel & Hst2).
  { eexists. split; [|reflexivity].
    unfold lock_release, lock_held_by_current_thread. mstep.
    rewrite Hh1, decide_True, Hc1, bool_decide_eq_true_2 by done. mstep.
    rewrite bind_unfold, update_thread_priority_run. st_simpl.
    rewrite Hc1, Ht1, decide_True by done. st_simpl. rewrite Ho. simpl Z.eqb. cbv iota.
    cbn [run_bind]. unfold sema_up. mstep. st_simpl.
    rewrite Hs1, decide_True by done. st_simpl. mstep.
    unfold priority_yield.
    match goal with |- (if outranked ?x then _ else _) = _ =>
      replace (outranked x) with false; [reflexivity|]
    end.
    rewrite <- Hout. symmetry. apply outranked_ext; [done|done|].
    intros u. st_simpl. rewrite Ht1. by destruct (decide (current st = u)). }
  exists st2. split; [exact Hacq|].
  split; [by rewrite Hh1, decide_True|].
  split; [rewrite Ht1, decide_True by done; done|].
  split; [by rewrite Hs1, decide_True|].
  split; [exact Hrel|].
  split.
  { intros l'. rewrite Hst2. st_simpl. unfold insert, fn_insert.
    destruct (decide (l = l')) as [<-|Hne]; [done|]. by rewrite Hh1, decide_False. }
  split.
  { intros s. rewrite Hst2. st_simpl. unfold insert, fn_insert.
    destruct (decide (LockSema l = s)) as [<-|Hne]; [|by rewrite Hs1, decide_False].
    rewrite Hs1, decide_True, Hs by done. reflexivity. }
  split; [by rewrite Hst2|]. split; [by rewrite Hst2|]. split; [by rewrite Hst2|].
  split.
  - intros u Hu. rewrite Hst2. st_simpl. rewrite Ht1, decide_False by done.
    rewrite Hfilter. by destruct (threads st u).
  - rewrite Hst2. st_simpl. rewrite Ht1, decide_True by done. st_simpl.
    rewrite filter_app, Hfilter, filter_cons_False, filter_nil, app_nil_r by (by intros []).
    by destruct (threads st (current st)).
Qed.

Lemma X12_lock_acquire_release_round_trip_witness :
  in_intr lone_state = false /\ holder lone_state 0%nat = None /\
  semas lone_state (LockSema 0%nat) = mkSema 1 [] /\
  original_priority (threads lone_state (current lone_state)) = -1 /\
  outranked lone_state = false /\
  exists st1 st2,
    lock_acquire 0 0%nat lone_state = Done tt st1 /\
    holder st1 0%nat = Some 2%nat /\
    lock_release 0%nat st1 = Done tt st2 /\
    holder st2 0%nat = None /\
    wait_lock (threads st2 2%nat) = Some 0%nat.
Proof.
  assert (in_intr lone_state = false) as Hi by (vm_compute; reflexivity).
  assert (holder lone_state 0%nat = None) as Hh by (vm_compute; reflexivity).
  assert (semas lone_state (LockSema 0%nat) = mkSema 1 []) as Hs by (vm_compute; reflexivity).
  assert (forall u, 0%nat ∉ locks (threads lone_state u)) as Hl.
  { intros u. destruct u as [|[|[|u]]]; vm_compute; by intros ?%elem_of_nil. }
  assert (original_priority (threads lone_state (current lone_state)) = -1) as Ho
    by (vm_compute; reflexivity).
  assert (outranked lone_state = false) as Hout by (vm_compute; reflexivity).
  assert (current lone_state = 2%nat) as Hc by (vm_compute; reflexivity).
  split; [exact Hi|]. split; [exact Hh|]. split; [exact Hs|]. split; [exact Ho|].
  split; [exact Hout|].
  destruct (X12_lock_acquire_release_round_trip lone_state 0 0%nat Hi Hh Hs Hl Ho Hout)
    as (st1 & st2 & Hacq & Hh1 & _ & _ & Hrel & Hh2 & _ & _ & _ & _ & _ & Hme).
  rewrite Hc in Hh1, Hme.
  exists st1, st2. split; [exact Hacq|]. split; [exact Hh1|]. split; [exact Hrel|].
  split; [by rewrite Hh2|]. by rewrite Hme.
Defined.

Lemma safe_state_of {A} me (r : run A) st' : safe me r -> state_of r = Some st' -> Inv st'.
Proof.
  intros Hs. destruct Hs as [a st [HI _]|st k HI _| | |]; simpl; intros [= <-]; done.
Qed.

Lemma keeps_lock_state_of {A} l (r : run A) st' :
  keeps_lock l r -> state_of r = Some st' -> LockInv l st'.
Proof.
  intros Hs. destruct Hs as [a st HI|st k HI _| | |]; simpl; intros [= <-]; done.
Qed.

Lemma sema_up_wakes s st st' t rest :
  waiters (semas st s) = t :: rest -> state_of (sema_up s st) = Some st' ->
  status (threads st' t) = THREAD_READY /\ wait_semaphore (threads st' t) = None /\
  t ∈ ready_list st'.
Proof.
  intros Hw. unfold sema_up. mstep. rewrite Hw. unfold thread_unblock. mstep.
  unfold priority_yield, thread_yield. destruct (outranked _); intros [= <-]; st_simpl.
  - split; [|split].
    + unfold insert, fn_insert. destruct (decide (current st = t)); [done|].
      st_simpl. by rewrite decide_True.
    + unfold insert, fn_insert. destruct (decide (current st = t)) as [->|]; st_simpl;
        by rewrite !decide_True.
    + apply elem_of_list_insert_ordered. right. apply elem_of_list_insert_ordered. by left.
  - rewrite !fn_lookup_insert. st_simpl.
    split; [done|]. split; [done|]. apply elem_of_list_insert_ordered. by left.
Qed.

(** X13: [lock_release] by the holder, running in a well-formed state,
    hands the lock over.  In the state it leaves (when it returns or at
    the preemption check of [sema_up]) the lock has no holder and one
    permit, it is no longer in the caller's list of held locks, and no
    other lock has changed hands.  If threads were waiting for the lock,
    the one at the head of the waiter list, whose priority is the highest
    among them, is off the list and ready; it is not made the holder: it
    takes the lock when it runs, if the lock is still free then. *)
Theorem X13_lock_release_hands_over (st : state) (l : lock_id) :
  Inv st -> LockInv l st ->
  status (threads st (current st)) = THREAD_RUNNING ->
  holder st l = Some (current st) ->
  exists st',
    state_of (lock_release l st) = Some st' /\
    Inv st' /\ LockInv l st' /\
    holder st' l = None /\ value (semas st' (LockSema l)) = 1 /\
    (l ∉ locks (threads st' (current st))) /\
    (forall l', l' <> l -> holder st' l' = holder st l') /\
    waiters (semas st' (LockSema l)) = tail (waiters (semas st (LockSema l))) /\
    forall t rest, waiters (semas st (LockSema l)) = t :: rest ->
      status (threads st' t) = THREAD_READY /\
      wait_semaphore (threads st' t) = None /\
      t ∈ ready_list st' /\
      forall u, u ∈ t :: rest -> prio st u <= prio st t.
Proof.
  intros HI HL Hs Hh.
  assert (running (current st) st) as Hrun by done.
  destruct (proj2 HL _ Hh) as [Hv _].
  pose proof (safe_lock_release _ l st HI Hrun) as Hsafe.
  pose proof (klock_lock_release l l st HL) as Hkeep.
  revert Hsafe Hkeep. unfold lock_release, lock_held_by_current_thread. mstep.
  rewrite Hh, bool_decide_eq_true_2 by done. mstep.
  rewrite bind_unfold, update_thread_priority_run. mstep.
  match goal with |- safe _ (sema_up _ ?x) -> _ => set (st2 := x) end.
  intros Hsafe Hkeep.
  assert (semas st2 = semas st /\ holder st2 = <[l := None]> (holder st) /\
          current st2 = current st /\
          forall u, locks (threads st2 u) = filter (fun x => x <> l) (locks (threads st u)))
    as (Hs2 & Hh2 & Hc2 & Hl2).
  { unfold st2. destruct (_ =? _); [repeat split; try done; intros u; fields|].
    destruct (list_max _ _); [destruct (_ <? _)|]; unfold restored;
      repeat split; try done; intros u; fields. }
  destruct (sema_up_leaves_state (LockSema l) st2) as [st' Hst'].
  exists st'. split; [exact Hst'|].
  split; [by eapply safe_state_of|]. split; [by eapply keeps_lock_state_of|].
  destruct (sema_up_frame _ _ _ Hst') as (Hc' & Hh' & _).
  destruct (sema_up_semas _ _ _ Hst') as [Hsem' _].
  destruct (sema_up_keeps_priorities _ _ _ Hst') as [_ Hthr'].
  split; [rewrite Hh', Hh2; apply fn_lookup_insert|].
  split; [rewrite Hsem', Hs2, Hv; reflexivity|].
  split.
  { destruct (Hthr' (current st)) as (_ & _ & _ & Hq). rewrite Hq, Hl2.
    intros [Hne _]%list_elem_of_filter. done. }
  split; [intros l' Hne; rewrite Hh', Hh2; by apply fn_lookup_insert_ne|].
  split; [by rewrite Hsem', Hs2|].
  intros t rest Hw.
  assert (waiters (semas st2 (LockSema l)) = t :: rest) as Hw2 by (by rewrite Hs2).
  destruct (sema_up_wakes _ _ _ _ _ Hw2 Hst') as (H1 & H2 & H3).
  split; [done|]. split; [done|]. split; [done|].
  intros u Hu. apply (descending_head_max (prio st) t rest); [|done].
  rewrite <- Hw. apply (inv_sorted _ HI).
Qed.

Lemma X13_lock_release_hands_over_witness :
  Inv two_locks_state /\ LockInv 0%nat two_locks_state /\
  status (threads two_locks_state (current two_locks_state)) = THREAD_RUNNING /\
  holder two_locks_state 0%nat = Some (current two_locks_state) /\
  waiters (semas two_locks_state (LockSema 0%nat)) = [1%nat] /\
  exists st',
    state_of (lock_release 0%nat two_locks_state) = Some st' /\
    holder st' 0%nat = None /\ value (semas st' (LockSema 0%nat)) = 1 /\
    waiters (semas st' (LockSema 0%nat)) = [] /\
    status (threads st' 1%nat) = THREAD_READY.
Proof.
  unfold two_locks_state. set (st := cfg_state two_locks_config).
  assert (Inv st) as HI by exact (reachable_Inv _ reachable_two_locks_config).
  assert (holder st 0%nat = Some (current st)) as Hh by (vm_compute; reflexivity).
  assert (status (threads st (current st)) = THREAD_RUNNING) as Hs by (vm_compute; reflexivity).
  assert (waiters (semas st (LockSema 0%nat)) = [1%nat]) as Hw by (vm_compute; reflexivity).
  assert (value (semas st (LockSema 0%nat)) = 0) as Hv by (vm_compute; reflexivity).
  assert (holder st 0%nat = Some 2%nat) as Hh2 by (vm_compute; reflexivity).
  assert (locks (threads st 2%nat) = [0%nat; 1%nat]) as Hl by (vm_compute; reflexivity).
  assert (LockInv 0%nat st) as HL.
  { split; [rewrite Hv; lia|]. intros t. rewrite Hh2. intros [= <-].
    split; [exact Hv|]. rewrite Hl. by left. }
  split; [exact HI|]. split; [exact HL|]. split; [exact Hs|]. split; [exact Hh|].
  split; [exact Hw|].
  destruct (X13_lock_release_hands_over st 0%nat HI HL Hs Hh)
    as (st' & Hst' & _ & _ & Hh' & Hv' & _ & _ & Hw' & Hwake).
  destruct (Hwake 1%nat [] Hw) as (Hready & _).
  exists st'. split; [exact Hst'|]. split; [exact Hh'|]. split; [exact Hv'|].
  split; [by rewrite Hw', Hw|exact Hready].
Defined.

(** ** Nested donation along a chain *)

Lemma waiting_chain_ext st st' l hs :
  holder st' = holder st ->
  (forall u, status (threads st' u) = status (threads st u) /\
             wait_lock (threads st' u) = wait_lock (threads st u)) ->
  waiting_chain st l hs -> waiting_chain st' l hs.
Proof.
  intros Hh Hu. revert l. induction hs as [|h rest IH]; intros l; [done|].
  simpl. intros (H1 & H2 & H3). rewrite Hh. destruct (Hu h) as [-> ->].
  split; [done|]. split; [done|]. destruct rest as [|h2 rest]; [done|].
  destruct H3 as (l' & Hl' & Hc). exists l'. split; [done|]. by apply IH.
Qed.

Lemma donate_nested_along_chain hs : forall fuel a l d st st',
  NoDup hs -> (length hs <= Z.to_nat (8 - d))%nat ->
  (forall h, h ∈ hs -> prio st h < prio st a) ->
  waiting_chain st l hs ->
  state_of (donate_nested fuel a (Some l) d st) = Some st' ->
  forall h, h ∈ hs -> prio st' h = prio st a.
Proof.
  induction hs as [|h rest IH]; intros fuel a l d st st' Hnd Hlen Hlow Hchain Hst u Hu.
  { by apply elem_of_nil in Hu. }
  destruct fuel as [|fuel]; [done|].
  apply NoDup_cons in Hnd as [Hh Hnd].
  simpl in Hchain. destruct Hchain as (Hhold & Hnr & Hnext).
  simpl in Hlen. revert Hst. rewrite donate_nested_unfold.
  destruct (Z.eqb_spec d 8) as [->|Hd]; [simpl in Hlen; lia|].
  rewrite Hhold.
  assert (prio st h < prio st a) as Hlt by (apply Hlow; by left).
  destruct (Z.ltb_spec (prio st h) (prio st a)); [|lia].
  set (st2 := requeued_if_waiting h (donated h a st)).
  assert (forall v, prio st2 v = if decide (h = v) then prio st a else prio st v) as Hp2.
  { intros v. destruct (donated_fields h a st v) as (_ & _ & _ & _ & <- & _).
    unfold st2, prio. by rewrite requeued_if_waiting_fields. }
  assert (prio st2 h = prio st a) as Hph by (by rewrite Hp2, decide_True).
  intros Hst.
  assert (state_of (donate_nested fuel h (wait_lock (threads st h)) (d + 1) st2) = Some st')
    as Hrec by (destruct (status (threads st h)); done).
  clear Hst.
  pose proof (donate_nested_effect _ _ _ _ _ _ Hrec) as Heff. rewrite Hph in Heff.
  apply elem_of_cons in Hu as [->|Hu].
  - destruct Heff as (_ & _ & _ & _ & _ & _ & _ & Hall).
    destruct (Hall h) as (_ & _ & _ & [[Hp _]|(_ & Hp & _)]); lia.
  - destruct rest as [|h2 rest]; [by apply elem_of_nil in Hu|].
    destruct Hnext as (l' & Hwl & Hchain'). rewrite Hwl in Hrec.
    rewrite <- Hph. apply (IH fuel h l' (d + 1) st2 st'); [done|simpl in *; lia| | |done|done].
    + intros v Hv. rewrite Hph, Hp2, decide_False by (intros ->; done).
      apply Hlow. by right.
    + apply (waiting_chain_ext st); [| |done].
      * pose proof (donation_effect_step (prio st a) h a st Hlt eq_refl) as (E & _). exact E.
      * intros v. unfold st2. rewrite requeued_if_waiting_fields.
        by destruct (donated_fields h a st v) as (-> & _ & -> & _).
Qed.

(** X14: nested donation reaches every holder along the chain.  When
    the lock is held by a thread that does not run and waits for a lock
    held by a second such thread, and so on along a chain of up to
    [8 - depth] different holders, all of lower priority than the donor,
    then in the state [donate_nested] leaves every holder of the chain
    has the donor's priority. *)
Theorem X14_nested_donation_reaches_chain (st st' : state) (fuel : nat) (a : tid)
    (l : lock_id) (d : Z) (hs : list tid) :
  NoDup hs -> (length hs <= Z.to_nat (8 - d))%nat ->
  (forall h, h ∈ hs -> prio st h < prio st a) ->
  waiting_chain st l hs ->
  state_of (donate_nested fuel a (Some l) d st) = Some st' ->
  (forall h, h ∈ hs -> prio st' h = prio st a) /\ prio st' a = prio st a.
Proof.
  intros Hnd Hlen Hlow Hchain Hst. split.
  - by eapply donate_nested_along_chain.
  - eapply donation_effect_donor; [reflexivity|]. by eapply donate_nested_effect.
Qed.

Lemma X14_nested_donation_reaches_chain_witness :
  NoDup [1%nat; 2%nat] /\
  waiting_chain cyclic_state 0%nat [1%nat; 2%nat] /\
  prio cyclic_state 0%nat = 31 /\ prio cyclic_state 1%nat = 10 /\
  prio cyclic_state 2%nat = 20 /\
  exists st',
    state_of (donate_nested 9 0%nat (Some 0%nat) 0 cyclic_state) = Some st' /\
    prio st' 1%nat = 31 /\ prio st' 2%nat = 31 /\ prio st' 0%nat = 31.
Proof.
  assert (NoDup [1%nat; 2%nat]) as Hnd.
  { apply NoDup_cons. split; [by intros ?%list_elem_of_singleton|].
    apply NoDup_cons. split; [by intros ?%elem_of_nil|constructor]. }
  assert (waiting_chain cyclic_state 0%nat [1%nat; 2%nat]) as Hchain.
  { simpl. split; [done|]. split; [done|]. exists 1%nat. done. }
  assert (forall h, h ∈ [1%nat; 2%nat] -> prio cyclic_state h < prio cyclic_state 0%nat) as Hlow.
  { intros h [->|[->|[]%elem_of_nil]%elem_of_cons]%elem_of_cons; by vm_compute. }
  pose (st' := left_by (donate_nested 9 0%nat (Some 0%nat) 0 cyclic_state)).
  assert (state_of (donate_nested 9 0%nat (Some 0%nat) 0 cyclic_state) = Some st') as Hst
    by (vm_compute; reflexivity).
  split; [exact Hnd|]. split; [exact Hchain|].
  split; [reflexivity|]. split; [reflexivity|]. split; [reflexivity|].
  destruct (X14_nested_donation_reaches_chain cyclic_state st' 9 0%nat 0%nat 0 [1%nat; 2%nat]
              Hnd ltac:(simpl; lia) Hlow Hchain Hst) as [Hall Hdonor].
  exists st'. split; [exact Hst|].
  split; [apply Hall; by left|]. split; [apply Hall; right; by left|exact Hdonor].
Defined.

(** ** Signalling a condition *)

(** X15: [cond_signal] wakes the waiter at the head of the list and
    keeps the lock.  In the state it leaves, the thread blocked on the
    semaphore of that waiter is ready, with [wait_semaphore] cleared, and
    the signaller is still the holder of the lock, which is still in its
    list of held locks.  If the waiting thread has not yet blocked (it
    gave up the processor in [lock_release]), the signal is not lost:
    the counter of the waiter's semaphore goes from 0 to 1, and the
    [sema_down] of the waiter returns at once when it gets there. *)
Theorem X15_cond_signal_wakes_head_waiter (st st' : state) (c : cond_id) (l : lock_id)
    (w : waiter_id) (rest : list waiter_id) :
  in_intr st = false -> holder st l = Some (current st) ->
  cond_waiters st c = w :: rest ->
  state_of (cond_signal c l st) = Some st' ->
  cond_waiters st' c = rest /\
  holder st' = holder st /\ current st' = current st /\
  locks (threads st' (current st)) = locks (threads st (current st)) /\
  (forall t ts, waiters (semas st (WaiterSema w)) = t :: ts ->
     status (threads st' t) = THREAD_READY /\
     wait_semaphore (threads st' t) = None /\
     t ∈ ready_list st') /\
  (waiters (semas st (WaiterSema w)) = [] -> value (semas st (WaiterSema w)) = 0 ->
     value (semas st' (WaiterSema w)) = 1 /\
     forall fuel st2,
       in_intr st2 = false -> semas st2 (WaiterSema w) = semas st' (WaiterSema w) ->
       sema_down fuel (WaiterSema w) st2 =
         Done tt (upd_sema (WaiterSema w) (fun x => set_value (value x - 1) x) st2)).
Proof.
  intros Hi Hh Hl. rewrite (cond_signal_run c l st w rest Hi Hh Hl). intros Hst'.
  destruct (sema_up_frame _ _ _ Hst') as (Hc' & Hh' & Hcw' & _).
  destruct (sema_up_keeps_priorities _ _ _ Hst') as [_ Hthr'].
  destruct (sema_up_semas _ _ _ Hst') as [Hsem' _].
  split; [rewrite Hcw'; st_simpl; apply fn_lookup_insert|].
  split; [by rewrite Hh'|]. split; [by rewrite Hc'|].
  split; [by destruct (Hthr' (current st)) as (_ & _ & _ & ->)|].
  split.
  - intros t ts Hw.
    exact (sema_up_wakes (WaiterSema w) (with_cond_waiters_at c rest st) st' t ts Hw Hst').
  - intros Hw Hv.
    assert (value (semas st' (WaiterSema w)) = 1) as Hv'.
    { rewrite Hsem'. st_simpl. rewrite Hv. reflexivity. }
    split; [exact Hv'|].
    intros fuel st2 Hi2 Hs2. unfold sema_down. mstep. rewrite Hi2. mstep. rewrite bind_unfold.
    destruct fuel; cbn [sema_down_loop]; rewrite Hs2, Hv'; reflexivity.
Qed.

Lemma X15_cond_signal_wakes_head_waiter_witness :
  in_intr cond_state = false /\ holder cond_state 0%nat = Some (current cond_state) /\
  cond_waiters cond_state 0%nat = [1%nat; 0%nat] /\
  waiters (semas cond_state (WaiterSema 1%nat)) = [1%nat] /\
  status (threads cond_state 1%nat) = THREAD_BLOCKED /\
  exists st',
    state_of (cond_signal 0%nat 0%nat cond_state) = Some st' /\
    cond_waiters st' 0%nat = [0%nat] /\
    status (threads st' 1%nat) = THREAD_READY /\
    holder st' 0%nat = Some 2%nat.
Proof.
  unfold cond_state. set (st := cfg_state cond_config).
  assert (in_intr st = false) as Hi by (vm_compute; reflexivity).
  assert (holder st 0%nat = Some (current st)) as Hh by (vm_compute; reflexivity).
  assert (holder st 0%nat = Some 2%nat) as Hh2 by (vm_compute; reflexivity).
  assert (cond_waiters st 0%nat = [1%nat; 0%nat]) as Hl by (vm_compute; reflexivity).
  assert (waiters (semas st (WaiterSema 1%nat)) = [1%nat]) as Hw by (vm_compute; reflexivity).
  assert (status (threads st 1%nat) = THREAD_BLOCKED) as Hb by (vm_compute; reflexivity).
  split; [exact Hi|]. split; [exact Hh|]. split; [exact Hl|]. split; [exact Hw|].
  split; [exact Hb|].
  destruct (sema_up_leaves_state (WaiterSema 1%nat) (with_cond_waiters_at 0%nat [0%nat] st))
    as [st' Hst'].
  rewrite <- (cond_signal_run 0%nat 0%nat st 1%nat [0%nat] Hi Hh Hl) in Hst'.
  destruct (X15_cond_signal_wakes_head_waiter st st' 0%nat 0%nat 1%nat [0%nat] Hi Hh Hl Hst')
    as (Hcw & Hhold & _ & _ & Hwake & _).
  destruct (Hwake 1%nat [] Hw) as (Hready & _).
  exists st'. split; [exact Hst'|]. split; [exact Hcw|]. split; [exact Hready|].
  by rewrite Hhold.
Defined.

(** ** The helper of the self-test *)

Lemma sema_down_permit fuel s st :
  in_intr st = false -> value (semas st s) <> 0 ->
  sema_down fuel s st = Done tt (upd_sema s (fun x => set_value (value x - 1) x) st).
Proof.
  intros Hi Hv. unfold sema_down. mstep. rewrite Hi. mstep. rewrite bind_unfold.
  destruct fuel; cbn [sema_down_loop]; destruct (Z.eqb_spec (value (semas st s)) 0); done.
Qed.

Lemma sema_up_no_waiter s st :
  waiters (semas st s) = [] -> outranked st = false ->
  sema_up s st =
    Done tt (upd_sema s (fun x => set_value ((value x + 1) mod UINT_MODULUS) x) st).
Proof.
  intros Hw Hout. unfold sema_up. mstep. rewrite Hw. mstep.
  unfold priority_yield. rewrite (outranked_ext st) by done. by rewrite Hout.
Qed.

Lemma sema_test_helper_loop_run n : forall fuel sema st,
  in_intr st = false -> outranked st = false ->
  Z.of_nat n <= value (semas st (SemaAt sema)) ->
  waiters (semas st (SemaAt (S sema))) = [] ->
  0 <= value (semas st (SemaAt (S sema))) ->
  value (semas st (SemaAt (S sema))) + Z.of_nat n <= UINT_MAX ->
  exists st',
    sema_test_helper_loop n fuel sema st = Done tt st' /\
    threads st' = threads st /\ ready_list st' = ready_list st /\
    current st' = current st /\ holder st' = holder st /\ in_intr st' = false /\
    value (semas st' (SemaAt sema)) = value (semas st (SemaAt sema)) - Z.of_nat n /\
    waiters (semas st' (SemaAt sema)) = waiters (semas st (SemaAt sema)) /\
    value (semas st' (SemaAt (S sema))) = value (semas st (SemaAt (S sema))) + Z.of_nat n /\
    waiters (semas st' (SemaAt (S sema))) = [] /\
    forall s, s <> SemaAt sema -> s <> SemaAt (S sema) -> semas st' s = semas st s.
Proof.
  induction n as [|n IH]; intros fuel sema st Hi Hout Hv0 Hw1 Hv1 Hmax.
  { exists st. simpl. rewrite Z.sub_0_r, Z.add_0_r. repeat split; done. }
  assert (SemaAt sema <> SemaAt (S sema)) as Hne by (intros [= H]; lia).
  cbn [sema_test_helper_loop]. mstep. rewrite bind_unfold.
  rewrite sema_down_permit by (done || lia). cbn [run_bind]. rewrite bind_unfold.
  set (sta := upd_sema (SemaAt sema) (fun x => set_value (value x - 1) x) st).
  assert (semas sta (SemaAt (S sema)) = semas st (SemaAt (S sema))) as Ha1.
  { unfold sta. by rewrite semas_upd_sema, decide_False. }
  rewrite sema_up_no_waiter by (by rewrite ?Ha1). cbn [run_bind].
  set (stb := upd_sema (SemaAt (S sema))
                (fun x => set_value ((value x + 1) mod UINT_MODULUS) x) sta).
  assert ((value (semas st (SemaAt (S sema))) + 1) mod UINT_MODULUS =
          value (semas st (SemaAt (S sema))) + 1) as Hmod.
  { apply Z.mod_small. unfold UINT_MAX in Hmax. lia. }
  assert (semas stb (SemaAt (S sema)) = mkSema (value (semas st (SemaAt (S sema))) + 1) []
          /\ semas stb (SemaAt sema) =
               mkSema (value (semas st (SemaAt sema)) - 1) (waiters (semas st (SemaAt sema)))
          /\ forall s, s <> SemaAt sema -> s <> SemaAt (S sema) -> semas stb s = semas st s)
    as (Hb1 & Hb0 & Hbs).
  { unfold stb. split; [|split].
    - rewrite semas_upd_sema_eq, Ha1. unfold set_value. by rewrite Hmod, Hw1.
    - rewrite semas_upd_sema, decide_False by done. unfold sta. by rewrite semas_upd_sema_eq.
    - intros s H0 H1. rewrite semas_upd_sema, decide_False by done.
      unfold sta. by rewrite semas_upd_sema, decide_False. }
  destruct (IH fuel sema stb) as (st' & Hrun & Ht & Hr & Hc & Hh & Hi' & E0 & W0 & E1 & W1 & Es).
  - exact Hi.
  - exact Hout.
  - rewrite Hb0. st_simpl. lia.
  - by rewrite Hb1.
  - rewrite Hb1. st_simpl. lia.
  - rewrite Hb1. st_simpl. lia.
  - exists st'. split; [exact Hrun|]. rewrite Hb0 in E0, W0. rewrite Hb1 in E1.
    st_simpl. repeat split; try done; try lia.
    intros s H0 H1. rewrite Es by done. by apply Hbs.
Qed.

(** X16: left alone, the helper of the self-test moves ten permits.
    Called outside an interrupt handler when [sema[0]] has at least ten
    permits, [sema[1]] has no waiter and room for ten more, and no ready
    thread outranks the caller, [sema_test_helper] returns without giving
    up the processor; it has taken ten permits from [sema[0]] and put ten
    into [sema[1]], and has changed nothing else. *)
Theorem X16_sema_test_helper_moves_ten_permits (st : state) (fuel : nat) (sema : nat) :
  in_intr st = false -> outranked st = false ->
  10 <= value (semas st (SemaAt sema)) ->
  waiters (semas st (SemaAt (S sema))) = [] ->
  0 <= value (semas st (SemaAt (S sema))) <= UINT_MAX - 10 ->
  exists st',
    sema_test_helper fuel sema st = Done tt st' /\
    value (semas st' (SemaAt sema)) = value (semas st (SemaAt sema)) - 10 /\
    waiters (semas st' (SemaAt sema)) = waiters (semas st (SemaAt sema)) /\
    semas st' (SemaAt (S sema)) = mkSema (value (semas st (SemaAt (S sema))) + 10) [] /\
    (forall s, s <> SemaAt sema -> s <> SemaAt (S sema) -> semas st' s = semas st s) /\
    threads st' = threads st /\ ready_list st' = ready_list st /\
    current st' = current st /\ holder st' = holder st.
Proof.
  intros Hi Hout Hv0 Hw1 Hv1.
  destruct (sema_test_helper_loop_run 10 fuel sema st Hi Hout)
    as (st' & Hrun & Ht & Hr & Hc & Hh & _ & E0 & W0 & E1 & W1 & Es);
    [simpl; lia|done|lia|simpl; lia|].
  exists st'. split; [exact Hrun|]. split; [exact E0|]. split; [exact W0|].
  split; [|done].
  destruct (semas st' (SemaAt (S sema))) as [v ws]. st_simpl. by rewrite E1, W1.
Qed.

Lemma X16_sema_test_helper_moves_ten_permits_witness :
  in_intr helper_state = false /\ outranked helper_state = false /\
  value (semas helper_state (SemaAt 4)) = 10 /\
  semas helper_state (SemaAt 5) = mkSema 0 [] /\
  exists st',
    sema_test_helper 0 4 helper_state = Done tt st' /\
    value (semas st' (SemaAt 4)) = 0 /\ semas st' (SemaAt 5) = mkSema 10 [].
Proof.
  assert (in_intr helper_state = false) as Hi by (vm_compute; reflexivity).
  assert (outranked helper_state = false) as Hout by (vm_compute; reflexivity).
  assert (value (semas helper_state (SemaAt 4)) = 10) as Hv0 by (vm_compute; reflexivity).
  assert (semas helper_state (SemaAt 5) = mkSema 0 []) as Hs1 by (vm_compute; reflexivity).
  split; [exact Hi|]. split; [exact Hout|]. split; [exact Hv0|]. split; [exact Hs1|].
  destruct (X16_sema_test_helper_moves_ten_permits helper_state 0 4 Hi Hout)
    as (st' & Hrun & E0 & _ & E1 & _).
  - rewrite Hv0. lia.
  - by rewrite Hs1.
  - rewrite Hs1. by vm_compute.
  - exists st'. split; [exact Hrun|]. rewrite E0, E1, Hv0, Hs1. done.
Defined.

(** X17: the donation of [lock_acquire] never reorders the ready list.
    Called as [lock_acquire] calls it, by the running thread at depth 0
    in a well-formed state, [donate_nested] returns without giving up the
    processor (or halts on a null [wait_lock]): the branch for a running
    holder, the only one that sorts the ready list and checks for
    preemption, is never taken.  The state stays well-formed, the holder
    of the lock ends with at least the caller's priority, and the ready
    list is exactly as it was; so a ready holder whose priority was
    raised keeps its old place among the ready threads. *)
Theorem X17_donation_leaves_ready_list (st : state) (l : lock_id) :
  Inv st -> status (threads st (current st)) = THREAD_RUNNING ->
  let me := current st in
  donate_nested 9 me (Some l) 0 st = Panic "donate_nested: l->holder with l == NULL" \/
  exists st',
    donate_nested 9 me (Some l) 0 st = Done tt st' /\
    Inv st' /\ ready_list st' = ready_list st /\
    current st' = me /\ status (threads st' me) = THREAD_RUNNING /\
    prio st' me = prio st me /\
    forall h, holder st l = Some h -> prio st me <= prio st' h.
Proof.
  intros HI Hs. cbv zeta.
  assert (running (current st) st) as Hrun by done.
  destruct (donate_nested_from_running (current st) 9 (current st) (Some l) 0 st HI Hrun eq_refl)
    as [(st' & Hd & HI' & [Hc' Hs'] & Hr')|Hd]; [lia|simpl; lia| |by left].
  right. exists st'.
  assert (state_of (donate_nested 9 (current st) (Some l) 0 st) = Some st') as Hst
    by (by rewrite Hd).
  split; [done|]. split; [done|]. split; [done|]. split; [done|]. split; [done|].
  split.
  - eapply donation_effect_donor; [reflexivity|]. by eapply donate_nested_effect.
  - intros h Hh. by eapply (donate_nested_raises_holder 8 _ l 0 st st' h).
Qed.

Lemma X17_donation_leaves_ready_list_witness :
  reachable ready_holder_config /\
  current ready_holder_state = 1%nat /\
  holder ready_holder_state 0%nat = Some 2%nat /\
  ready_list ready_holder_state = [0%nat; 2%nat] /\
  descending (prio ready_holder_state) (ready_list ready_holder_state) /\
  exists st',
    donate_nested 9 1%nat (Some 0%nat) 0 ready_holder_state = Done tt st' /\
    ready_list st' = [0%nat; 2%nat] /\
    prio st' 0%nat = 31 /\ 40 <= prio st' 2%nat /\
    ~ descending (prio st') (ready_list st').
Proof.
  unfold ready_holder_state. set (st := cfg_state ready_holder_config).
  assert (Inv st) as HI by exact (reachable_Inv _ reachable_ready_holder_config).
  assert (current st = 1%nat) as Hc by (vm_compute; reflexivity).
  assert (status (threads st (current st)) = THREAD_RUNNING) as Hs by (vm_compute; reflexivity).
  assert (holder st 0%nat = Some 2%nat) as Hh by (vm_compute; reflexivity).
  assert (ready_list st = [0%nat; 2%nat]) as Hr by (vm_compute; reflexivity).
  assert (prio st 1%nat = 40) as Hp1 by (vm_compute; reflexivity).
  assert (prio st 0%nat = 31) as Hp0 by (vm_compute; reflexivity).
  assert (prio st 2%nat = 20) as Hp2 by (vm_compute; reflexivity).
  assert (is_panic (donate_nested 9 (1%nat : tid) (Some (0%nat : lock_id)) 0 st) = false)
    as Hnp by (vm_compute; reflexivity).
  assert (prio (left_by (donate_nested 9 (1%nat : tid) (Some (0%nat : lock_id)) 0 st)) 0%nat
          = 31) as Hp0' by (vm_compute; reflexivity).
  split; [apply reachable_ready_holder_config|]. split; [exact Hc|]. split; [exact Hh|].
  split; [exact Hr|]. split.
  { rewrite Hr. apply descending_cons. split.
    - apply descending_cons. split; [constructor|constructor].
    - constructor; [lia|constructor]. }
  destruct (X17_donation_leaves_ready_list st 0%nat HI Hs)
    as [Hpanic|(st' & Hd & _ & Hr' & _ & _ & _ & Hraised)].
  - exfalso. rewrite Hc in Hpanic. rewrite Hpanic in Hnp. discriminate Hnp.
  - rewrite Hc in Hd, Hraised. rewrite Hr in Hr'. rewrite Hp1 in Hraised.
    rewrite Hd in Hp0'. change (prio st' 0%nat = 31) in Hp0'.
    exists st'. split; [exact Hd|]. split; [exact Hr'|]. split; [exact Hp0'|].
    split; [exact (Hraised 2%nat Hh)|].
    rewrite Hr'. intros [_ Hall]%descending_cons.
    apply Forall_cons in Hall as [Hle _]. specialize (Hraised 2%nat Hh). lia.
Defined.

(** ** A recorded priority is below the current one *)

Lemma DonationInv_ext st st' :
  (forall t, priority (threads st' t) = priority (threads st t) /\
             original_priority (threads st' t) = original_priority (threads st t)) ->
  DonationInv st -> DonationInv st'.
Proof. intros Hf H t. destruct (Hf t) as [-> ->]. apply H. Qed.

Ltac doninv :=
  match goal with
  | H : DonationInv _ |- DonationInv _ =>
      solve [apply (DonationInv_ext _ _) with (2 := H); intros ?; split; fields]
  end.

Lemma kdon_Done {A} (a : A) st : DonationInv st -> keeps_donations (Done a st).
Proof. intros. by apply preserves_Done. Qed.

Lemma kdon_bind {A B} (r : run A) (f : A -> M B) :
  keeps_donations r ->
  (forall a st, DonationInv st -> keeps_donations (f a st)) ->
  keeps_donations (run_bind r f).
Proof. intros Hr Hf. eapply preserves_bind; [exact Hr|]. intros a st H. by apply Hf. Qed.

Lemma kdon_priority_yield st : DonationInv st -> keeps_donations (priority_yield st).
Proof.
  intros H. unfold priority_yield, thread_yield.
  destruct (outranked st); [|by apply kdon_Done].
  apply preserves_Susp; [doninv|]. intros st' H'. by apply kdon_Done.
Qed.

Lemma kdon_sema_down_loop fuel s st :
  DonationInv st -> keeps_donations (sema_down_loop fuel s st).
Proof.
  revert st. induction fuel as [|fuel IH]; intros st H; simpl.
  - destruct (value (semas st s) =? 0); [constructor|by apply kdon_Done].
  - destruct (value (semas st s) =? 0); [|by apply kdon_Done].
    unfold sema_down_wait, thread_block. mstep. st_simpl.
    apply preserves_Susp; [doninv|]. intros st' H'. mstep. by apply IH.
Qed.

Lemma kdon_sema_down fuel s st : DonationInv st -> keeps_donations (sema_down fuel s st).
Proof.
  intros H. unfold sema_down. mstep. destruct (in_intr st); mstep; [constructor|].
  apply kdon_bind; [by apply kdon_sema_down_loop|].
  intros [] st1 H1. mstep. apply kdon_Done. doninv.
Qed.

Lemma kdon_sema_try_down s st : DonationInv st -> keeps_donations (sema_try_down s st).
Proof.
  intros H. unfold sema_try_down. mstep.
  destruct (0 <? value (semas st s)); mstep; apply kdon_Done; [doninv|done].
Qed.

Lemma kdon_sema_up s st : DonationInv st -> keeps_donations (sema_up s st).
Proof.
  intros H. unfold sema_up. mstep.
  destruct (waiters (semas st s)) as [|t rest]; unfold thread_unblock; mstep;
    apply kdon_priority_yield; doninv.
Qed.

Lemma DonationInv_effect p st st' : donation_effect p st st' -> DonationInv st -> DonationInv st'.
Proof.
  intros (_ & _ & _ & _ & _ & _ & _ & Hu) H t.
  destruct (Hu t) as (_ & _ & _ & [[Hp Ho]|(Hlt & Hp & Ho)]).
  - unfold prio in Hp. rewrite Hp, Ho. apply H.
  - rewrite Ho. unfold prio in *.
    destruct (Z.eqb_spec (original_priority (threads st t)) (-1)) as [He|Hne].
    + intros _. lia.
    + intros _. specialize (H t Hne). lia.
Qed.

Lemma kdon_donate_nested fuel a l d st :
  DonationInv st -> keeps_donations (donate_nested fuel a l d st).
Proof.
  revert a l d st. induction fuel as [|fuel IH]; intros a l d st H; [constructor|].
  rewrite donate_nested_unfold.
  destruct (d =? 8); [by apply kdon_Done|].
  destruct l as [l0|]; [|constructor].
  destruct (holder st l0) as [h|]; [|by apply kdon_Done].
  destruct (Z.ltb_spec (prio st h) (prio st a)) as [Hlt|]; [|by apply kdon_Done].
  pose proof (DonationInv_effect _ _ _ (donation_effect_donated _ h a st Hlt eq_refl) H) as H1.
  pose proof (DonationInv_effect _ _ _ (donation_effect_step _ h a st Hlt eq_refl) H) as H2.
  destruct (status (threads st h)); [|by apply IH..].
  rewrite update_ready_list_run.
  destruct (linked h (donated h a st)); [|constructor]. apply kdon_priority_yield.
  unfold reinserted_ready. doninv.
Qed.

Lemma kdon_update_thread_priority st :
  DonationInv st -> keeps_donations (update_thread_priority st).
Proof.
  intros H. rewrite update_thread_priority_run. apply kdon_Done.
  destruct (Z.eqb_spec (original_priority (threads st (current st))) (-1)); [done|].
  assert (DonationInv (restored (current st) st)) as Hrestored.
  { intros t. destruct (decide (current st = t)) as [<-|Hne].
    - by destruct (restored_fields (current st) st) as [_ ->].
    - assert (threads (restored (current st) st) t = threads st t) as -> by (unfold restored; fields).
      apply H. }
  destruct (list_max _ _) as [max_lock|]; [|done].
  destruct (Z.ltb_spec (original_priority (threads st (current st)))
              (max_waiter_priority st max_lock)); [|done].
  intros t. rewrite threads_upd_thread.
  destruct (decide (current st = t)) as [<-|]; [|apply H]. st_simpl. done.
Qed.

Lemma kdon_lock_acquire fuel l st : DonationInv st -> keeps_donations (lock_acquire fuel l st).
Proof.
  intros H. unfold lock_acquire, lock_held_by_current_thread. mstep.
  destruct (in_intr st); mstep; [constructor|].
  destruct (bool_decide _); mstep; [constructor|].
  apply kdon_bind; [by apply kdon_donate_nested|].
  intros [] st1 H1. mstep.
  apply kdon_bind; [apply kdon_sema_down; doninv|].
  intros [] st2 H2. mstep. apply kdon_Done. doninv.
Qed.

Lemma kdon_lock_try_acquire l st : DonationInv st -> keeps_donations (lock_try_acquire l st).
Proof.
  intros H. unfold lock_try_acquire, lock_held_by_current_thread. mstep.
  destruct (bool_decide _); mstep; [constructor|].
  apply kdon_bind; [by apply kdon_sema_try_down|].
  intros success st1 H1. destruct success; mstep; apply kdon_Done; [doninv|done].
Qed.

Lemma kdon_lock_release l st : DonationInv st -> keeps_donations (lock_release l st).
Proof.
  intros H. unfold lock_release, lock_held_by_current_thread. mstep.
  destruct (bool_decide _); mstep; [|constructor].
  apply kdon_bind; [apply kdon_update_thread_priority; doninv|].
  intros [] st1 H1. by apply kdon_sema_up.
Qed.

Lemma kdon_cond_signal c l st : DonationInv st -> keeps_donations (cond_signal c l st).
Proof.
  intros H. unfold cond_signal, lock_held_by_current_thread. mstep.
  destruct (in_intr st); mstep; [constructor|].
  destruct (bool_decide _); mstep; [|constructor].
  destruct (cond_waiters st c); mstep; [by apply kdon_Done|].
  apply kdon_sema_up. doninv.
Qed.

Lemma kdon_cond_wait fuel c l st : DonationInv st -> keeps_donations (cond_wait fuel c l st).
Proof.
  intros H. unfold cond_wait, lock_held_by_current_thread. mstep. st_simpl.
  destruct (in_intr st); mstep; st_simpl; [constructor|].
  destruct (bool_decide _); mstep; [|constructor].
  unfold sema_init. mstep.
  apply kdon_bind; [apply kdon_lock_release; doninv|].
  intros [] st1 H1. apply kdon_bind; [by apply kdon_sema_down|].
  intros [] st2 H2. by apply kdon_lock_acquire.
Qed.

Lemma kdon_cond_broadcast fuel c l st :
  DonationInv st -> keeps_donations (cond_broadcast fuel c l st).
Proof.
  revert st. induction fuel as [|fuel IH]; intros st H; cbn [cond_broadcast]; mstep.
  - destruct (cond_waiters st c); [by apply kdon_Done|constructor].
  - destruct (cond_waiters st c) eqn:Hc; [by apply kdon_Done|].
    apply kdon_bind; [by apply kdon_cond_signal|].
    intros [] st1 H1. by apply IH.
Qed.

Lemma kdon_exec_call op st : DonationInv st -> keeps_donations (exec_call op st).
Proof.
  intros H. destruct op; cbn [exec_call].
  - unfold sema_init. mstep. apply kdon_Done. doninv.
  - by apply kdon_sema_down.
  - mstep. apply kdon_bind; [by apply kdon_sema_try_down|].
    intros. by apply kdon_Done.
  - by apply kdon_sema_up.
  - unfold lock_init, sema_init. mstep. apply kdon_Done. doninv.
  - by apply kdon_lock_acquire.
  - mstep. apply kdon_bind; [by apply kdon_lock_try_acquire|].
    intros. by apply kdon_Done.
  - by apply kdon_lock_release.
  - unfold cond_init. mstep. apply kdon_Done. doninv.
  - by apply kdon_cond_wait.
  - by apply kdon_cond_signal.
  - by apply kdon_cond_broadcast.
Qed.

Lemma DonationInv_schedule st st' : schedule st = Some st' -> DonationInv st -> DonationInv st'.
Proof.
  unfold schedule. destruct (ready_list st) as [|t rest]; [done|].
  intros [= <-] H. doninv.
Qed.

(** X18: a thread with a donation in effect runs above its own
    priority.  Every operation of synch.h, at every point where it gives
    up the processor or returns, and the dispatcher keep this: whenever a
    thread has an [original_priority] recorded, the recorded priority is
    lower than the current one.  So the record never survives the
    donation it was made for, and putting the recorded priority back (in
    [lock_release]) lowers the priority of the caller. *)
Theorem X18_recorded_priority_is_below_current :
  (forall op st, DonationInv st -> keeps_donations (exec_call op st)) /\
  (forall st st', schedule st = Some st' -> DonationInv st -> DonationInv st') /\
  (forall st, DonationInv st -> original_priority (threads st (current st)) <> -1 ->
     locks (threads st (current st)) = [] ->
     exists st', update_thread_priority st = Done tt st' /\
       priority (threads st' (current st)) < priority (threads st (current st)) /\
       original_priority (threads st' (current st)) = -1).
Proof.
  split; [exact kdon_exec_call|]. split; [exact DonationInv_schedule|].
  intros st H Ho Hl. rewrite update_thread_priority_run.
  destruct (Z.eqb_spec (original_priority (threads st (current st))) (-1)); [done|].
  rewrite Hl. cbn [list_max]. eexists. split; [reflexivity|].
  destruct (restored_fields (current st) st) as [-> ->]. split; [by apply H|done].
Qed.

Lemma X18_recorded_priority_is_below_current_witness :
  DonationInv two_locks_state /\
  original_priority (threads two_locks_state 2%nat) = 20 /\
  priority (threads two_locks_state 2%nat) = 40 /\
  keeps_donations (exec_call (Call_lock_release 0%nat) two_locks_state) /\
  (exists st', schedule boot_state = Some st' /\ DonationInv boot_state /\ DonationInv st') /\
  (exists st',
     update_thread_priority (upd_thread 0%nat (set_original_priority 10) boot_state) =
       Done tt st' /\
     priority (threads st' 0%nat) < 31 /\ original_priority (threads st' 0%nat) = -1).
Proof.
  destruct X18_recorded_priority_is_below_current as (Hcall & Hsched & Hrestore).
  assert (DonationInv boot_state) as Hboot.
  { intros t Ht. exfalso. apply Ht. by destruct t as [|[|[|t]]]. }
  assert (DonationInv two_locks_state) as Htwo.
  { intros t. unfold two_locks_state.
    destruct t as [|[|[|t]]]; [by vm_compute|by vm_compute|by vm_compute|].
    intros Ht. exfalso. apply Ht. by vm_compute. }
  assert (DonationInv (upd_thread 0%nat (set_original_priority 10) boot_state)) as Hrec.
  { intros t. destruct t as [|[|[|t]]]; by vm_compute. }
  split; [exact Htwo|]. split; [by vm_compute|]. split; [by vm_compute|].
  split; [exact (Hcall (Call_lock_release 0%nat) two_locks_state Htwo)|].
  split.
  - eexists. split; [reflexivity|]. split; [exact Hboot|].
    exact (Hsched boot_state _ eq_refl Hboot).
  - destruct (Hrestore _ Hrec) as (st' & Hrun & Hlt & Ho); [by vm_compute|reflexivity|].
    exists st'. split; [exact Hrun|]. split; [exact Hlt|exact Ho].
Defined.

(** ** Broadcasting a condition *)

Lemma sema_up_Done_grows s st st' :
  sema_up s st = Done tt st' ->
  (forall t, status (threads st t) = THREAD_READY -> status (threads st' t) = THREAD_READY) /\
  (forall t, t ∈ ready_list st -> t ∈ ready_list st') /\
  (forall s', s' <> s -> semas st' s' = semas st s').
Proof.
  intros Hup.
  assert (state_of (sema_up s st) = Some st') as Hst by (by rewrite Hup).
  destruct (sema_up_semas _ _ _ Hst) as [_ Hother].
  split; [|split; [|intros s' Hs'; by apply Hother]]; revert Hup; unfold sema_up; mstep;
    destruct (waiters (semas st s)) as [|t0 rest]; unfold thread_unblock; mstep;
    unfold priority_yield, thread_yield; destruct (outranked _); try done;
    intros [= <-] t Ht; st_simpl; try done.
  - unfold insert, fn_insert. repeat (case_decide; subst; st_simpl; try done).
  - apply elem_of_list_insert_ordered. by right.
Qed.

Lemma cond_broadcast_Done_grows fuel c l : forall st st',
  in_intr st = false -> holder st l = Some (current st) ->
  cond_broadcast fuel c l st = Done tt st' ->
  cond_waiters st' c = [] /\ holder st' = holder st /\ current st' = current st /\
  (forall t, status (threads st t) = THREAD_READY -> status (threads st' t) = THREAD_READY) /\
  (forall t, t ∈ ready_list st -> t ∈ ready_list st') /\
  (forall w, w ∉ cond_waiters st c -> semas st' (WaiterSema w) = semas st (WaiterSema w)).
Proof.
  induction fuel as [|fuel IH]; intros st st' Hi Hh; cbn [cond_broadcast]; mstep.
  - destruct (cond_waiters st c) eqn:Hl; [|done]. intros [= <-]. by rewrite Hl.
  - destruct (cond_waiters st c) as [|w0 rest] eqn:Hl; [intros [= <-]; by rewrite Hl|].
    rewrite bind_unfold, (cond_signal_run c l st w0 rest Hi Hh Hl).
    destruct (sema_up (WaiterSema w0) (with_cond_waiters_at c rest st)) as [[] st1| | | |] eqn:Hup;
      cbn [run_bind]; try done.
    assert (state_of (sema_up (WaiterSema w0) (with_cond_waiters_at c rest st)) = Some st1)
      as Hst1 by (by rewrite Hup).
    destruct (sema_up_frame _ _ _ Hst1) as (Hc1 & Hh1 & Hcw1 & Hi1).
    destruct (sema_up_Done_grows _ _ _ Hup) as (Hready1 & Hin1 & Hs1).
    intros Hbc.
    destruct (IH st1 st') as (Hnil & Hh' & Hc' & Hready' & Hin' & Hs'); [by rewrite Hi1| |done|].
    { rewrite Hh1, Hc1. exact Hh. }
    split; [done|]. split; [by rewrite Hh', Hh1|]. split; [by rewrite Hc', Hc1|].
    split; [intros t Ht; by apply Hready', Hready1|].
    split; [intros t Ht; by apply Hin', Hin1|].
    intros w Hw. apply not_elem_of_cons in Hw as [Hw0 Hw].
    rewrite Hs'; [apply Hs1; congruence|].
    rewrite Hcw1. st_simpl. by rewrite fn_lookup_insert.
Qed.

(** X19: a broadcast that is not preempted wakes every waiter.  When
    [cond_broadcast], called by the holder of the lock outside an
    interrupt handler, returns without having given up the processor,
    the waiter list of the condition is empty, the caller still holds
    the lock, and for every waiter that was in the list (each of them
    once) the thread blocked on its semaphore is off that semaphore's
    waiter list, ready and in the ready list. *)
Theorem X19_cond_broadcast_wakes_every_waiter (st st' : state) (fuel : nat) (c : cond_id)
    (l : lock_id) :
  in_intr st = false -> holder st l = Some (current st) ->
  NoDup (cond_waiters st c) ->
  cond_broadcast fuel c l st = Done tt st' ->
  cond_waiters st' c = [] /\ holder st' l = Some (current st') /\
  forall w t ts, w ∈ cond_waiters st c -> waiters (semas st (WaiterSema w)) = t :: ts ->
    waiters (semas st' (WaiterSema w)) = ts /\
    status (threads st' t) = THREAD_READY /\ t ∈ ready_list st'.
Proof.
  revert st. induction fuel as [|fuel IH]; intros st Hi Hh Hnd Hbc.
  { destruct (cond_broadcast_Done_grows 0 c l st st' Hi Hh Hbc) as (Hnil & Hh' & Hc' & _).
    split; [done|]. split; [by rewrite Hh', Hc'|].
    revert Hbc. cbn [cond_broadcast]. mstep. destruct (cond_waiters st c); [|done].
    intros _ w t ts Hw. by apply elem_of_nil in Hw. }
  destruct (cond_broadcast_Done_grows (S fuel) c l st st' Hi Hh Hbc) as (Hnil & Hh' & Hc' & _).
  split; [done|]. split; [by rewrite Hh', Hc'|].
  revert Hbc. cbn [cond_broadcast]. mstep.
  destruct (cond_waiters st c) as [|w0 rest] eqn:Hl.
  { intros _ w t ts Hw. by apply elem_of_nil in Hw. }
  rewrite bind_unfold, (cond_signal_run c l st w0 rest Hi Hh Hl).
  destruct (sema_up (WaiterSema w0) (with_cond_waiters_at c rest st)) as [[] st1| | | |] eqn:Hup;
    cbn [run_bind]; try done.
  assert (state_of (sema_up (WaiterSema w0) (with_cond_waiters_at c rest st)) = Some st1)
    as Hst1 by (by rewrite Hup).
  destruct (sema_up_frame _ _ _ Hst1) as (Hc1 & Hh1 & Hcw1 & Hi1).
  destruct (sema_up_semas _ _ _ Hst1) as [Hsem1 Hother1].
  apply NoDup_cons in Hnd as [Hw0 Hnd].
  assert (cond_waiters st1 c = rest) as Hl1.
  { rewrite Hcw1. st_simpl. by rewrite fn_lookup_insert. }
  assert (in_intr st1 = false) as Hi1' by (by rewrite Hi1).
  assert (holder st1 l = Some (current st1)) as Hh1' by (rewrite Hh1, Hc1; exact Hh).
  intros Hbc w t ts Hw Hwt. apply elem_of_cons in Hw as [->|Hw].
  - destruct (sema_up_wakes (WaiterSema w0) (with_cond_waiters_at c rest st) st1 t ts Hwt Hst1)
      as (Hready & _ & Hin).
    destruct (cond_broadcast_Done_grows fuel c l st1 st' Hi1' Hh1' Hbc)
      as (_ & _ & _ & Hready' & Hin' & Hs').
    split; [|split; [by apply Hready'|by apply Hin']].
    rewrite Hs' by (by rewrite Hl1). rewrite Hsem1. st_simpl. by rewrite Hwt.
  - rewrite <- Hl1 in Hnd, Hw.
    destruct (IH st1 Hi1' Hh1' Hnd Hbc) as (_ & _ & Hall).
    apply (Hall w t ts Hw). rewrite Hother1 by (intros [= ->]; rewrite Hl1 in Hw; done).
    exact Hwt.
Qed.

Lemma X19_cond_broadcast_wakes_every_waiter_witness :
  in_intr broadcast_state = false /\
  holder broadcast_state 0%nat = Some (current broadcast_state) /\
  cond_waiters broadcast_state 0%nat = [0%nat; 1%nat] /\
  waiters (semas broadcast_state (WaiterSema 0%nat)) = [0%nat] /\
  waiters (semas broadcast_state (WaiterSema 1%nat)) = [1%nat] /\
  status (threads broadcast_state 0%nat) = THREAD_BLOCKED /\
  status (threads broadcast_state 1%nat) = THREAD_BLOCKED /\
  exists st',
    cond_broadcast 2 0%nat 0%nat broadcast_state = Done tt st' /\
    cond_waiters st' 0%nat = [] /\
    status (threads st' 0%nat) = THREAD_READY /\
    status (threads st' 1%nat) = THREAD_READY.
Proof.
  unfold broadcast_state. set (st := cfg_state broadcast_config).
  assert (in_intr st = false) as Hi by (vm_compute; reflexivity).
  assert (holder st 0%nat = Some (current st)) as Hh by (vm_compute; reflexivity).
  assert (cond_waiters st 0%nat = [0%nat; 1%nat]) as Hl by (vm_compute; reflexivity).
  assert (waiters (semas st (WaiterSema 0%nat)) = [0%nat]) as Hw0 by (vm_compute; reflexivity).
  assert (waiters (semas st (WaiterSema 1%nat)) = [1%nat]) as Hw1 by (vm_compute; reflexivity).
  assert (NoDup (cond_waiters st 0%nat)) as Hnd.
  { rewrite Hl. apply NoDup_cons. split; [by intros ?%list_elem_of_singleton|].
    apply NoDup_cons. split; [by intros ?%elem_of_nil|constructor]. }
  assert (exists st', cond_broadcast 2 (0%nat : cond_id) (0%nat : lock_id) st = Done tt st')
    as [st' Hrun].
  { destruct (cond_broadcast 2 (0%nat : cond_id) (0%nat : lock_id) st) as [[] st'| | | |] eqn:Hbc;
      [by exists st'|exfalso..].
    - assert (is_susp (cond_broadcast 2 (0%nat : cond_id) (0%nat : lock_id) st) = false) as Hn
        by (vm_compute; reflexivity).
      by rewrite Hbc in Hn.
    - assert (is_panic (cond_broadcast 2 (0%nat : cond_id) (0%nat : lock_id) st) = false) as Hn
        by (vm_compute; reflexivity).
      by rewrite Hbc in Hn.
    - assert (is_Some (state_of (cond_broadcast 2 (0%nat : cond_id) (0%nat : lock_id) st)))
        as Hn by (apply is_Some_alt; by vm_compute).
      rewrite Hbc in Hn. by destruct Hn.
    - assert (is_Some (state_of (cond_broadcast 2 (0%nat : cond_id) (0%nat : lock_id) st)))
        as Hn by (apply is_Some_alt; by vm_compute).
      rewrite Hbc in Hn. by destruct Hn. }
  split; [exact Hi|]. split; [exact Hh|]. split; [exact Hl|]. split; [exact Hw0|].
  split; [exact Hw1|]. split; [by vm_compute|]. split; [by vm_compute|].
  destruct (X19_cond_broadcast_wakes_every_waiter st st' 2 0%nat 0%nat Hi Hh Hnd Hrun)
    as (Hnil & _ & Hall).
  exists st'. split; [exact Hrun|]. split; [exact Hnil|]. split.
  - apply (Hall 0%nat 0%nat []); [rewrite Hl; by left|exact Hw0].
  - apply (Hall 1%nat 1%nat []); [rewrite Hl; right; by left|exact Hw1].
Defined.

(** ** Waiting on a condition *)

(** [priority_yield] gives up the processor at most once, and goes on
    with the state it is resumed in. *)
Lemma priority_yield_cases st :
  priority_yield st = Done tt st \/
  exists st', priority_yield st = Susp st' (fun x => Done tt x) /\
    status (threads st' (current st)) = THREAD_READY /\
    holder st' = holder st /\ semas st' = semas st /\ cond_waiters st' = cond_waiters st /\
    current st' = current st /\ in_intr st' = in_intr st.
Proof.
  unfold priority_yield, thread_yield. destruct (outranked st); [right|by left].
  eexists. split; [reflexivity|]. st_simpl. by rewrite fn_lookup_insert.
Qed.

(** [lock_release] by the holder: it returns, or gives up the processor
    once at the preemption check of [sema_up]; either way the lock is
    free then and the condition lists are untouched. *)
Lemma lock_release_cases l st :
  LockInv l st -> holder st l = Some (current st) ->
  exists st',
    (lock_release l st = Done tt st' \/
     lock_release l st = Susp st' (fun x => Done tt x) /\
     status (threads st' (current st)) = THREAD_READY) /\
    holder st' l = None /\ value (semas st' (LockSema l)) = 1 /\
    cond_waiters st' = cond_waiters st /\ current st' = current st /\
    in_intr st' = in_intr st /\
    forall s, s <> LockSema l -> semas st' s = semas st s.
Proof.
  intros HL Hh. destruct (proj2 HL _ Hh) as [Hv _].
  unfold lock_release, lock_held_by_current_thread. mstep.
  rewrite Hh, bool_decide_eq_true_2 by done. mstep.
  rewrite bind_unfold, update_thread_priority_run. mstep.
  match goal with |- context [sema_up _ ?x] => set (st2 := x) end.
  assert (semas st2 = semas st /\ holder st2 l = None /\ current st2 = current st /\
          cond_waiters st2 = cond_waiters st /\ in_intr st2 = in_intr st)
    as (Hs2 & Hh2 & Hc2 & Hcw2 & Hi2).
  { unfold st2. destruct (_ =? _); [repeat split; fields|].
    destruct (list_max _ _); [destruct (_ <? _)|]; unfold restored; repeat split; fields. }
  assert (forall st3 st',
            holder st3 l = None -> value (semas st3 (LockSema l)) = 1 ->
            cond_waiters st3 = cond_waiters st -> current st3 = current st ->
            in_intr st3 = in_intr st ->
            (forall s, s <> LockSema l -> semas st3 s = semas st s) ->
            holder st' = holder st3 -> semas st' = semas st3 ->
            cond_waiters st' = cond_waiters st3 -> current st' = current st3 ->
            in_intr st' = in_intr st3 ->
            holder st' l = None /\ value (semas st' (LockSema l)) = 1 /\
            cond_waiters st' = cond_waiters st /\ current st' = current st /\
            in_intr st' = in_intr st /\
            forall s, s <> LockSema l -> semas st' s = semas st s) as Hfacts.
  { intros st3 st' H1 H2 H3 H4 H5 H6 -> -> -> -> ->. done. }
  assert (forall st3,
            holder st3 l = None -> value (semas st3 (LockSema l)) = 1 ->
            cond_waiters st3 = cond_waiters st -> current st3 = current st ->
            in_intr st3 = in_intr st ->
            (forall s, s <> LockSema l -> semas st3 s = semas st s) ->
            exists st',
              (priority_yield st3 = Done tt st' \/
               priority_yield st3 = Susp st' (fun x => Done tt x) /\
               status (threads st' (current st)) = THREAD_READY) /\
              holder st' l = None /\ value (semas st' (LockSema l)) = 1 /\
              cond_waiters st' = cond_waiters st /\ current st' = current st /\
              in_intr st' = in_intr st /\
              forall s, s <> LockSema l -> semas st' s = semas st s) as Hyield.
  { intros st3 H1 H2 H3 H4 H5 H6.
    destruct (priority_yield_cases st3)
      as [Hdone|(st' & Hsusp & Hready & Hh' & Hs' & Hcw' & Hc' & Hi')].
    - exists st3. split; [by left|done].
    - exists st'. split; [right; by rewrite <- H4|]. by apply (Hfacts st3). }
  unfold sema_up. mstep.
  destruct (waiters (semas st2 (LockSema l))) as [|t rest] eqn:Hw;
    unfold thread_unblock; mstep; apply Hyield; st_simpl;
    rewrite ?fn_lookup_insert; st_simpl; rewrite ?fn_lookup_insert; st_simpl;
    rewrite ?Hs2, ?Hv; try done;
    intros s Hs; rewrite ?fn_lookup_insert_ne by done; by rewrite ?Hs2.
Qed.

(** X20: [cond_wait] releases the lock and always gives up the
    processor.  Called by the holder of the lock outside an interrupt
    handler, it does not return before the caller has been suspended; at
    its first suspension the lock is free with its permit back, and the
    caller's waiter is in the list of the condition.  The caller is then
    either blocked on the waiter's own semaphore, or still ready: it was
    preempted at the end of [lock_release], before it got to
    [sema_down], with the waiter's semaphore at 0 and without waiters. *)
Theorem X20_cond_wait_releases_and_sleeps (st : state) (fuel : nat) (c : cond_id)
    (l : lock_id) :
  LockInv l st -> in_intr st = false -> holder st l = Some (current st) ->
  let me := current st in
  let w := next_waiter st in
  exists st' k,
    cond_wait (S fuel) c l st = Susp st' k /\
    holder st' l = None /\ value (semas st' (LockSema l)) = 1 /\
    w ∈ cond_waiters st' c /\ current st' = me /\
    (status (threads st' me) = THREAD_READY /\ semas st' (WaiterSema w) = mkSema 0 [] \/
     status (threads st' me) = THREAD_BLOCKED /\ semas st' (WaiterSema w) = mkSema 0 [me] /\
     wait_semaphore (threads st' me) = Some (WaiterSema w)).
Proof.
  intros HL Hi Hh. cbv zeta.
  assert (exists st1,
            cond_wait (S fuel) c l st =
              (lock_release l ;; sema_down (S fuel) (WaiterSema (next_waiter st)) ;;
               lock_acquire (S fuel) l) st1 /\
            LockInv l st1 /\ holder st1 l = Some (current st1) /\
            current st1 = current st /\ in_intr st1 = false /\
            semas st1 (WaiterSema (next_waiter st)) = mkSema 0 [] /\
            next_waiter st ∈ cond_waiters st1 c)
    as (st1 & Hrun & HL1 & Hh1 & Hc1 & Hi1 & Hs1 & Hw1).
  { eexists. split.
    - unfold cond_wait, lock_held_by_current_thread, sema_init. mstep. st_simpl.
      rewrite Hi. mstep. st_simpl. rewrite bool_decide_eq_true_2 by done. mstep.
      reflexivity.
    - split; [lockinv|]. split; [exact Hh|]. split; [done|]. split; [exact Hi|].
      st_simpl. split; [by rewrite fn_lookup_insert|].
      rewrite fn_lookup_insert. apply elem_of_list_insert_ordered. by left. }
  rewrite Hrun. mstep. rewrite bind_unfold.
  destruct (lock_release_cases l st1 HL1 Hh1)
    as (st2 & [Hrel|[Hrel Hready]] & Hh2 & Hv2 & Hcw2 & Hc2 & Hi2 & Hs2).
  - rewrite Hrel. cbn [run_bind]. rewrite bind_unfold.
    unfold sema_down. mstep. rewrite Hi2, Hi1. mstep. rewrite bind_unfold.
    cbn [sema_down_loop]. rewrite Hs2, Hs1 by done. cbn [value]. simpl Z.eqb. cbv iota.
    unfold sema_down_wait, thread_block. mstep. st_simpl.
    do 2 eexists. split; [reflexivity|]. st_simpl.
    rewrite Hc2, Hc1, !fn_lookup_insert. st_simpl.
    rewrite Hs2, Hs1 by done. st_simpl. rewrite fn_lookup_insert_ne by done.
    split; [done|]. split; [done|]. split; [by rewrite Hcw2|]. split; [done|]. right. done.
  - rewrite Hrel. cbn [run_bind].
    do 2 eexists. split; [reflexivity|].
    split; [done|]. split; [done|]. split; [by rewrite Hcw2|]. split; [congruence|].
    left. rewrite <- Hc1. split; [done|]. rewrite Hs2 by done. exact Hs1.
Qed.

Lemma X20_cond_wait_releases_and_sleeps_witness :
  LockInv 0%nat cond_state /\ in_intr cond_state = false /\
  holder cond_state 0%nat = Some (current cond_state) /\
  exists st' k,
    cond_wait 1 0%nat 0%nat cond_state = Susp st' k /\
    holder st' 0%nat = None /\
    2%nat ∈ cond_waiters st' 0%nat /\
    status (threads st' 2%nat) = THREAD_BLOCKED.
Proof.
  unfold cond_state. set (st := cfg_state cond_config).
  assert (in_intr st = false) as Hi by (vm_compute; reflexivity).
  assert (holder st 0%nat = Some (current st)) as Hh by (vm_compute; reflexivity).
  assert (holder st 0%nat = Some 2%nat) as Hh2 by (vm_compute; reflexivity).
  assert (current st = 2%nat) as Hc by (vm_compute; reflexivity).
  assert (next_waiter st = 2%nat) as Hn by (vm_compute; reflexivity).
  assert (value (semas st (LockSema 0%nat)) = 0) as Hv by (vm_compute; reflexivity).
  assert (locks (threads st 2%nat) = [0%nat]) as Hl by (vm_compute; reflexivity).
  assert (LockInv 0%nat st) as HL.
  { split; [rewrite Hv; lia|]. intros t. rewrite Hh2. intros [= <-].
    split; [exact Hv|]. rewrite Hl. by left. }
  assert (is_Some (state_of (cond_wait 1 (0%nat : cond_id) (0%nat : lock_id) st))) as Hsome
    by (apply is_Some_alt; by vm_compute).
  assert (status (threads (left_by (cond_wait 1 (0%nat : cond_id) (0%nat : lock_id) st)) 2%nat)
          = THREAD_BLOCKED) as Hb by (vm_compute; reflexivity).
  split; [exact HL|]. split; [exact Hi|]. split; [exact Hh|].
  destruct (X20_cond_wait_releases_and_sleeps st 0 0%nat 0%nat HL Hi Hh)
    as (st' & k & Hrun & Hnone & _ & Hw & _ & _).
  rewrite Hn in Hw. rewrite Hrun in Hb. change (status (threads st' 2%nat) = THREAD_BLOCKED) in Hb.
  exists st', k. split; [exact Hrun|]. split; [exact Hnone|]. split; [exact Hw|exact Hb].
Defined.

(** ** One step of the donation *)






(** ** The priority after a release *)

Lemma reachable_after_memory c : reachable c -> reachable (after_memory c).
Proof. intros Hc. eapply reach_step; [exact Hc|]. apply step_memory. Qed.

Lemma Inv_low_state : Inv low_state.
Proof.
  constructor; simpl.
  - intros s. constructor.
  - intros s. constructor.
  - intros s t Ht. by apply elem_of_nil in Ht.
  - intros [|[|t]] s; simpl; done.
  - intros [|[|t]]; simpl; done.
  - intros t ->%list_elem_of_singleton. done.
  - apply NoDup_singleton.
  - intros [|[|t]]; simpl; lia.
  - intros s. by vm_compute.
  - intros c. constructor.
  - intros c w Hw. by apply elem_of_nil in Hw.
Qed.

Lemma reachable_stray_permit_config : reachable stray_permit_config.
Proof.
  unfold stray_permit_config. apply reachable_after_memory. reach.
  apply reach_boot, Inv_low_state.
Qed.

Lemma max_waiter_priority_waiters st l w rest :
  Inv st -> waiters (semas st (LockSema l)) = w :: rest ->
  max_waiter_priority st l = prio st w /\
  highest_priority_in st (waiters (semas st (LockSema l))) (prio st w).
Proof.
  intros HI Hw. pose proof (inv_sorted _ HI (LockSema l)) as Hs.
  unfold max_waiter_priority. rewrite Hw in *. split; [done|]. split.
  - exists w. split; [by left|done].
  - intros u Hu. by eapply descending_head_max.
Qed.

Lemma largest_read_exists st ls : ls <> [] -> exists m, largest_read st ls m.
Proof.
  destruct ls as [|l0 ls]; [done|]. intros _.
  destruct (list_max_from_spec (max_waiter_priority st) l0 ls) as [Hin Hmax].
  eexists. split; [eexists; split; [exact Hin|reflexivity]|exact Hmax].
Qed.

(** The value that [update_thread_priority] compares with the recorded
    priority is the largest that [max_waiter_priority] gives for the
    locks in the caller's list. *)
Lemma update_thread_priority_largest st l0 ls m :
  largest_read st (l0 :: ls) m ->
  max_waiter_priority st (list_max_from (lock_priority_lower st) l0 ls) = m.
Proof.
  intros [(lm & Hlm & Hm) Hall].
  destruct (list_max_from_spec (max_waiter_priority st) l0 ls) as [Hin Hmax].
  change (fun a b => max_waiter_priority st a <? max_waiter_priority st b)
    with (lock_priority_lower st) in Hin, Hmax.
  pose proof (Hmax lm Hlm). pose proof (Hall _ Hin). lia.
Qed.

(** What [update_thread_priority] does to the caller's priority. *)
Lemma update_thread_priority_spec st :
  Inv st ->
  let cur := current st in
  let base := original_priority (threads st cur) in
  let held := locks (threads st cur) in
  exists st2,
    update_thread_priority st = Done tt st2 /\
    (base = -1 -> st2 = st) /\
    (base <> -1 ->
       (held = [] ->
          priority (threads st2 cur) = base /\ original_priority (threads st2 cur) = -1) /\
       (forall m, largest_read st held m ->
          if base <? m
          then priority (threads st2 cur) = m /\ original_priority (threads st2 cur) = base
          else priority (threads st2 cur) = base /\ original_priority (threads st2 cur) = -1) /\
       ((forall l, l ∈ held -> waiters (semas st (LockSema l)) = [] ->
           tail_priority st l <= base) ->
        (lock_waiters st held = [] ->
           priority (threads st2 cur) = base /\ original_priority (threads st2 cur) = -1) /\
        (forall m, highest_priority_in st (lock_waiters st held) m ->
           if base <? m
           then priority (threads st2 cur) = m /\ original_priority (threads st2 cur) = base
           else priority (threads st2 cur) = base /\
                original_priority (threads st2 cur) = -1))).
Proof.
  intros HI cur base held. eexists. split; [apply update_thread_priority_run|].
  fold cur base held. split.
  { intros ->. done. }
  intros Hb. rewrite (proj2 (Z.eqb_neq _ _) Hb).
  pose proof (restored_fields cur st) as Hrestored. fold base in Hrestored.
  destruct held as [|l0 ls] eqn:Hheld; cbn [list_max].
  { split; [done|]. split.
    - intros m [(l & Hl & _) _]. by apply elem_of_nil in Hl.
    - intros _. split; [done|]. intros m [(w & Hw & _) _]. by apply elem_of_nil in Hw. }
  destruct (list_max_from_spec (max_waiter_priority st) l0 ls) as [Hin Hmax].
  change (fun a b => max_waiter_priority st a <? max_waiter_priority st b)
    with (lock_priority_lower st) in Hin, Hmax.
  set (lmax := list_max_from (lock_priority_lower st) l0 ls) in *.
  assert (forall m, max_waiter_priority st lmax = m ->
            if base <? m
            then priority (threads (if base <? max_waiter_priority st lmax
                                    then upd_thread cur (set_priority (max_waiter_priority st lmax)) st
                                    else restored cur st) cur) = m /\
                 original_priority (threads (if base <? max_waiter_priority st lmax
                                    then upd_thread cur (set_priority (max_waiter_priority st lmax)) st
                                    else restored cur st) cur) = base
            else priority (threads (if base <? max_waiter_priority st lmax
                                    then upd_thread cur (set_priority (max_waiter_priority st lmax)) st
                                    else restored cur st) cur) = base /\
                 original_priority (threads (if base <? max_waiter_priority st lmax
                                    then upd_thread cur (set_priority (max_waiter_priority st lmax)) st
                                    else restored cur st) cur) = -1) as Hrule.
  { intros m ->. destruct (base <? m); [|done]. split; fields. }
  split; [done|]. split.
  { intros m Hm. apply Hrule. by apply update_thread_priority_largest. }
  intros Hlow.
  assert (forall w l, l ∈ l0 :: ls -> w ∈ waiters (semas st (LockSema l)) ->
            w ∈ lock_waiters st (l0 :: ls)) as Hsub.
  { intros w l Hl Hw. apply list_elem_of_bind. by exists l. }
  assert (forall l, l ∈ l0 :: ls ->
            max_waiter_priority st l <= base \/
            exists w, w ∈ lock_waiters st (l0 :: ls) /\ max_waiter_priority st l = prio st w)
    as Hread.
  { intros l Hl. destruct (waiters (semas st (LockSema l))) as [|w rest] eqn:Hw.
    - left. unfold max_waiter_priority. rewrite Hw. by apply Hlow.
    - right. exists w. split; [apply (Hsub w l Hl); rewrite Hw; by left|].
      by destruct (max_waiter_priority_waiters st l w rest HI Hw). }
  split.
  - intros Hnone. destruct (Hread lmax Hin) as [Hle|(w & Hw & _)].
    + by rewrite (proj2 (Z.ltb_ge _ _)) by lia.
    + rewrite Hnone in Hw. by apply elem_of_nil in Hw.
  - intros m [(w & Hw & Hwm) Hhigh].
    apply list_elem_of_bind in Hw as (lw & Hw & Hlw).
    assert (m <= max_waiter_priority st lmax) as Hge.
    { pose proof (Hmax lw Hlw) as Hle.
      destruct (waiters (semas st (LockSema lw))) as [|hw rest] eqn:Hws;
        [by apply elem_of_nil in Hw|].
      destruct (max_waiter_priority_waiters st lw hw rest HI Hws) as (Hlwm & _ & Hlwmax).
      rewrite Hws in Hlwmax. specialize (Hlwmax w Hw). lia. }
    destruct (Hread lmax Hin) as [Hle|(wm & Hwm' & Hmm)].
    + rewrite (proj2 (Z.ltb_ge base (max_waiter_priority st lmax))) by lia.
      by rewrite (proj2 (Z.ltb_ge base m)) by lia.
    + specialize (Hhigh wm Hwm'). apply Hrule. lia.
Qed.

(** X21: [lock_release] by a thread with a recorded [original_priority]
    (a donation is in effect), in a well-formed state.  If no lock is
    held any more, the original priority is restored and the record
    cleared.  Otherwise let [m] be the largest value that
    [max_waiter_priority] gives for the locks still held, which for a
    lock with waiters is the highest priority of its waiters and for a
    lock without waiters is the word behind the tail sentinel of its
    waiter list: if [m] exceeds the recorded priority the caller's
    priority becomes [m] and the record stays; if not, the original
    priority is restored and the record cleared.  When that word is at
    most the recorded priority for every lock still held that has no
    waiter, the outcome is the same with [m] the highest priority of the
    threads blocked on the locks still held, and without such a thread
    the original priority is restored.  Without a record the priority is
    left as it is. *)
Theorem X21_lock_release_recomputes_priority (st : state) (l : lock_id) :
  Inv st -> holder st l = Some (current st) ->
  let cur := current st in
  let base := original_priority (threads st cur) in
  let held := filter (fun x => x <> l) (locks (threads st cur)) in
  (forall l' w rest, waiters (semas st (LockSema l')) = w :: rest ->
     max_waiter_priority st l' = prio st w /\
     highest_priority_in st (waiters (semas st (LockSema l'))) (prio st w)) /\
  (forall l', waiters (semas st (LockSema l')) = [] ->
     max_waiter_priority st l' = tail_priority st l') /\
  exists st',
    state_of (lock_release l st) = Some st' /\
    (base = -1 ->
       priority (threads st' cur) = priority (threads st cur) /\
       original_priority (threads st' cur) = -1) /\
    (base <> -1 ->
       (held = [] ->
          priority (threads st' cur) = base /\ original_priority (threads st' cur) = -1) /\
       (held <> [] -> exists m, largest_read st held m) /\
       (forall m, largest_read st held m ->
          if base <? m
          then priority (threads st' cur) = m /\ original_priority (threads st' cur) = base
          else priority (threads st' cur) = base /\ original_priority (threads st' cur) = -1) /\
       ((forall l', l' ∈ held -> waiters (semas st (LockSema l')) = [] ->
           tail_priority st l' <= base) ->
        (lock_waiters st held = [] ->
           priority (threads st' cur) = base /\ original_priority (threads st' cur) = -1) /\
        (forall m, highest_priority_in st (lock_waiters st held) m ->
           if base <? m
           then priority (threads st' cur) = m /\ original_priority (threads st' cur) = base
           else priority (threads st' cur) = base /\
                original_priority (threads st' cur) = -1))).
Proof.
  intros HI Hh cur base held.
  split; [intros l' w rest; by apply max_waiter_priority_waiters|].
  split; [intros l' Hnil; unfold max_waiter_priority; by rewrite Hnil|].
  set (st1 := with_holder_at l None (list_remove_lock l st)).
  assert (Inv st1) as HI1 by (apply Inv_with_holder_at, Inv_list_remove_lock, HI).
  destruct (update_thread_priority_spec st1 HI1) as (st2 & Hrun & Hunset & Hset).
  change (current st1) with cur in Hunset, Hset.
  change (original_priority (threads st1 cur)) with base in Hunset, Hset.
  change (locks (threads st1 cur)) with held in Hset.
  change (lock_waiters st1 held) with (lock_waiters st held) in Hset.
  change (highest_priority_in st1) with (highest_priority_in st) in Hset.
  change (largest_read st1) with (largest_read st) in Hset.
  change (semas st1) with (semas st) in Hset.
  change (tail_priority st1) with (tail_priority st) in Hset.
  destruct (sema_up_leaves_state (LockSema l) st2) as [st' Hst'].
  assert (lock_release l st = sema_up (LockSema l) st2) as Hrel.
  { unfold lock_release, lock_held_by_current_thread. mstep.
    rewrite bool_decide_eq_true_2 by done. mstep.
    fold st1. rewrite bind_unfold, Hrun. reflexivity. }
  exists st'. split; [by rewrite Hrel|].
  destruct (sema_up_keeps_priorities _ _ _ Hst') as [_ Hkeep].
  destruct (Hkeep cur) as (-> & -> & _).
  split.
  - intros Hb. rewrite (Hunset Hb). split; [reflexivity|exact Hb].
  - intros Hb. destruct (Hset Hb) as (Hnone & Hrule & Hclaim).
    split; [exact Hnone|]. split; [|split; [exact Hrule|exact Hclaim]].
    intros Hne. by apply largest_read_exists.
Qed.

Lemma X21_lock_release_recomputes_priority_witness :
  (Inv two_locks_state /\
   holder two_locks_state 0%nat = Some (current two_locks_state) /\
   original_priority (threads two_locks_state 2%nat) = 20 /\
   priority (threads two_locks_state 2%nat) = 40 /\
   highest_priority_in two_locks_state (lock_waiters two_locks_state [1%nat]) 31 /\
   exists st',
     state_of (lock_release 0%nat two_locks_state) = Some st' /\
     priority (threads st' 2%nat) = 31 /\ original_priority (threads st' 2%nat) = 20) /\
  (Inv stray_permit_state /\
   holder stray_permit_state 0%nat = Some (current stray_permit_state) /\
   original_priority (threads stray_permit_state 0%nat) = 0 /\
   priority (threads stray_permit_state 0%nat) = 5 /\
   largest_read stray_permit_state [1%nat] 1 /\
   exists st',
     state_of (lock_release 0%nat stray_permit_state) = Some st' /\
     priority (threads st' 0%nat) = 1 /\ original_priority (threads st' 0%nat) = 0).
Proof.
  split.
  - unfold two_locks_state.
    set (st := cfg_state two_locks_config).
    pose proof (reachable_Inv _ reachable_two_locks_config) as HI. fold st in HI.
    assert (holder st 0%nat = Some (current st)) as Hh by (vm_compute; reflexivity).
    assert (current st = 2%nat) as Hc by (vm_compute; reflexivity).
    assert (original_priority (threads st 2%nat) = 20) as Hb by (vm_compute; reflexivity).
    assert (filter (fun x : lock_id => x <> 0%nat) (locks (threads st 2%nat)) = [1%nat])
      as Hheld by (vm_compute; reflexivity).
    assert (highest_priority_in st (lock_waiters st [1%nat]) 31) as Hm.
    { replace (lock_waiters st [1%nat]) with [0%nat] by (vm_compute; reflexivity).
      split.
      - exists 0%nat. split; [by left|]. vm_compute. reflexivity.
      - intros w ->%list_elem_of_singleton. by vm_compute. }
    assert (forall l', l' ∈ [1%nat] -> waiters (semas st (LockSema l')) = [] ->
              tail_priority st l' <= 20) as Hlow.
    { intros l' ->%list_elem_of_singleton. by vm_compute. }
    split; [exact HI|]. split; [exact Hh|]. split; [exact Hb|].
    split; [vm_compute; reflexivity|]. split; [exact Hm|].
    destruct (X21_lock_release_recomputes_priority st 0%nat HI Hh)
      as (_ & _ & st' & Hst & _ & Hset).
    rewrite Hc, Hb, Hheld in Hset.
    destruct Hset as (_ & _ & _ & Hclaim); [discriminate|].
    destruct (Hclaim Hlow) as (_ & Hhigh).
    exists st'. split; [exact Hst|]. exact (Hhigh 31 Hm).
  - unfold stray_permit_state.
    set (st := cfg_state stray_permit_config).
    pose proof (reachable_Inv _ reachable_stray_permit_config) as HI. fold st in HI.
    assert (holder st 0%nat = Some (current st)) as Hh by (vm_compute; reflexivity).
    assert (current st = 0%nat) as Hc by (vm_compute; reflexivity).
    assert (original_priority (threads st 0%nat) = 0) as Hb by (vm_compute; reflexivity).
    assert (filter (fun x : lock_id => x <> 0%nat) (locks (threads st 0%nat)) = [1%nat])
      as Hheld by (vm_compute; reflexivity).
    assert (max_waiter_priority st 1%nat = 1) as Hread by (vm_compute; reflexivity).
    assert (largest_read st [1%nat] 1) as Hm.
    { split.
      - exists 1%nat. split; [by left|exact Hread].
      - intros l' ->%list_elem_of_singleton. by rewrite Hread. }
    split; [exact HI|]. split; [exact Hh|]. split; [exact Hb|].
    split; [vm_compute; reflexivity|]. split; [exact Hm|].
    destruct (X21_lock_release_recomputes_priority st 0%nat HI Hh)
      as (_ & _ & st' & Hst & _ & Hset).
    rewrite Hc, Hb, Hheld in Hset.
    destruct Hset as (_ & _ & Hrule & _); [discriminate|].
    exists st'. split; [exact Hst|]. exact (Hrule 1 Hm).
Defined.


(** ** A waiter list between the donation and the requeueing *)

Lemma Inv_four_state : Inv four_state.
Proof.
  constructor; simpl.
  - intros s. constructor.
  - intros s. constructor.
  - intros s t Ht. by apply elem_of_nil in Ht.
  - intros [|[|[|[|t]]]] s; simpl; done.
  - intros [|[|[|[|t]]]]; simpl; done.
  - intros t Ht. repeat (apply elem_of_cons in Ht as [->|Ht]; [done|]).
    by apply elem_of_nil in Ht.
  - repeat (apply NoDup_cons_2); [| | |constructor];
      intros Ht; repeat (apply elem_of_cons in Ht as [?|Ht]; [done|]);
      by apply elem_of_nil in Ht.
  - intros [|[|[|[|t]]]]; simpl; lia.
  - intros s. by vm_compute.
  - intros c. constructor.
  - intros c w Hw. by apply elem_of_nil in Hw.
Qed.

Lemma state_of_returned {A} (r : run A) st :
  state_of r = Some st -> is_susp r = false -> exists a, r = Done a st.
Proof. destruct r as [a s| | | |]; simpl; try done. intros [= ->] _. by exists a. Qed.

Lemma state_of_suspended {A} (r : run A) st :
  state_of r = Some st -> is_susp r = true -> exists k, r = Susp st k.
Proof. destruct r as [|s k| | |]; simpl; try done. intros [= ->] _. by exists k. Qed.

Lemma reachable_queued_holder_config : reachable queued_holder_config.
Proof. unfold queued_holder_config. reach. apply reach_boot, Inv_four_state. Qed.

(** C6, at a failing input.  In the reachable [queued_holder_state]
    thread 2 (priority 20) holds lock 0 and is queued on [SemaAt 0]
    behind thread 0 (priority 31); the list is in order.  Thread 1
    (priority 40) runs, outside an interrupt handler, and asks for
    lock 0.  [donate_nested] first assigns [lock_holder->priority]:
    after the assignment and before
    [update_wait_list_when_thread_priority_changes], which opens the
    first [intr_disable] bracket, the waiter list is [0; 2] with
    priorities 31 and 40, out of order.  An interrupt handler that ups
    the semaphore at that point wakes thread 0 and leaves thread 2, of
    higher priority, queued.  The list is in order again when
    [lock_acquire] gives up the processor. *)
Theorem C6_waiter_list_unsorted_during_donation :
  reachable queued_holder_config /\
  current queued_holder_state = 1%nat /\ in_intr queued_holder_state = false /\
  holder queued_holder_state 0%nat = Some 2%nat /\
  waiters (semas queued_holder_state (SemaAt 0)) = [0%nat; 2%nat] /\
  descending (prio queued_holder_state) (waiters (semas queued_holder_state (SemaAt 0))) /\
  donate_nested 9 1%nat (Some 0%nat) 0 queued_holder_state =
    (update_wait_list_when_thread_priority_changes 2%nat (SemaAt 0) ;;
     donate_nested 8 2%nat (Some 0%nat) 1) (donated 2%nat 1%nat queued_holder_state) /\
  waiters (semas (donated 2%nat 1%nat queued_holder_state) (SemaAt 0)) = [0%nat; 2%nat] /\
  prio (donated 2%nat 1%nat queued_holder_state) 0%nat = 31 /\
  prio (donated 2%nat 1%nat queued_holder_state) 2%nat = 40 /\
  ~ descending (prio (donated 2%nat 1%nat queued_holder_state))
      (waiters (semas (donated 2%nat 1%nat queued_holder_state) (SemaAt 0))) /\
  (exists st',
     sema_up (SemaAt 0) (with_in_intr true (donated 2%nat 1%nat queued_holder_state)) =
       Done tt st' /\
     status (threads st' 0%nat) = THREAD_READY /\
     waiters (semas st' (SemaAt 0)) = [2%nat]) /\
  (exists st' k,
     lock_acquire 1 0%nat queued_holder_state = Susp st' k /\
     waiters (semas st' (SemaAt 0)) = [2%nat; 0%nat] /\
     descending (prio st') (waiters (semas st' (SemaAt 0)))).
Proof.
  assert (waiters (semas (donated 2%nat 1%nat queued_holder_state) (SemaAt 0)) = [0%nat; 2%nat])
    as Hw by (vm_compute; reflexivity).
  assert (prio (donated 2%nat 1%nat queued_holder_state) 0%nat = 31) as H0
    by (vm_compute; reflexivity).
  assert (prio (donated 2%nat 1%nat queued_holder_state) 2%nat = 40) as H2
    by (vm_compute; reflexivity).
  split; [exact reachable_queued_holder_config|].
  split; [vm_compute; reflexivity|]. split; [vm_compute; reflexivity|].
  split; [vm_compute; reflexivity|]. split; [vm_compute; reflexivity|].
  split; [apply (inv_sorted _ (reachable_Inv _ reachable_queued_holder_config))|].
  split.
  { rewrite donate_nested_unfold. simpl Z.eqb. cbv iota.
    replace (holder queued_holder_state 0%nat) with (Some 2%nat) by (vm_compute; reflexivity).
    replace (prio queued_holder_state 2%nat <? prio queued_holder_state 1%nat) with true
      by (vm_compute; reflexivity).
    replace (status (threads queued_holder_state 2%nat)) with THREAD_BLOCKED
      by (vm_compute; reflexivity).
    replace (wait_lock (threads queued_holder_state 2%nat)) with (Some 0%nat)
      by (vm_compute; reflexivity).
    assert (wait_semaphore (threads (donated 2%nat 1%nat queued_holder_state) 2%nat) =
            Some (SemaAt 0)) as Hws by (vm_compute; reflexivity).
    mstep. rewrite bind_unfold, (update_wait_list_run 2%nat (SemaAt 0))
      by (by eapply linked_waiting).
    cbn [run_bind]. unfold requeued_if_waiting. by rewrite Hws. }
  split; [exact Hw|]. split; [exact H0|]. split; [exact H2|]. split.
  { rewrite Hw. intros Hd. apply descending_cons in Hd as [_ Hd].
    apply Forall_cons in Hd as [Hd _]. rewrite H0, H2 in Hd. lia. }
  split.
  - assert (is_susp (sema_up (SemaAt 0)
              (with_in_intr true (donated 2%nat 1%nat queued_holder_state))) = false) as Hns
      by (vm_compute; reflexivity).
    assert (is_Some (state_of (sema_up (SemaAt 0)
              (with_in_intr true (donated 2%nat 1%nat queued_holder_state))))) as [st' Hst']
      by (apply is_Some_alt; by vm_compute).
    destruct (state_of_returned _ _ Hst' Hns) as [[] Hdone].
    exists st'. split; [exact Hdone|].
    assert (st' = left_by (sema_up (SemaAt 0)
              (with_in_intr true (donated 2%nat 1%nat queued_holder_state)))) as ->
      by (unfold left_by; by rewrite Hst').
    split; vm_compute; reflexivity.
  - assert (is_susp (lock_acquire 1 0%nat queued_holder_state) = true) as Hs
      by (vm_compute; reflexivity).
    assert (is_Some (state_of (lock_acquire 1 0%nat queued_holder_state))) as [st' Hst']
      by (apply is_Some_alt; by vm_compute).
    destruct (state_of_suspended _ _ Hst' Hs) as [k Hsusp].
    exists st', k. split; [exact Hsusp|].
    assert (st' = left_by (lock_acquire 1 0%nat queued_holder_state)) as ->
      by (unfold left_by; by rewrite Hst').
    assert (waiters (semas (left_by (lock_acquire 1 0%nat queued_holder_state)) (SemaAt 0)) =
            [2%nat; 0%nat]) as Hw' by (vm_compute; reflexivity).
    split; [exact Hw'|]. rewrite Hw'.
    apply descending_cons. split; [apply descending_cons; split; constructor|].
    apply Forall_cons. split; [by vm_compute|constructor].
Qed.

(** ** Signalling and broadcasting *)

(** A broadcast that runs through without giving up the processor has
    upped the semaphore of every waiter on the list once. *)
Lemma cond_broadcast_Done_ups fuel c l : forall st st',
  in_intr st = false -> holder st l = Some (current st) ->
  NoDup (cond_waiters st c) ->
  cond_broadcast fuel c l st = Done tt st' ->
  forall w, w ∈ cond_waiters st c ->
    semas st' (WaiterSema w) =
      mkSema ((value (semas st (WaiterSema w)) + 1) mod UINT_MODULUS)
             (tail (waiters (semas st (WaiterSema w)))).
Proof.
  induction fuel as [|fuel IH]; intros st st' Hi Hh Hnd; cbn [cond_broadcast]; mstep.
  - destruct (cond_waiters st c) eqn:Hl; [|done]. intros _ w Hw. by apply elem_of_nil in Hw.
  - destruct (cond_waiters st c) as [|w0 rest] eqn:Hl.
    { intros _ w Hw. by apply elem_of_nil in Hw. }
    rewrite bind_unfold, (cond_signal_run c l st w0 rest Hi Hh Hl).
    destruct (sema_up (WaiterSema w0) (with_cond_waiters_at c rest st)) as [[] st1| | | |] eqn:Hup;
      cbn [run_bind]; try done.
    assert (state_of (sema_up (WaiterSema w0) (with_cond_waiters_at c rest st)) = Some st1)
      as Hst1 by (by rewrite Hup).
    destruct (sema_up_frame _ _ _ Hst1) as (Hc1 & Hh1 & Hcw1 & Hi1).
    destruct (sema_up_semas _ _ _ Hst1) as [Hsem1 Hother1].
    apply NoDup_cons in Hnd as [Hw0 Hnd].
    assert (cond_waiters st1 c = rest) as Hl1.
    { rewrite Hcw1. st_simpl. by rewrite fn_lookup_insert. }
    assert (in_intr st1 = false) as Hi1' by (by rewrite Hi1).
    assert (holder st1 l = Some (current st1)) as Hh1' by (rewrite Hh1, Hc1; exact Hh).
    intros Hbc w [->|Hw]%elem_of_cons.
    + destruct (cond_broadcast_Done_grows fuel c l st1 st' Hi1' Hh1' Hbc)
        as (_ & _ & _ & _ & _ & Hs').
      rewrite Hs' by (by rewrite Hl1). exact Hsem1.
    + rewrite <- Hl1 in Hnd, Hw.
      rewrite (IH st1 st' Hi1' Hh1' Hnd Hbc w Hw).
      rewrite Hother1; [done|]. intros [= ->]. rewrite Hl1 in Hw. done.
Qed.

(** C9: [cond_signal] by the holder of the lock, outside an interrupt
    handler, in a well-formed state.  On an empty list it changes
    nothing.  On a non-empty list it takes off exactly the head, whose
    snapshot is the highest of the list, leaves the rest in descending
    order, and ups the semaphore of that waiter.  [cond_broadcast] is
    the loop "while the list is not empty, [cond_signal]": on an empty
    list it returns at once, on a non-empty list it runs [cond_signal]
    and goes on as [cond_broadcast] from the state that [cond_signal]
    returns in.  It returns only with [cond->waiters] empty, it does
    return when given one pass of its loop per waiter, and when it
    returns without having given up the processor the semaphore of every
    waiter that was on the list has been upped once and no other
    waiter's semaphore was touched. *)
Theorem C9_cond_signal_broadcast (st : state) (c : cond_id) (l : lock_id) :
  Inv st -> in_intr st = false -> holder st l = Some (current st) ->
  (match cond_waiters st c with
   | [] => cond_signal c l st = Done tt st
   | w :: rest =>
      cond_signal c l st = sema_up (WaiterSema w) (with_cond_waiters_at c rest st) /\
      (forall u, u ∈ w :: rest -> waiter_priority st u <= waiter_priority st w) /\
      descending (waiter_priority st) rest /\
      (forall st', state_of (cond_signal c l st) = Some st' ->
         cond_waiters st' c = rest /\
         (forall c', c' <> c -> cond_waiters st' c' = cond_waiters st c') /\
         value (semas st' (WaiterSema w)) =
           (value (semas st (WaiterSema w)) + 1) mod UINT_MODULUS)
   end) /\
  (forall fuel,
     match cond_waiters st c with
     | [] => cond_broadcast fuel c l st = Done tt st
     | _ :: _ =>
        cond_broadcast (S fuel) c l st =
          run_bind (cond_signal c l st) (fun _ => cond_broadcast fuel c l)
     end) /\
  (forall fuel R st',
     returns R (cond_broadcast fuel c l st) tt st' -> cond_waiters st' c = []) /\
  (forall fuel, (length (cond_waiters st c) <= fuel)%nat ->
     completes (cond_resumed c l) (fun _ st' => cond_waiters st' c = [])
       (cond_broadcast fuel c l st)) /\
  (forall fuel st', NoDup (cond_waiters st c) ->
     cond_broadcast fuel c l st = Done tt st' ->
     forall w,
       if decide (w ∈ cond_waiters st c)
       then semas st' (WaiterSema w) =
              mkSema ((value (semas st (WaiterSema w)) + 1) mod UINT_MODULUS)
                     (tail (waiters (semas st (WaiterSema w))))
       else semas st' (WaiterSema w) = semas st (WaiterSema w)).
Proof.
  intros HI Hi Hh. split; [|split; [|split; [|split]]].
  - pose proof (inv_cond_sorted _ HI c) as Hd.
    destruct (cond_waiters st c) as [|w rest] eqn:Hl.
    + unfold cond_signal, lock_held_by_current_thread. mstep.
      rewrite Hi. mstep. rewrite bool_decide_eq_true_2 by done. mstep. by rewrite Hl.
    + split; [by apply cond_signal_run|]. split; [|split].
      * intros u Hu. by apply (descending_head_max (waiter_priority st) w rest).
      * by eapply descending_tail.
      * intros st'. rewrite (cond_signal_run c l st w rest) by done. intros Hst'.
        pose proof (sema_up_frame _ _ _ Hst') as (_ & _ & Hcw & _).
        pose proof (sema_up_semas _ _ _ Hst') as [Hsem _].
        rewrite Hcw, Hsem. st_simpl. rewrite fn_lookup_insert.
        split; [done|]. split; [|done]. intros c' Hc'. by rewrite fn_lookup_insert_ne.
  - intros fuel. destruct (cond_waiters st c) as [|w rest] eqn:Hl.
    + destruct fuel; cbn [cond_broadcast]; mstep; by rewrite Hl.
    + cbn [cond_broadcast]. mstep. by rewrite Hl.
  - intros fuel R st'. apply returns_cond_broadcast.
  - intros fuel Hlen. by apply completes_cond_broadcast.
  - intros fuel st' Hnd Hbc w. destruct (decide (w ∈ cond_waiters st c)) as [Hw|Hw].
    + by apply (cond_broadcast_Done_ups fuel c l st st').
    + by apply (cond_broadcast_Done_grows fuel c l st st').
Qed.

Lemma Inv_level_state : Inv level_state.
Proof.
  constructor; simpl.
  - intros s. constructor.
  - intros s. constructor.
  - intros s t Ht. by apply elem_of_nil in Ht.
  - intros [|[|[|t]]] s; simpl; done.
  - intros [|[|[|t]]]; simpl; done.
  - intros t Ht. repeat (apply elem_of_cons in Ht as [->|Ht]; [done|]).
    by apply elem_of_nil in Ht.
  - repeat (apply NoDup_cons_2); [| |constructor].
    + intros Ht. repeat (apply elem_of_cons in Ht as [?|Ht]; [done|]).
      by apply elem_of_nil in Ht.
    + intros Ht. by apply elem_of_nil in Ht.
  - intros [|[|[|t]]]; simpl; lia.
  - intros s. by vm_compute.
  - intros c. constructor.
  - intros c w Hw. by apply elem_of_nil in Hw.
Qed.

Lemma reachable_broadcast_config : reachable broadcast_config.
Proof. unfold broadcast_config. reach. apply reach_boot, Inv_level_state. Qed.

Lemma C9_cond_signal_broadcast_witness :
  (Inv cond_state /\
   in_intr cond_state = false /\
   holder cond_state 0%nat = Some (current cond_state) /\
   cond_waiters cond_state 0%nat = [1%nat; 0%nat] /\
   cond_signal 0%nat 0%nat cond_state =
     sema_up (WaiterSema 1%nat) (with_cond_waiters_at 0%nat [0%nat] cond_state) /\
   (forall u, u ∈ [1%nat; 0%nat] ->
      waiter_priority cond_state u <= waiter_priority cond_state 1%nat) /\
   cond_broadcast 2 0%nat 0%nat cond_state =
     run_bind (cond_signal 0%nat 0%nat cond_state) (fun _ => cond_broadcast 1 0%nat 0%nat) /\
   completes (cond_resumed 0%nat 0%nat) (fun _ st' => cond_waiters st' 0%nat = [])
     (cond_broadcast 2 0%nat 0%nat cond_state)) /\
  (Inv broadcast_state /\
   in_intr broadcast_state = false /\
   holder broadcast_state 0%nat = Some (current broadcast_state) /\
   cond_waiters broadcast_state 0%nat = [0%nat; 1%nat] /\
   value (semas broadcast_state (WaiterSema 0%nat)) = 0 /\
   value (semas broadcast_state (WaiterSema 1%nat)) = 0 /\
   exists st',
     cond_broadcast 2 0%nat 0%nat broadcast_state = Done tt st' /\
     semas st' (WaiterSema 0%nat) = mkSema 1 [] /\
     semas st' (WaiterSema 1%nat) = mkSema 1 [] /\
     semas st' (WaiterSema 2%nat) = semas broadcast_state (WaiterSema 2%nat)).
Proof.
  split.
  - unfold cond_state. set (st := cfg_state cond_config).
    assert (Inv st) as HI by exact (reachable_Inv _ reachable_cond_config).
    assert (in_intr st = false) as Hi by (vm_compute; reflexivity).
    assert (holder st 0%nat = Some (current st)) as Hh by (vm_compute; reflexivity).
    assert (cond_waiters st 0%nat = [1%nat; 0%nat]) as Hl by (vm_compute; reflexivity).
    split; [exact HI|]. split; [exact Hi|]. split; [exact Hh|]. split; [exact Hl|].
    destruct (C9_cond_signal_broadcast st 0%nat 0%nat HI Hi Hh) as (Hsig & Hloop & _ & Hbc & _).
    specialize (Hloop 1%nat).
    rewrite Hl in Hsig, Hbc, Hloop. destruct Hsig as (Hrun & Hmax & _).
    split; [exact Hrun|]. split; [exact Hmax|]. split; [exact Hloop|].
    apply Hbc. simpl. lia.
  - unfold broadcast_state. set (st := cfg_state broadcast_config).
    assert (Inv st) as HI by exact (reachable_Inv _ reachable_broadcast_config).
    assert (in_intr st = false) as Hi by (vm_compute; reflexivity).
    assert (holder st 0%nat = Some (current st)) as Hh by (vm_compute; reflexivity).
    assert (cond_waiters st 0%nat = [0%nat; 1%nat]) as Hl by (vm_compute; reflexivity).
    assert (semas st (WaiterSema 0%nat) = mkSema 0 [0%nat]) as Hs0 by (vm_compute; reflexivity).
    assert (semas st (WaiterSema 1%nat) = mkSema 0 [1%nat]) as Hs1 by (vm_compute; reflexivity).
    assert (NoDup (cond_waiters st 0%nat)) as Hnd.
    { rewrite Hl. apply NoDup_cons. split; [by intros ?%list_elem_of_singleton|].
      apply NoDup_cons. split; [by intros ?%elem_of_nil|constructor]. }
    assert (is_susp (cond_broadcast 2 (0%nat : cond_id) (0%nat : lock_id) st) = false) as Hns
      by (vm_compute; reflexivity).
    assert (is_Some (state_of (cond_broadcast 2 (0%nat : cond_id) (0%nat : lock_id) st)))
      as [st' Hst'] by (apply is_Some_alt; by vm_compute).
    destruct (state_of_returned _ _ Hst' Hns) as [[] Hrun].
    split; [exact HI|]. split; [exact Hi|]. split; [exact Hh|]. split; [exact Hl|].
    split; [by rewrite Hs0|]. split; [by rewrite Hs1|].
    destruct (C9_cond_signal_broadcast st 0%nat 0%nat HI Hi Hh) as (_ & _ & _ & _ & Hups).
    specialize (Hups 2%nat st' Hnd Hrun).
    pose proof (Hups 0%nat) as H0. pose proof (Hups 1%nat) as H1. pose proof (Hups 2%nat) as H2.
    rewrite Hl in H0, H1, H2.
    rewrite decide_True in H0 by (by left).
    rewrite decide_True in H1 by (right; by left).
    rewrite decide_False in H2
      by (intros [?|[?|?%elem_of_nil]%elem_of_cons]%elem_of_cons; done).
    rewrite Hs0 in H0. rewrite Hs1 in H1.
    exists st'. split; [exact Hrun|]. split; [exact H0|]. split; [exact H1|exact H2].
Defined.
